(** * Stochastic-gradient MCMC samplers of zhusuan (zhusuan/sgmcmc.py)

    A shallow embedding of the four samplers SGLD, PSGLD, SGHMC and SGNHT
    and of the base class SGMCMC that drives them.

    The Python code builds a TensorFlow graph once ([sample]) and the caller
    then runs the returned operation many times.  The embedding follows that
    split:

    - module [tf] models the part of TensorFlow the samplers call: tensors of
      rank 0 and 1 over the real numbers (the float32 arithmetic of the
      library is idealised by the field of reals), element-wise operations
      with broadcasting, variables, assignment operations and what one
      [Session.run] of a group of assignments can leave behind;
    - the sampler classes become modules with a record [t] for [self], and
      functions named after the methods they embed;
    - a symbolic tensor is represented by the outcome of evaluating it in the
      current run, [Some a] or [None] when the evaluation raises, so that an
      error in an input propagates along the data flow exactly to the
      operations that consume it. *)

From Stdlib Require Import String Reals Lra Lia ZArith List Bool.
Import ListNotations.
Open Scope R_scope.

(* ================================================================== *)
(** ** The tensor substrate *)
(* ================================================================== *)

Module tf.

(** Concrete tensor values: a rank-0 tensor, or a rank-1 tensor given by its
    elements. *)
Inductive ndarray : Type :=
| Scalar (x : R)
| Dense (xs : list R).

Inductive TensorShape : Type :=
| Rank0
| Rank1 (n : nat).

Definition shape_of (a : ndarray) : TensorShape :=
  match a with
  | Scalar _ => Rank0
  | Dense xs => Rank1 (length xs)
  end.

Definition shape_eqb (s1 s2 : TensorShape) : bool :=
  match s1, s2 with
  | Rank0, Rank0 => true
  | Rank1 n, Rank1 m => Nat.eqb n m
  | _, _ => false
  end.

(** Element [i] of a tensor; a rank-0 tensor broadcasts to every index. *)
Definition item (a : ndarray) (i : nat) : R :=
  match a with
  | Scalar x => x
  | Dense xs => nth i xs 0
  end.

(** Number of elements. *)
Definition size (a : ndarray) : nat :=
  match a with
  | Scalar _ => 1%nat
  | Dense xs => length xs
  end.

Definition numel (sh : TensorShape) : nat :=
  match sh with
  | Rank0 => 1%nat
  | Rank1 n => n
  end.

(** The tensor of shape [sh] whose element [i] is [f i]. *)
Definition pointwise (sh : TensorShape) (f : nat -> R) : ndarray :=
  match sh with
  | Rank0 => Scalar (f 0%nat)
  | Rank1 n => Dense (map f (seq 0 n))
  end.

(** A symbolic tensor, represented by its evaluation in the current run:
    [None] when evaluating it raises. *)
Abbreviation Tensor := (option ndarray) (only parsing).

Fixpoint zip_with (f : R -> R -> R) (xs ys : list R) : list R :=
  match xs, ys with
  | x :: xs', y :: ys' => f x y :: zip_with f xs' ys'
  | _, _ => []
  end.

(** Element-wise binary operation with TensorFlow's broadcasting: a rank-0
    operand or a dimension of size 1 is stretched, equal sizes are combined
    index by index, anything else is an incompatible-shapes error. *)
Definition broadcast (f : R -> R -> R) (a b : ndarray) : Tensor :=
  match a, b with
  | Scalar x, Scalar y => Some (Scalar (f x y))
  | Scalar x, Dense ys => Some (Dense (map (fun y => f x y) ys))
  | Dense xs, Scalar y => Some (Dense (map (fun x => f x y) xs))
  | Dense xs, Dense ys =>
      if Nat.eqb (length xs) (length ys) then Some (Dense (zip_with f xs ys))
      else match xs, ys with
           | [x], _ => Some (Dense (map (fun y => f x y) ys))
           | _, [y] => Some (Dense (map (fun x => f x y) xs))
           | _, _ => None
           end
  end.

Definition binary (f : R -> R -> R) (a b : Tensor) : Tensor :=
  match a, b with
  | Some x, Some y => broadcast f x y
  | _, _ => None
  end.

Definition map_ndarray (f : R -> R) (a : ndarray) : ndarray :=
  match a with
  | Scalar x => Scalar (f x)
  | Dense xs => Dense (map f xs)
  end.

Definition unary (f : R -> R) (a : Tensor) : Tensor :=
  option_map (map_ndarray f) a.

Definition constant (x : R) : Tensor := Some (Scalar x).

Definition add : Tensor -> Tensor -> Tensor := binary Rplus.
Definition subtract : Tensor -> Tensor -> Tensor := binary Rminus.
Definition multiply : Tensor -> Tensor -> Tensor := binary Rmult.
Definition divide : Tensor -> Tensor -> Tensor := binary Rdiv.

(** [x**2] *)
Definition square : Tensor -> Tensor := unary (fun x => x ^ 2).
Definition sqrt : Tensor -> Tensor := unary R_sqrt.sqrt.
Definition exp : Tensor -> Tensor := unary Rtrigo_def.exp.

Definition shape (a : Tensor) : option TensorShape := option_map shape_of a.

Definition zeros_like : Tensor -> Tensor := unary (fun _ => 0).

Definition ones (sh : option TensorShape) : Tensor :=
  match sh with
  | Some Rank0 => Some (Scalar 1)
  | Some (Rank1 n) => Some (Dense (repeat 1 n))
  | None => None
  end.

Definition reduce_sum (xs : list R) : R := fold_right Rplus 0 xs.

Definition reduce_mean (a : Tensor) : Tensor :=
  match a with
  | Some (Scalar x) => Some (Scalar x)
  | Some (Dense xs) => Some (Scalar (reduce_sum xs / INR (length xs)))
  | None => None
  end.

(** The mean of the elements [f 0], [f 1], ... of a tensor of shape [sh]. *)
Definition mean (sh : TensorShape) (f : nat -> R) : R :=
  match sh with
  | Rank0 => f 0%nat
  | Rank1 n => reduce_sum (map f (seq 0 n)) / INR n
  end.

(** The standard-normal generator behind [tf.random_normal]: [draw i] is the
    number the run draws for element [i] of this operation. *)
Definition random_standard_normal (sh : option TensorShape)
    (draw : nat -> R) : Tensor :=
  match sh with
  | Some Rank0 => Some (Scalar (draw 0%nat))
  | Some (Rank1 n) => Some (Dense (map draw (seq 0 n)))
  | None => None
  end.

(** [tf.random_normal(shape, mean=0.0, stddev)] is computed by the library
    as [random_standard_normal(shape) * stddev + mean]. *)
Definition random_normal (sh : option TensorShape) (stddev : Tensor)
    (draw : nat -> R) : Tensor :=
  add (multiply (random_standard_normal sh draw) stddev) (constant 0).

(** [tf.cond(pred, true_fn, false_fn)] on a predicate known in the run. *)
Definition cond (pred : bool) (true_fn false_fn : unit -> Tensor) : Tensor :=
  if pred then true_fn tt else false_fn tt.

(** *** Variables, sessions and assignment operations *)

(** Storage cells: the Variables the caller binds as latent variables, and
    the ones a sampler creates itself, [self.vs[k]] and [self.alphas[k]]. *)
Inductive Var : Type :=
| user_var (id : nat)
| vs_var (k : nat)
| alphas_var (k : nat).

Definition Var_eqb (x y : Var) : bool :=
  match x, y with
  | user_var i, user_var j => Nat.eqb i j
  | vs_var i, vs_var j => Nat.eqb i j
  | alphas_var i, alphas_var j => Nat.eqb i j
  | _, _ => false
  end.

Definition is_user_var (x : Var) : bool :=
  match x with
  | user_var _ => true
  | _ => false
  end.

(** The state a session holds between runs: the int32 iteration counter
    [self.t] and the value of every Variable ([None]: not initialised). *)
Record Session : Type := mkSession {
  sess_t : Z;
  sess_value : Var -> Tensor
}.

Definition int32 (z : Z) : Z := ((z + 2 ^ 31) mod 2 ^ 32 - 2 ^ 31)%Z.

Definition write (x : Var) (a : ndarray) (s : Session) : Session :=
  mkSession (sess_t s)
            (fun y => if Var_eqb x y then Some a else sess_value s y).

(** Running the initialiser of a Variable. *)
Definition run_initializer (x : Var) (value : Tensor) (s : Session)
  : Session :=
  mkSession (sess_t s)
            (fun y => if Var_eqb x y then value else sess_value s y).

(** A node of the graph that changes state.
    [Assign ref value control_inputs after] is [ref.assign(value)] created
    under [tf.control_dependencies(control_inputs)]; [after] lists the
    Variables whose own assignment produces a tensor this node consumes.
    [AssignAdd_t delta] is [self.t.assign_add(delta)]. *)
Inductive Node : Type :=
| Assign (ref : Var) (value : Tensor) (control_inputs : list Tensor)
         (after : list Var)
| AssignAdd_t (delta : Z).

(** An operation handle stands for the state-changing nodes that fetching
    it executes; [tf.group] joins them. *)
Abbreviation Operation := (list Node) (only parsing).

Definition group (ops : list Operation) : Operation := concat ops.

(** Assignment validates that the new value has the shape of the Variable.
    The result is the tensor the assignment outputs. *)
Definition validate_shape (current value : Tensor) : Tensor :=
  match current, value with
  | Some c, Some x =>
      if shape_eqb (shape_of c) (shape_of x) then Some x else None
  | _, _ => None
  end.

Definition evaluated (x : Tensor) : bool :=
  match x with Some _ => true | None => false end.

(** A node can execute once its data input and its control inputs have
    evaluated. *)
Definition runnable (o : Node) : bool :=
  match o with
  | Assign _ value control_inputs _ =>
      evaluated value && forallb evaluated control_inputs
  | AssignAdd_t _ => true
  end.

Definition commit (s : Session) (o : Node) : Session :=
  match o with
  | Assign ref (Some a) _ _ => write ref a s
  | Assign _ None _ _ => s
  | AssignAdd_t delta => mkSession (int32 (sess_t s + delta)) (sess_value s)
  end.

Definition commit_all (ops : list Node) (s : Session) : Session :=
  fold_left commit ops s.

Definition writes (o : Node) (x : Var) : bool :=
  match o with
  | Assign ref _ _ _ => Var_eqb ref x
  | AssignAdd_t _ => false
  end.

Fixpoint select {A : Type} (mask : list bool) (l : list A) : list A :=
  match mask, l with
  | b :: mask', a :: l' => if b then a :: select mask' l' else select mask' l'
  | _, _ => []
  end.

(** [mask] marks the nodes of [ops] that executed before a run was aborted:
    each of them was runnable, and every node it had to wait for (a node of
    the fetched graph writing one of its [after] Variables) executed too. *)
Definition waited_for (ops : list Node) (mask : list bool) (o : Node) : bool :=
  match o with
  | Assign _ _ _ after =>
      forallb (fun x =>
        forallb (fun p => negb (writes (snd p) x) || fst p)
                (combine mask ops)) after
  | AssignAdd_t _ => true
  end.

Definition executed_prefix (ops : list Node) (mask : list bool) : bool :=
  Nat.eqb (length mask) (length ops)
  && forallb (fun o => runnable o && waited_for ops mask o) (select mask ops).

(** What [Session.run(op)] can leave behind.  When every node can execute,
    the run completes and all of them have taken effect.  When some node
    cannot (an input raised), the run raises; the nodes that had already
    executed keep their effect, and nothing is rolled back. *)
Inductive outcome : Type :=
| Completed (s : Session)
| Raised (s : Session).

Inductive run (op : Operation) (s : Session) : outcome -> Prop :=
| run_completed :
    forallb runnable op = true ->
    run op s (Completed (commit_all op s))
| run_raised (mask : list bool) :
    forallb runnable op = false ->
    executed_prefix op mask = true ->
    run op s (Raised (commit_all (select mask op) s)).

(** The value the nodes [ops], executed in order, leave in [x], if any of
    them writes it. *)
Fixpoint written (ops : list Node) (x : Var) : option ndarray :=
  match ops with
  | [] => None
  | o :: ops' =>
      match written ops' x with
      | Some a => Some a
      | None =>
          match o with
          | Assign ref (Some a) _ _ => if Var_eqb ref x then Some a else None
          | _ => None
          end
      end
  end.

(** An assignment whose value and control inputs have evaluated. *)
Definition evaluated_assign (o : Node) : Prop :=
  match o with
  | Assign _ (Some _) ctl _ => forallb evaluated ctl = true
  | _ => False
  end.

(** The successful run as a function. *)
Definition Session_run (op : Operation) (s : Session) : option Session :=
  if forallb runnable op then Some (commit_all op s) else None.

End tf.

Declare Scope tensor_scope.
Delimit Scope tensor_scope with T.
Infix "+" := tf.add : tensor_scope.
Infix "-" := tf.subtract : tensor_scope.
Infix "*" := tf.multiply : tensor_scope.
Infix "/" := tf.divide : tensor_scope.

(* ================================================================== *)
(** ** class SGMCMC *)
(* ================================================================== *)

(** [enumerate(l)], counting from [k]. *)
Fixpoint enumerate {A : Type} (k : nat) (l : list A) : list (nat * A) :=
  match l with
  | [] => []
  | a :: l' => (k, a) :: enumerate (S k) l'
  end.

(** Transposing the rows with [zip] and unpacking the result into three
    names: raises ValueError when [rows] is empty. *)
Definition unzip3 {A B C : Type} (rows : list (A * B * C))
  : option (list A * list B * list C) :=
  match rows with
  | [] => None
  | _ => Some (map (fun r => fst (fst r)) rows,
               map (fun r => snd (fst r)) rows,
               map (fun r => snd r) rows)
  end.

(** The Variables a sampler creates for the latent variables [qs], one per
    position. *)
Definition new_variables (mk : nat -> tf.Var) (qs : list tf.Var)
  : list tf.Var :=
  map (fun p => mk (fst p)) (enumerate 0 qs).

Module SGMCMC.

(** The numbers one run draws: [draw_init k i] for element [i] of the
    initial value of [self.vs[k]], [draw_resample k i] for the momentum
    resampling of variable [k], [draw_noise k i] for its injected noise. *)
Record Draws : Type := mkDraws {
  draw_init : nat -> nat -> R;
  draw_resample : nat -> nat -> R;
  draw_noise : nat -> nat -> R
}.

(** A gradient function maps the tensors of the latent variables to the
    tensors of the gradients. *)
Abbreviation grad_fn := (list tf.Tensor -> list tf.Tensor) (only parsing).

Inductive Info : Type :=
| StringInfo (msg : string)
| DictInfo (entries : list (string * tf.Tensor)).

(** The two hooks the subclasses override.  They receive, besides the
    arguments of the Python methods, the draws of the run and the session
    the graph is evaluated in. *)
Class Subclass (Self : Type) : Type := {
  _define_variables : Self -> Draws -> list tf.Var -> tf.Session -> tf.Session;
  _update : Self -> Draws -> tf.Session -> list tf.Var -> grad_fn ->
            option (list tf.Operation * list tf.Tensor * list Info)
}.

(** *** make_grad_func *)

Abbreviation dict V := (list (string * V)) (only parsing).

(** What a caller can bind to a latent name. *)
Inductive PyObject : Type :=
| TfVariable (x : tf.Var)
| TfTensor (a : tf.Tensor).

Definition isinstance_Variable (v : PyObject) : bool :=
  match v with
  | TfVariable _ => true
  | TfTensor _ => false
  end.

Inductive Exception : Type :=
| TypeError (msg : string)
| ValueError (msg : string).

(** The first argument: a log-joint function, or a MetaBayesianNet, given
    by the log joint
    of the net observed with a dictionary. *)
Inductive MetaBN : Type :=
| LogJointFunction (log_joint : dict tf.Tensor -> tf.Tensor)
| MetaBayesianNet (observe_log_joint : dict tf.Tensor -> tf.Tensor).

(** The attributes [make_grad_func] stores for [sample]. *)
Record Bound : Type := mkBound {
  _latent_k : list string;
  _var_list : list PyObject;
  _default_get_gradient : grad_fn
}.

Definition not_a_Variable (name : string) : Exception :=
  TypeError ("latent['" ++ name ++ "'] is not a tensorflow Variable.")%string.

Fixpoint check_latent (latent_k : list string) (rows : list (nat * PyObject))
  : option Exception :=
  match rows with
  | [] => None
  | (i, v) :: rows' =>
      if negb (isinstance_Variable v)
      then Some (not_a_Variable (nth i latent_k EmptyString))
      else check_latent latent_k rows'
  end.

Section MakeGradFunc.
(** [zhusuan.utils.merge_dicts] and [tf.gradients], which live outside
    this file. *)
Variable merge_dicts : dict tf.Tensor -> dict tf.Tensor -> dict tf.Tensor.
Variable gradients : (list tf.Tensor -> tf.Tensor) -> list tf.Tensor ->
                     list tf.Tensor.

Definition make_grad_func (meta_bn : MetaBN) (observed : dict tf.Tensor)
    (latent : dict PyObject)
  : Exception +
    (Bound *
     (grad_fn * (list tf.Tensor -> dict tf.Tensor -> list tf.Tensor)
      * list PyObject)) :=
  let _log_joint :=
    match meta_bn with
    | LogJointFunction f => f
    | MetaBayesianNet observe_log_joint => fun obs => observe_log_joint obs
    end in
  match latent with
  | [] => inl (ValueError "not enough values to unpack (expected 2, got 0)"%string)
  | _ =>
      let latent_k := map fst latent in
      let latent_v := map snd latent in
      match check_latent latent_k (enumerate 0 latent_v) with
      | Some e => inl e
      | None =>
          let _get_log_posterior var_list observed :=
            let joint_obs :=
              merge_dicts (combine latent_k var_list) observed in
            _log_joint joint_obs in
          let _get_gradient var_list observed :=
            gradients (fun var_list => _get_log_posterior var_list observed)
                      var_list in
          let _default_get_gradient :=
            fun var_list => _get_gradient var_list observed in
          inr (mkBound latent_k latent_v _default_get_gradient,
               (_default_get_gradient, _get_gradient, latent_v))
      end
  end.
End MakeGradFunc.

(** The storage handles among the bound objects. *)
Definition handles (var_list : list PyObject) : list tf.Var :=
  flat_map (fun v => match v with TfVariable x => [x] | TfTensor _ => [] end)
           var_list.

(** *** sample *)

Section Sample.
Context {Self : Type} `{Subclass Self}.

(** [SGMCMC.sample], evaluated on the session the operation is run in.
    [var_list], [latent_k] and [default_get_gradient] are the attributes
    [make_grad_func] stored. *)
Definition sample (self : Self) (var_list : list tf.Var)
    (latent_k : list string) (default_get_gradient : grad_fn)
    (grad_func : option grad_fn) (draws : Draws) (sess : tf.Session)
  : option (tf.Operation * dict tf.Tensor * dict Info) :=
  let qs := var_list in
  let grad_func := match grad_func with
                   | None => default_get_gradient
                   | Some f => f
                   end in
  match _update self draws sess qs grad_func with
  | Some (update_ops, new_qs, infos) =>
      let sample_op := tf.AssignAdd_t 1 :: tf.group update_ops in
      let new_samples := combine latent_k new_qs in
      let sample_info := combine latent_k infos in
      Some (sample_op, new_samples, sample_info)
  | None => None
  end.

(** The session after [SGMCMC.__init__] created the counter, [sample]
    created the sampler's Variables through [_define_variables], and all
    initialisers were run. *)
Definition initialize (self : Self) (var_list : list tf.Var)
    (draws : Draws) (sess : tf.Session) : tf.Session :=
  _define_variables self draws var_list (tf.mkSession 0 (tf.sess_value sess)).

(** One iteration: the sampling operation, run to completion. *)
Definition iteration (self : Self) (var_list : list tf.Var)
    (latent_k : list string) (grad_func : grad_fn) (draws : Draws)
    (sess : tf.Session) : option tf.Session :=
  match sample self var_list latent_k grad_func None draws sess with
  | Some (sample_op, _, _) => tf.Session_run sample_op sess
  | None => None
  end.
(** [n] iterations in a row, iteration [j] with the draws [draws j]. *)
Fixpoint iterations (self : Self) (var_list : list tf.Var)
    (latent_k : list string) (grad_func : grad_fn) (draws : nat -> Draws)
    (n : nat) (sess : tf.Session) : option tf.Session :=
  match n with
  | O => Some sess
  | S n' =>
      match iterations self var_list latent_k grad_func draws n' sess with
      | Some s => iteration self var_list latent_k grad_func (draws n') s
      | None => None
      end
  end.
End Sample.

End SGMCMC.

Import SGMCMC.

(* ================================================================== *)
(** ** class SGLD *)
(* ================================================================== *)

Module SGLD.

Record t : Type := mk {
  lr : R;
  add_noise : bool
}.

(** [SGLD(learning_rate, add_noise=True)] *)
Definition __init__ (learning_rate : R) (add_noise : option bool) : t :=
  mk learning_rate (match add_noise with Some b => b | None => true end).

Definition _define_variables (self : t) (draws : Draws) (qs : list tf.Var)
    (sess : tf.Session) : tf.Session := sess.

Definition _update_single (self : t) (sess : tf.Session) (draw : nat -> R)
    (q : tf.Var) (grad : tf.Tensor) : tf.Operation * tf.Tensor * Info :=
  let qv := tf.sess_value sess q in
  let lr := tf.constant (lr self) in
  let new_q := (qv + tf.constant 0.5 * lr * grad)%T in
  let new_q_with_noise :=
    (new_q + tf.random_normal (tf.shape qv) (tf.sqrt lr) draw)%T in
  let new_q := tf.cond (add_noise self)
                 (fun _ => new_q_with_noise) (fun _ => new_q) in
  let update_q := [tf.Assign q (tf.validate_shape qv new_q) [] []] in
  (update_q, new_q, StringInfo "No info."%string).

Definition _update (self : t) (draws : Draws) (sess : tf.Session)
    (qs : list tf.Var) (grad_func : grad_fn)
  : option (list tf.Operation * list tf.Tensor * list Info) :=
  unzip3 (map (fun '(k, (q, grad)) =>
                 _update_single self sess (draw_noise draws k) q grad)
              (enumerate 0
                 (combine qs (grad_func (map (tf.sess_value sess) qs))))).

#[global] Instance SGLD_Subclass : Subclass t := {
  _define_variables := _define_variables;
  _update := _update
}.

End SGLD.

(* ================================================================== *)
(** ** class PSGLD *)
(* ================================================================== *)

Module PSGLD.

Module RMSPreconditioner.

Record HParams : Type := RMSHParams {
  decay : R;
  epsilon : R
}.

Definition default_hps : HParams := RMSHParams 0.9 1e-3.

(** [[tf.Variable(tf.zeros_like(q)) for q in qs]]: the new Variables are
    [vs_var 0], [vs_var 1], ... *)
Definition _define_variables (qs : list tf.Var) (sess : tf.Session)
  : tf.Session :=
  fold_left
    (fun s '(k, q) =>
       tf.run_initializer (tf.vs_var k) (tf.zeros_like (tf.sess_value sess q)) s)
    (enumerate 0 qs) sess.

(** Returns the assignment node of the accumulator with the
    preconditioner, which is computed from the tensor the assignment
    outputs. *)
Definition _get_preconditioner (hps : HParams) (sess : tf.Session)
    (q : tf.Var) (grad : tf.Tensor) (aux : tf.Var) : tf.Node * tf.Tensor :=
  let auxv := tf.sess_value sess aux in
  let aux' :=
    tf.validate_shape auxv
      (tf.constant (decay hps) * auxv
       + tf.constant (1 - decay hps) * tf.square grad)%T in
  (tf.Assign aux aux' [] [],
   (tf.constant 1 / (tf.constant (epsilon hps) + tf.sqrt aux'))%T).

End RMSPreconditioner.

Record t : Type := mk {
  lr : R;
  add_noise : bool;
  preconditioner_hparams : RMSPreconditioner.HParams
}.

(** [PSGLD(learning_rate, add_noise=True, preconditioner='rms',
    preconditioner_hparams=None)]; an unknown preconditioner name raises
    KeyError. *)
Definition __init__ (learning_rate : R) (add_noise : option bool)
    (preconditioner : option string)
    (preconditioner_hparams : option RMSPreconditioner.HParams) : option t :=
  let name := match preconditioner with Some n => n | None => "rms"%string end in
  if String.eqb name "rms" then
    Some (mk learning_rate
             (match add_noise with Some b => b | None => true end)
             (match preconditioner_hparams with
              | Some hps => hps
              | None => RMSPreconditioner.default_hps
              end))
  else None.

Definition _define_variables (self : t) (draws : Draws) (qs : list tf.Var)
    (sess : tf.Session) : tf.Session :=
  RMSPreconditioner._define_variables qs sess.

Definition _update_single (self : t) (sess : tf.Session) (draw : nat -> R)
    (q : tf.Var) (grad : tf.Tensor) (aux : tf.Var)
  : tf.Operation * tf.Tensor * Info :=
  let '(update_aux, g) :=
    RMSPreconditioner._get_preconditioner
      (preconditioner_hparams self) sess q grad aux in
  let qv := tf.sess_value sess q in
  let lr := tf.constant (lr self) in
  let new_q := (qv + tf.constant 0.5 * lr * g * grad)%T in
  let new_q_with_noise :=
    (new_q + tf.random_normal (tf.shape qv) (tf.sqrt (lr * g)) draw)%T in
  let new_q := tf.cond (add_noise self)
                 (fun _ => new_q_with_noise) (fun _ => new_q) in
  let update_q :=
    [update_aux; tf.Assign q (tf.validate_shape qv new_q) [] [aux]] in
  (update_q, new_q, StringInfo "No info."%string).

Definition _update (self : t) (draws : Draws) (sess : tf.Session)
    (qs : list tf.Var) (grad_func : grad_fn)
  : option (list tf.Operation * list tf.Tensor * list Info) :=
  let vs := new_variables tf.vs_var qs in
  unzip3 (map (fun '(k, (q, (grad, aux))) =>
                 _update_single self sess (draw_noise draws k) q grad aux)
              (enumerate 0
                 (combine qs
                    (combine (grad_func (map (tf.sess_value sess) qs)) vs)))).

#[global] Instance PSGLD_Subclass : Subclass t := {
  _define_variables := _define_variables;
  _update := _update
}.

End PSGLD.

(** The momentum the update starts from: redrawn when the period is not zero
    and divides the iteration counter, carried over otherwise.  Two nested
    [tf.cond]; the inner one, with its [tf.mod], is built inside the branch
    of the outer one and only evaluated when the period is not zero. *)
Definition maybe_resample (n_iter_resample_v : Z) (sess : tf.Session)
    (resample_momentum : tf.Tensor -> tf.Tensor) (v : tf.Tensor) : tf.Tensor :=
  tf.cond (Z.eqb n_iter_resample_v 0)
    (fun _ => v)
    (fun _ => tf.cond (Z.eqb (tf.sess_t sess mod n_iter_resample_v) 0)
                (fun _ => resample_momentum v) (fun _ => v)).

(* ================================================================== *)
(** ** class SGHMC *)
(* ================================================================== *)

Module SGHMC.

Record t : Type := mk {
  lr : R;
  alpha : R;
  beta : R;
  n_iter_resample_v : Z;
  second_order : bool
}.

(** [SGHMC(learning_rate, friction, variance_estimate, n_iter_resample_v,
    second_order)]; [None] for the period becomes 0. *)
Definition __init__ (learning_rate friction variance_estimate : R)
    (n_iter_resample_v : option Z) (second_order : bool) : t :=
  mk learning_rate friction variance_estimate
     (match n_iter_resample_v with Some n => n | None => 0%Z end)
     second_order.

Definition _define_variables (self : t) (draws : Draws) (qs : list tf.Var)
    (sess : tf.Session) : tf.Session :=
  fold_left
    (fun s '(k, q) =>
       tf.run_initializer (tf.vs_var k)
         (tf.random_normal (tf.shape (tf.sess_value sess q))
            (tf.sqrt (tf.constant (lr self))) (draw_init draws k)) s)
    (enumerate 0 qs) sess.

(** The method [_update], local by local. *)

Definition resample_momentum (self : t) (draw : nat -> R) (v : tf.Tensor)
  : tf.Tensor :=
  tf.random_normal (tf.shape v) (tf.sqrt (tf.constant (lr self))) draw.

Definition old_vs (self : t) (draws : Draws) (sess : tf.Session)
    (vs : list tf.Var) : list tf.Tensor :=
  map (fun '(k, v) =>
         maybe_resample (n_iter_resample_v self) sess
           (resample_momentum self (draw_resample draws k))
           (tf.sess_value sess v))
      (enumerate 0 vs).

Definition gaussian_terms (self : t) (draws : Draws)
    (old_vs : list tf.Tensor) : list tf.Tensor :=
  map (fun '(k, old_v) =>
         tf.random_normal (tf.shape old_v)
           (tf.sqrt (tf.constant 2
                     * (tf.constant (alpha self) - tf.constant (beta self))
                     * tf.constant (lr self))%T)
           (draw_noise draws k))
      (enumerate 0 old_vs).

(** The branch [if not self.second_order]. *)
Definition first_order_branch (self : t) (sess : tf.Session) (qs : list tf.Var)
    (old_vs gaussian_terms : list tf.Tensor) (grad_func : grad_fn)
  : list tf.Tensor * list tf.Tensor :=
  let lr := tf.constant (lr self) in
  let alpha := tf.constant (alpha self) in
  let value := tf.sess_value sess in
  let new_vs :=
    map (fun '(old_v, (grad, gaussian_term)) =>
           ((tf.constant 1 - alpha) * old_v + lr * grad + gaussian_term)%T)
        (combine old_vs (combine (grad_func (map value qs)) gaussian_terms)) in
  let new_qs :=
    map (fun '(q, new_v) => (value q + new_v)%T) (combine qs new_vs) in
  (new_vs, new_qs).

(** The branch [else]. *)
Definition second_order_branch (self : t) (sess : tf.Session) (qs : list tf.Var)
    (old_vs gaussian_terms : list tf.Tensor) (grad_func : grad_fn)
  : list tf.Tensor * list tf.Tensor :=
  let lr := tf.constant (lr self) in
  let alpha := tf.constant (alpha self) in
  let value := tf.sess_value sess in
  let decay_half := tf.exp (tf.constant (-0.5) * alpha)%T in
  let q1s :=
    map (fun '(q, old_v) => (value q + tf.constant 0.5 * old_v)%T)
        (combine qs old_vs) in
  let new_vs :=
    map (fun '(old_v, (grad, gaussian_term)) =>
           (decay_half * (decay_half * old_v + lr * grad + gaussian_term))%T)
        (combine old_vs (combine (grad_func q1s) gaussian_terms)) in
  let new_qs :=
    map (fun '(q1, new_v) => (q1 + tf.constant 0.5 * new_v)%T)
        (combine q1s new_vs) in
  (new_vs, new_qs).

(** The assignments, all created under
    [tf.control_dependencies(new_vs + new_qs)], grouped per variable. *)
Definition update_ops (sess : tf.Session) (qs vs : list tf.Var)
    (new_vs new_qs : list tf.Tensor) : list tf.Operation :=
  let value := tf.sess_value sess in
  let control := new_vs ++ new_qs in
  let update_qs :=
    map (fun '(q, new_q) =>
           tf.Assign q (tf.validate_shape (value q) new_q) control [])
        (combine qs new_qs) in
  let update_vs :=
    map (fun '(v, new_v) =>
           tf.Assign v (tf.validate_shape (value v) new_v) control [])
        (combine vs new_vs) in
  map (fun '(update_q, update_v) => tf.group [[update_q]; [update_v]])
      (combine update_qs update_vs).

Definition _update (self : t) (draws : Draws) (sess : tf.Session)
    (qs : list tf.Var) (grad_func : grad_fn)
  : option (list tf.Operation * list tf.Tensor * list Info) :=
  let vs := new_variables tf.vs_var qs in
  let old_vs := old_vs self draws sess vs in
  let gaussian_terms := gaussian_terms self draws old_vs in
  let '(new_vs, new_qs) :=
    if negb (second_order self)
    then first_order_branch self sess qs old_vs gaussian_terms grad_func
    else second_order_branch self sess qs old_vs gaussian_terms grad_func in
  let mean_ks := map (fun new_v => tf.reduce_mean (tf.square new_v)) new_vs in
  let infos := map (fun mean_k => DictInfo [("mean_k"%string, mean_k)]) mean_ks in
  Some (update_ops sess qs vs new_vs new_qs, new_qs, infos).

#[global] Instance SGHMC_Subclass : Subclass t := {
  _define_variables := _define_variables;
  _update := _update
}.

End SGHMC.

(* ================================================================== *)
(** ** class SGNHT *)
(* ================================================================== *)

Module SGNHT.

Record t : Type := mk {
  lr : R;
  a : R;
  tune_rate : R;
  n_iter_resample_v : Z;
  second_order : bool;
  use_vector_alpha : bool
}.

(** [SGNHT(learning_rate, variance_extra, tune_rate, n_iter_resample_v,
    second_order, use_vector_alpha)]; [None] for the period becomes 0. *)
Definition __init__ (learning_rate variance_extra tune_rate : R)
    (n_iter_resample_v : option Z) (second_order use_vector_alpha : bool) : t :=
  mk learning_rate variance_extra tune_rate
     (match n_iter_resample_v with Some n => n | None => 0%Z end)
     second_order use_vector_alpha.

Definition _define_variables (self : t) (draws : Draws) (qs : list tf.Var)
    (sess : tf.Session) : tf.Session :=
  let with_vs :=
    fold_left
      (fun s '(k, q) =>
         tf.run_initializer (tf.vs_var k)
           (tf.random_normal (tf.shape (tf.sess_value sess q))
              (tf.sqrt (tf.constant (lr self))) (draw_init draws k)) s)
      (enumerate 0 qs) sess in
  fold_left
    (fun s '(k, q) =>
       tf.run_initializer (tf.alphas_var k)
         (if use_vector_alpha self
          then (tf.constant (a self) * tf.ones (tf.shape (tf.sess_value sess q)))%T
          else tf.constant (a self)) s)
    (enumerate 0 qs) with_vs.

Definition maybe_reduce_mean (self : t) (tensor : tf.Tensor) : tf.Tensor :=
  if use_vector_alpha self then tensor else tf.reduce_mean tensor.

(** The method [_update], local by local. *)

Definition resample_momentum (self : t) (draw : nat -> R) (v : tf.Tensor)
  : tf.Tensor :=
  tf.random_normal (tf.shape v) (tf.sqrt (tf.constant (lr self))) draw.

Definition old_vs (self : t) (draws : Draws) (sess : tf.Session)
    (vs : list tf.Var) : list tf.Tensor :=
  map (fun '(k, v) =>
         maybe_resample (n_iter_resample_v self) sess
           (resample_momentum self (draw_resample draws k))
           (tf.sess_value sess v))
      (enumerate 0 vs).

Definition gaussian_terms (self : t) (draws : Draws)
    (old_vs : list tf.Tensor) : list tf.Tensor :=
  map (fun '(k, old_v) =>
         tf.random_normal (tf.shape old_v)
           (tf.sqrt (tf.constant 2 * tf.constant (a self)
                     * tf.constant (lr self))%T)
           (draw_noise draws k))
      (enumerate 0 old_vs).

(** The branch [if not self.second_order]: new momenta, new positions,
    kinetic energies and new frictions. *)
Definition first_order_branch (self : t) (sess : tf.Session) (qs alphas : list tf.Var)
    (old_vs gaussian_terms : list tf.Tensor) (grad_func : grad_fn)
  : list tf.Tensor * list tf.Tensor * list tf.Tensor * list tf.Tensor :=
  let lr := tf.constant (lr self) in
  let tune_rate := tf.constant (tune_rate self) in
  let value := tf.sess_value sess in
  let new_vs :=
    map (fun '(old_v, (alpha, (grad, gaussian_term))) =>
           ((tf.constant 1 - value alpha) * old_v + lr * grad
            + gaussian_term)%T)
        (combine old_vs
           (combine alphas
              (combine (grad_func (map value qs)) gaussian_terms))) in
  let new_qs :=
    map (fun '(q, new_v) => (value q + new_v)%T) (combine qs new_vs) in
  let mean_ks :=
    map (fun new_v => maybe_reduce_mean self (tf.square new_v)) new_vs in
  let new_alphas :=
    map (fun '(alpha, mean_k) =>
           (value alpha + tune_rate * (mean_k - lr))%T)
        (combine alphas mean_ks) in
  (new_vs, new_qs, mean_ks, new_alphas).

(** The branch [else]. *)
Definition second_order_branch (self : t) (sess : tf.Session)
    (qs alphas : list tf.Var) (old_vs gaussian_terms : list tf.Tensor)
    (grad_func : grad_fn)
  : list tf.Tensor * list tf.Tensor * list tf.Tensor * list tf.Tensor :=
  let lr := tf.constant (lr self) in
  let tune_rate := tf.constant (tune_rate self) in
  let value := tf.sess_value sess in
  let q1s :=
    map (fun '(q, old_v) => (value q + tf.constant 0.5 * old_v)%T)
        (combine qs old_vs) in
  let mean_k1s :=
    map (fun old_v => maybe_reduce_mean self (tf.square old_v)) old_vs in
  let alpha1s :=
    map (fun '(alpha, mean_k1) =>
           (value alpha + tf.constant 0.5 * tune_rate * (mean_k1 - lr))%T)
        (combine alphas mean_k1s) in
  let decay_halfs :=
    map (fun alpha1 => tf.exp (tf.constant (-0.5) * alpha1)%T) alpha1s in
  let new_vs :=
    map (fun '(decay_half, (old_v, (grad, gaussian_term))) =>
           (decay_half * (decay_half * old_v + lr * grad + gaussian_term))%T)
        (combine decay_halfs
           (combine old_vs (combine (grad_func q1s) gaussian_terms))) in
  let new_qs :=
    map (fun '(q1, new_v) => (q1 + tf.constant 0.5 * new_v)%T)
        (combine q1s new_vs) in
  let mean_ks :=
    map (fun new_v => maybe_reduce_mean self (tf.square new_v)) new_vs in
  let new_alphas :=
    map (fun '(alpha1, mean_k) =>
           (alpha1 + tf.constant 0.5 * tune_rate * (mean_k - lr))%T)
        (combine alpha1s mean_ks) in
  (new_vs, new_qs, mean_ks, new_alphas).

(** The assignments, all created under
    [tf.control_dependencies(new_vs + new_qs + new_alphas)], grouped per
    variable. *)
Definition update_ops (sess : tf.Session) (qs vs alphas : list tf.Var)
    (new_vs new_qs new_alphas : list tf.Tensor) : list tf.Operation :=
  let value := tf.sess_value sess in
  let control := new_vs ++ new_qs ++ new_alphas in
  let update_qs :=
    map (fun '(q, new_q) =>
           tf.Assign q (tf.validate_shape (value q) new_q) control [])
        (combine qs new_qs) in
  let update_vs :=
    map (fun '(v, new_v) =>
           tf.Assign v (tf.validate_shape (value v) new_v) control [])
        (combine vs new_vs) in
  let update_alphas :=
    map (fun '(alpha, new_alpha) =>
           tf.Assign alpha (tf.validate_shape (value alpha) new_alpha) control [])
        (combine alphas new_alphas) in
  map (fun '(update_q, (update_v, update_alpha)) =>
         tf.group [[update_q]; [update_v]; [update_alpha]])
      (combine update_qs (combine update_vs update_alphas)).

Definition _update (self : t) (draws : Draws) (sess : tf.Session)
    (qs : list tf.Var) (grad_func : grad_fn)
  : option (list tf.Operation * list tf.Tensor * list Info) :=
  let vs := new_variables tf.vs_var qs in
  let alphas := new_variables tf.alphas_var qs in
  let old_vs := old_vs self draws sess vs in
  let gaussian_terms := gaussian_terms self draws old_vs in
  let '(new_vs, new_qs, mean_ks, new_alphas) :=
    if negb (second_order self)
    then first_order_branch self sess qs alphas old_vs gaussian_terms grad_func
    else second_order_branch self sess qs alphas old_vs gaussian_terms grad_func in
  let infos :=
    map (fun '(mean_k, new_alpha) =>
           DictInfo [("mean_k"%string, tf.reduce_mean mean_k);
                     ("alpha"%string, tf.reduce_mean new_alpha)])
        (combine mean_ks new_alphas) in
  Some (update_ops sess qs vs alphas new_vs new_qs new_alphas, new_qs, infos).

#[global] Instance SGNHT_Subclass : Subclass t := {
  _define_variables := _define_variables;
  _update := _update
}.

End SGNHT.

(* ================================================================== *)
(** ** The update rules, element by element *)
(* ================================================================== *)

(** The latent variables a sampler is bound to: distinct Variables of the
    caller. *)
Definition bound_latents (qs : list tf.Var) : Prop :=
  NoDup qs /\ Forall (fun x => tf.is_user_var x = true) qs.

(** The session holds the values [vals] in the Variables [xs]. *)
Definition holds (sess : tf.Session) (xs : list tf.Var)
    (vals : list tf.ndarray) : Prop :=
  map (tf.sess_value sess) xs = map Some vals.

(** Position by position, the tensors of [l2] have the shape of those of
    [l1]. *)
Definition same_shapes (l1 l2 : list tf.ndarray) : Prop :=
  Forall2 (fun a b => tf.shape_of b = tf.shape_of a) l1 l2.

(** A gradient function that returns, for evaluated inputs, one evaluated
    gradient per input, of the same shape. *)
Definition shape_preserving
    (grad_func : list (option tf.ndarray) -> list (option tf.ndarray)) : Prop :=
  forall xs, exists gs, grad_func (map Some xs) = map Some gs
                        /\ same_shapes xs gs.

(** The tensor of zeros of the shape of [q]. *)
Definition zeros (q : tf.ndarray) : tf.ndarray :=
  tf.pointwise (tf.shape_of q) (fun _ => 0).

(** A centred Gaussian sample of the given variance: the standard-normal
    draw scaled by the standard deviation. *)
Definition gaussian (variance : R) (draw : R) : R := sqrt variance * draw.

(** The SGLD rule for one latent variable with value [q] and gradient [g]. *)
Definition SGLD_new_q (self : SGLD.t) (draw : nat -> R) (q g : tf.ndarray)
  : tf.ndarray :=
  tf.pointwise (tf.shape_of q)
    (fun i => tf.item q i + 0.5 * SGLD.lr self * tf.item g i
              + (if SGLD.add_noise self
                 then gaussian (SGLD.lr self) (draw i) else 0)).

(** The PSGLD rule: the accumulator, the preconditioner and the new value
    of one latent variable with value [q], gradient [g] and accumulator
    [aux]. *)
Definition PSGLD_new_aux (self : PSGLD.t) (aux g : tf.ndarray) : tf.ndarray :=
  let hps := PSGLD.preconditioner_hparams self in
  tf.pointwise (tf.shape_of aux)
    (fun i => PSGLD.RMSPreconditioner.decay hps * tf.item aux i
              + (1 - PSGLD.RMSPreconditioner.decay hps) * tf.item g i ^ 2).

Definition PSGLD_G (self : PSGLD.t) (aux' : tf.ndarray) (i : nat) : R :=
  1 / (PSGLD.RMSPreconditioner.epsilon (PSGLD.preconditioner_hparams self)
       + sqrt (tf.item aux' i)).

Definition PSGLD_new_q (self : PSGLD.t) (draw : nat -> R)
    (q g aux' : tf.ndarray) : tf.ndarray :=
  tf.pointwise (tf.shape_of q)
    (fun i => tf.item q i
              + 0.5 * PSGLD.lr self * PSGLD_G self aux' i * tf.item g i
              + (if PSGLD.add_noise self
                 then gaussian (PSGLD.lr self * PSGLD_G self aux' i) (draw i)
                 else 0)).

(** The momentum resampling policy: the momentum is redrawn when the period
    is not zero and the iteration counter is a multiple of it. *)
Definition resamples (period t : Z) : bool :=
  negb (Z.eqb period 0) && Z.eqb (t mod period) 0.

(** Element [i] of the momentum an update starts from: a fresh sample of
    variance [eta], or the stored momentum [v]. *)
Definition momentum_item (eta : R) (period t : Z) (draw : nat -> R)
    (v : tf.ndarray) (i : nat) : R :=
  if resamples period t then sqrt eta * draw i else tf.item v i.

Definition momentum_used (eta : R) (period t : Z) (draw : nat -> R)
    (v : tf.ndarray) : tf.ndarray :=
  tf.pointwise (tf.shape_of v) (momentum_item eta period t draw v).

(** First-order momentum and position, with friction [alpha i] on element
    [i] and noise [xi i]. *)
Definition first_order_v (alpha : nat -> R) (eta : R) (xi : nat -> R)
    (v g : tf.ndarray) : tf.ndarray :=
  tf.pointwise (tf.shape_of v)
    (fun i => (1 - alpha i) * tf.item v i + eta * tf.item g i + xi i).

Definition first_order_q (q v' : tf.ndarray) : tf.ndarray :=
  tf.pointwise (tf.shape_of q) (fun i => tf.item q i + tf.item v' i).

(** Second-order momentum and position. *)
Definition half_step (q v : tf.ndarray) : tf.ndarray :=
  tf.pointwise (tf.shape_of q) (fun i => tf.item q i + 0.5 * tf.item v i).

Definition second_order_v (alpha : nat -> R) (eta : R) (xi : nat -> R)
    (v g : tf.ndarray) : tf.ndarray :=
  tf.pointwise (tf.shape_of v)
    (fun i => exp (-0.5 * alpha i)
              * (exp (-0.5 * alpha i) * tf.item v i + eta * tf.item g i + xi i)).

Definition second_order_q (q_half v' : tf.ndarray) : tf.ndarray :=
  tf.pointwise (tf.shape_of q_half)
    (fun i => tf.item q_half i + 0.5 * tf.item v' i).

(** *** SGHMC *)

Definition SGHMC_old_v (self : SGHMC.t) (sess : tf.Session) (draws : Draws)
    (k : nat) (v : tf.ndarray) : tf.ndarray :=
  momentum_used (SGHMC.lr self) (SGHMC.n_iter_resample_v self)
    (tf.sess_t sess) (draw_resample draws k) v.

Definition SGHMC_xi (self : SGHMC.t) (draws : Draws) (k i : nat) : R :=
  gaussian (2 * (SGHMC.alpha self - SGHMC.beta self) * SGHMC.lr self)
           (draw_noise draws k i).

(** Where the gradient is taken: at the values themselves for the first
    order, at the half-step positions for the second order. *)
Definition SGHMC_points (self : SGHMC.t) (sess : tf.Session) (draws : Draws)
    (qvs vvs : list tf.ndarray) : list tf.ndarray :=
  if SGHMC.second_order self
  then map (fun '(k, (q, v)) => half_step q (SGHMC_old_v self sess draws k v))
           (enumerate 0 (combine qvs vvs))
  else qvs.

Definition SGHMC_new_v (self : SGHMC.t) (sess : tf.Session) (draws : Draws)
    (k : nat) (v g : tf.ndarray) : tf.ndarray :=
  let old_v := SGHMC_old_v self sess draws k v in
  if SGHMC.second_order self
  then second_order_v (fun _ => SGHMC.alpha self) (SGHMC.lr self)
         (SGHMC_xi self draws k) old_v g
  else first_order_v (fun _ => SGHMC.alpha self) (SGHMC.lr self)
         (SGHMC_xi self draws k) old_v g.

Definition SGHMC_new_q (self : SGHMC.t) (sess : tf.Session) (draws : Draws)
    (k : nat) (q v g : tf.ndarray) : tf.ndarray :=
  let old_v := SGHMC_old_v self sess draws k v in
  let new_v := SGHMC_new_v self sess draws k v g in
  if SGHMC.second_order self
  then second_order_q (half_step q old_v) new_v
  else first_order_q q new_v.

(** *** SGNHT *)

(** The kinetic energy the friction is compared with: element by element
    with a vector friction, averaged over the elements with a scalar one. *)
Definition kinetic (vector : bool) (v : tf.ndarray) (i : nat) : R :=
  if vector then tf.item v i ^ 2
  else tf.mean (tf.shape_of v) (fun j => tf.item v j ^ 2).


(** The shape of the friction of a latent variable of value [q]. *)
Definition friction_shape (vector : bool) (q : tf.ndarray) : tf.TensorShape :=
  if vector then tf.shape_of q else tf.Rank0.

Definition friction_shapes (vector : bool) (qvs avs : list tf.ndarray) : Prop :=
  Forall2 (fun q a => tf.shape_of a = friction_shape vector q) qvs avs.

Definition SGNHT_old_v (self : SGNHT.t) (sess : tf.Session) (draws : Draws)
    (k : nat) (v : tf.ndarray) : tf.ndarray :=
  momentum_used (SGNHT.lr self) (SGNHT.n_iter_resample_v self)
    (tf.sess_t sess) (draw_resample draws k) v.

Definition SGNHT_xi (self : SGNHT.t) (draws : Draws) (k i : nat) : R :=
  gaussian (2 * SGNHT.a self * SGNHT.lr self) (draw_noise draws k i).

Definition SGNHT_points (self : SGNHT.t) (sess : tf.Session) (draws : Draws)
    (qvs vvs : list tf.ndarray) : list tf.ndarray :=
  if SGNHT.second_order self
  then map (fun '(k, (q, v)) => half_step q (SGNHT_old_v self sess draws k v))
           (enumerate 0 (combine qvs vvs))
  else qvs.

(** The friction after the first half of a second-order step, from the
    kinetic energy of the momentum the step starts from. *)
Definition SGNHT_alpha_half (self : SGNHT.t) (alpha old_v : tf.ndarray)
  : tf.ndarray :=
  tf.pointwise (tf.shape_of alpha)
    (fun i => tf.item alpha i
              + 0.5 * SGNHT.tune_rate self
                * (kinetic (SGNHT.use_vector_alpha self) old_v i
                   - SGNHT.lr self)).

Definition SGNHT_new_v (self : SGNHT.t) (sess : tf.Session) (draws : Draws)
    (k : nat) (v alpha g : tf.ndarray) : tf.ndarray :=
  let old_v := SGNHT_old_v self sess draws k v in
  if SGNHT.second_order self
  then second_order_v (tf.item (SGNHT_alpha_half self alpha old_v))
         (SGNHT.lr self) (SGNHT_xi self draws k) old_v g
  else first_order_v (tf.item alpha) (SGNHT.lr self)
         (SGNHT_xi self draws k) old_v g.

Definition SGNHT_new_q (self : SGNHT.t) (sess : tf.Session) (draws : Draws)
    (k : nat) (q v alpha g : tf.ndarray) : tf.ndarray :=
  let old_v := SGNHT_old_v self sess draws k v in
  let new_v := SGNHT_new_v self sess draws k v alpha g in
  if SGNHT.second_order self
  then second_order_q (half_step q old_v) new_v
  else first_order_q q new_v.

Definition SGNHT_new_alpha (self : SGNHT.t) (sess : tf.Session)
    (draws : Draws) (k : nat) (v alpha g : tf.ndarray) : tf.ndarray :=
  let old_v := SGNHT_old_v self sess draws k v in
  let new_v := SGNHT_new_v self sess draws k v alpha g in
  if SGNHT.second_order self
  then tf.pointwise (tf.shape_of alpha)
         (fun i => tf.item (SGNHT_alpha_half self alpha old_v) i
                   + 0.5 * SGNHT.tune_rate self
                     * (kinetic (SGNHT.use_vector_alpha self) new_v i
                        - SGNHT.lr self))
  else tf.pointwise (tf.shape_of alpha)
         (fun i => tf.item alpha i
                   + SGNHT.tune_rate self
                     * (kinetic (SGNHT.use_vector_alpha self) new_v i
                        - SGNHT.lr self)).

(** *** The quadratic scenario

    One latent variable of one element, [log_joint(q) = -0.5*q^2], whose
    gradient is [-q], starting at [q = 10]. *)

Definition log_joint_quadratic (q : R) : R := -0.5 * q ^ 2.

Definition grad_quadratic (qs : list (option tf.ndarray))
  : list (option tf.ndarray) :=
  map (tf.unary (fun q => - q)) qs.

(** Draws that are all zero. *)
Definition zero_draws : Draws :=
  mkDraws (fun _ _ => 0) (fun _ _ => 0) (fun _ _ => 0).

Definition quadratic_session : tf.Session :=
  tf.mkSession 0
    (fun x => match x with
              | tf.user_var 0 => Some (tf.Dense [10])
              | _ => None
              end).

(** *** Initial values of the samplers' Variables *)

(** The initial momenta of an SGHMC or SGNHT sampler. *)
Definition initial_momenta (eta : R) (draws0 : Draws) (qvs : list tf.ndarray)
  : list tf.ndarray :=
  map (fun '(k, qv) =>
         tf.pointwise (tf.shape_of qv)
           (fun i => draw_init draws0 k i * sqrt eta + 0))
      (enumerate 0 qvs).

(** The initial friction of a latent variable of value [qv]. *)
Definition initial_friction (self : SGNHT.t) (qv : tf.ndarray) : tf.ndarray :=
  if SGNHT.use_vector_alpha self
  then tf.pointwise (tf.shape_of qv) (fun _ => SGNHT.a self * 1)
  else tf.Scalar (SGNHT.a self).

(** *** A scenario with a failing gradient *)


(** Two latent variables at 10, with accumulators at 0. *)
Definition two_latents_session : tf.Session :=
  tf.mkSession 0
    (fun x => match x with
              | tf.user_var 0 | tf.user_var 1 => Some (tf.Dense [10])
              | tf.vs_var 0 | tf.vs_var 1 => Some (tf.Dense [0])
              | _ => None
              end).


(** *** Vocabulary of the further properties *)

(** An assignment to one of the Variables [targets]. *)
Definition assigns_to (targets : list tf.Var) (n : tf.Node) : Prop :=
  match n with
  | tf.Assign ref _ _ _ => In ref targets
  | tf.AssignAdd_t _ => False
  end.

(** A tensor without negative elements. *)
Definition nonnegative (a : tf.ndarray) : Prop :=
  forall i, (i < tf.numel (tf.shape_of a))%nat -> 0 <= tf.item a i.



(** *** The attributes of a sampler object and the property [bn]

    [make_grad_func] as a method: besides returning its results it stores
    attributes in [self], four of them before it validates the latent
    mapping.  A MetaBayesianNet comes from outside this file: it is a value of
    a type [M] with its method [observe], the method [log_joint] of the net
    [observe] returns, and its truth value. *)

Section Attributes.
Variables (M BayesianNet : Type).
Variable observe : M -> list (string * PyObject) -> BayesianNet.
Variable log_joint : BayesianNet -> option tf.ndarray.
Variable truth_value : M -> bool.
Variable merge_dicts :
  forall V : Type, list (string * V) -> list (string * V) -> list (string * V).
Variable gradients : (list (option tf.ndarray) -> option tf.ndarray) ->
                     list (option tf.ndarray) -> list (option tf.ndarray).

(** The first argument of [make_grad_func]: something callable, or a
    MetaBayesianNet. *)
Inductive meta_bn_argument : Type :=
| Callable (f : list (string * option tf.ndarray) -> option tf.ndarray)
| Instance (m : M).

(** A dictionary of tensors as a dictionary of objects. *)
Definition as_objects (d : list (string * option tf.ndarray))
  : list (string * PyObject) :=
  map (fun '(k, a) => (k, TfTensor a)) d.

Definition as_MetaBN (meta_bn : meta_bn_argument) : MetaBN :=
  match meta_bn with
  | Callable f => LogJointFunction f
  | Instance m =>
      MetaBayesianNet (fun obs => log_joint (observe m (as_objects obs)))
  end.

(** The attributes of [self]; [None] for an attribute that has not been
    set.  [_meta_bn] is set to Python's [None] ([Some None]) when the
    argument is callable. *)
Record Object : Type := mkObject {
  _meta_bn : option (option M);
  _log_joint : option (list (string * option tf.ndarray) -> option tf.ndarray);
  _observed : option (list (string * option tf.ndarray));
  _latent : option (list (string * PyObject));
  _bound : option Bound;
  _bn : option BayesianNet
}.

(** The object [SGMCMC.__init__] leaves (the counter [t] lives in the
    session). *)
Definition new_object : Object := mkObject None None None None None None.

(** The method [make_grad_func]: the state of [self] afterwards, and the
    exception or the result. *)
Definition make_grad_func_method (self : Object) (meta_bn : meta_bn_argument)
    (observed : list (string * option tf.ndarray))
    (latent : list (string * PyObject))
  : Object *
    (Exception +
     ((list (option tf.ndarray) -> list (option tf.ndarray))
      * (list (option tf.ndarray) -> list (string * option tf.ndarray) ->
         list (option tf.ndarray))
      * list PyObject)) :=
  let self :=
    match meta_bn with
    | Callable f =>
        mkObject (Some None) (Some f)
          (_observed self) (_latent self) (_bound self) (_bn self)
    | Instance m =>
        mkObject (Some (Some m))
          (Some (fun obs => log_joint (observe m (as_objects obs))))
          (_observed self) (_latent self) (_bound self) (_bn self)
    end in
  let self := mkObject (_meta_bn self) (_log_joint self) (Some observed)
                (Some latent) (_bound self) (_bn self) in
  match make_grad_func (merge_dicts (option tf.ndarray)) gradients
          (as_MetaBN meta_bn) observed latent with
  | inl e => (self, inl e)
  | inr (bound, results) =>
      (mkObject (_meta_bn self) (_log_joint self) (_observed self)
         (_latent self) (Some bound) (_bn self),
       inr results)
  end.

(** The property [bn]: the state of [self] afterwards, and the value
    returned; the outer [None] stands for the AttributeError of reading an
    attribute that has not been set. *)
Definition bn (self : Object) : Object * option (option BayesianNet) :=
  match _meta_bn self with
  | Some meta_bn =>
      if match meta_bn with Some m => truth_value m | None => false end
      then
        match _bn self with
        | Some b => (self, Some (Some b))
        | None =>
            match meta_bn, _latent self, _observed self with
            | Some m, Some latent, Some observed =>
                let b := observe m (merge_dicts PyObject latent
                                      (as_objects observed)) in
                (mkObject (_meta_bn self) (_log_joint self) (_observed self)
                   (_latent self) (_bound self) (Some b),
                 Some (Some b))
            | _, _, _ => (self, None)
            end
        end
      else (self, Some None)
  | None => (self, Some None)
  end.
End Attributes.

(** The tensor [q] with every element multiplied by [c]. *)
Definition scaled (c : R) (q : tf.ndarray) : tf.ndarray :=
  tf.pointwise (tf.shape_of q) (fun i => c * tf.item q i).


(* ================================================================== *)
(** ** Tensor arithmetic, element by element *)
(* ================================================================== *)

Section TensorLemmas.
Import tf.

Lemma shape_eqb_refl sh : shape_eqb sh sh = true.
Proof. destruct sh; simpl; auto using Nat.eqb_refl. Qed.

Lemma shape_eqb_eq sh1 sh2 : shape_eqb sh1 sh2 = true <-> sh1 = sh2.
Proof.
  destruct sh1, sh2; simpl; split; intro E; try congruence.
  - apply Nat.eqb_eq in E. congruence.
  - inversion E. apply Nat.eqb_refl.
Qed.

Lemma shape_of_pointwise sh f : shape_of (pointwise sh f) = sh.
Proof. destruct sh; simpl; [reflexivity|]. now rewrite length_map, length_seq. Qed.

Lemma size_numel a : size a = numel (shape_of a).
Proof. now destruct a. Qed.

Lemma nth_map_seq (f : nat -> R) n i :
  (i < n)%nat -> nth i (map f (seq 0 n)) 0 = f i.
Proof.
  intro Hi.
  rewrite (nth_indep _ 0 (f 0%nat)) by now rewrite length_map, length_seq.
  rewrite (map_nth f), seq_nth by assumption. reflexivity.
Qed.

Lemma item_pointwise sh f i :
  (i < numel sh)%nat -> item (pointwise sh f) i = f i.
Proof.
  destruct sh as [|n]; simpl; intro Hi.
  - replace i with 0%nat by lia. reflexivity.
  - now apply nth_map_seq.
Qed.

Lemma pointwise_ext sh f g :
  (forall i, (i < numel sh)%nat -> f i = g i) ->
  pointwise sh f = pointwise sh g.
Proof.
  destruct sh as [|n]; simpl; intro E.
  - f_equal. apply E. lia.
  - f_equal. apply map_ext_in. intros i Hi. apply in_seq in Hi.
    apply E. lia.
Qed.

Lemma as_pointwise a : a = pointwise (shape_of a) (item a).
Proof.
  destruct a as [x|xs]; simpl; [reflexivity|]. f_equal.
  apply nth_ext with (d := 0) (d' := 0).
  - now rewrite length_map, length_seq.
  - intros i Hi. now rewrite nth_map_seq.
Qed.

Lemma zip_with_map f u v (l : list nat) :
  zip_with f (map u l) (map v l) = map (fun i => f (u i) (v i)) l.
Proof. induction l; simpl; congruence. Qed.

Lemma binary_pointwise f sh u v :
  binary f (Some (pointwise sh u)) (Some (pointwise sh v))
  = Some (pointwise sh (fun i => f (u i) (v i))).
Proof.
  destruct sh as [|n]; simpl; [reflexivity|].
  rewrite !length_map, Nat.eqb_refl. now rewrite zip_with_map.
Qed.

Lemma binary_scalars f c d :
  binary f (Some (Scalar c)) (Some (Scalar d)) = Some (Scalar (f c d)).
Proof. reflexivity. Qed.

Lemma Some_as_pointwise a sh :
  shape_of a = sh -> Some a = Some (pointwise sh (item a)).
Proof. intros <-. f_equal. apply as_pointwise. Qed.

Lemma binary_scalar_l f c sh v :
  binary f (Some (Scalar c)) (Some (pointwise sh v))
  = Some (pointwise sh (fun i => f c (v i))).
Proof. destruct sh; simpl; [reflexivity|]. now rewrite map_map. Qed.

Lemma binary_scalar_r f c sh u :
  binary f (Some (pointwise sh u)) (Some (Scalar c))
  = Some (pointwise sh (fun i => f (u i) c)).
Proof. destruct sh; simpl; [reflexivity|]. now rewrite map_map. Qed.

Lemma unary_pointwise f sh u :
  unary f (Some (pointwise sh u)) = Some (pointwise sh (fun i => f (u i))).
Proof. destruct sh; simpl; [reflexivity|]. now rewrite map_map. Qed.

Lemma unary_scalar f c : unary f (Some (Scalar c)) = Some (Scalar (f c)).
Proof. reflexivity. Qed.

Lemma shape_pointwise sh u : shape (Some (pointwise sh u)) = Some sh.
Proof. simpl. now rewrite shape_of_pointwise. Qed.

Lemma random_standard_normal_pointwise sh draw :
  random_standard_normal (Some sh) draw = Some (pointwise sh draw).
Proof. now destruct sh. Qed.

Lemma validate_shape_pointwise sh u v :
  validate_shape (Some (pointwise sh u)) (Some (pointwise sh v))
  = Some (pointwise sh v).
Proof.
  unfold validate_shape. now rewrite !shape_of_pointwise, shape_eqb_refl.
Qed.

Lemma reduce_mean_pointwise sh u :
  reduce_mean (Some (pointwise sh u)) = Some (Scalar (mean sh u)).
Proof.
  destruct sh as [|n]; simpl; [reflexivity|].
  now rewrite length_map, length_seq.
Qed.

(** A normal tensor of standard deviation [s]: [s] times the draw. *)
Lemma random_normal_pointwise sh s draw :
  random_normal (Some sh) (Some (Scalar s)) draw
  = Some (pointwise sh (fun i => draw i * s + 0)).
Proof.
  unfold random_normal, add, multiply, constant.
  now rewrite random_standard_normal_pointwise, binary_scalar_r, binary_scalar_r.
Qed.

Lemma random_normal_pointwise_stddev sh s draw :
  random_normal (Some sh) (Some (pointwise sh s)) draw
  = Some (pointwise sh (fun i => draw i * s i + 0)).
Proof.
  unfold random_normal, add, multiply, constant.
  now rewrite random_standard_normal_pointwise, binary_pointwise, binary_scalar_r.
Qed.
End TensorLemmas.

Create Rewrite HintDb tensor.
#[global] Hint Rewrite
  binary_scalars binary_pointwise binary_scalar_l binary_scalar_r unary_pointwise unary_scalar
  shape_pointwise validate_shape_pointwise reduce_mean_pointwise
  random_normal_pointwise random_normal_pointwise_stddev : tensor.

(** Unfold the TensorFlow operators and compute on element-wise forms. *)
Ltac tensor_simpl :=
  unfold tf.add, tf.subtract, tf.multiply, tf.divide, tf.square, tf.sqrt,
    tf.exp, tf.constant, tf.zeros_like, tf.cond in *;
  autorewrite with tensor.

(* ================================================================== *)
(** ** Lists of per-variable tensors, position by position *)
(* ================================================================== *)

Section ListLemmas.
Context {A B : Type}.

Lemma combine_indexed {C : Type} (F : C -> A) (G : C -> B) (l : list C) :
  combine (map F l) (map G l) = map (fun k => (F k, G k)) l.
Proof. induction l; simpl; congruence. Qed.

Lemma enumerate_indexed (F : nat -> A) a n :
  enumerate a (map F (seq a n)) = map (fun k => (k, F k)) (seq a n).
Proof. revert a; induction n; intro a; simpl; [reflexivity|]. now rewrite IHn. Qed.

Lemma enumerate_seq (l : list A) a :
  map fst (enumerate a l) = seq a (length l).
Proof. revert a; induction l; intro a0; simpl; [reflexivity|]. now rewrite IHl. Qed.

Lemma as_indexed (d : A) (l : list A) :
  l = map (fun k => nth k l d) (seq 0 (length l)).
Proof.
  apply nth_ext with (d := d) (d' := d).
  - now rewrite length_map, length_seq.
  - intros i Hi.
    rewrite (nth_indep (map _ _) d (nth 0 l d))
      by now rewrite length_map, length_seq.
    rewrite (map_nth (fun k => nth k l d)), seq_nth by assumption.
    reflexivity.
Qed.

Lemma concat_singletons (F : nat -> A) (l : list nat) :
  concat (map (fun k => [F k]) l) = map F l.
Proof. induction l; simpl; congruence. Qed.
End ListLemmas.

Lemma new_variables_indexed mk qs :
  new_variables mk qs = map mk (seq 0 (length qs)).
Proof.
  unfold new_variables. rewrite <- (enumerate_seq qs 0), map_map. reflexivity.
Qed.

(* ================================================================== *)
(** ** What a run leaves in the session *)
(* ================================================================== *)

Section SessionLemmas.
Import tf.

Lemma Var_eqb_eq x y : Var_eqb x y = true <-> x = y.
Proof.
  destruct x, y; simpl; split; intro E; try congruence;
    try (apply Nat.eqb_eq in E; congruence);
    inversion E; apply Nat.eqb_refl.
Qed.

Lemma Var_eqb_refl x : Var_eqb x x = true.
Proof. now apply Var_eqb_eq. Qed.

Lemma Var_eqb_neq x y : x <> y -> Var_eqb x y = false.
Proof.
  intro N. destruct (Var_eqb x y) eqn:E; [|reflexivity].
  apply Var_eqb_eq in E. contradiction.
Qed.

Lemma commit_all_app ops1 ops2 s :
  commit_all (ops1 ++ ops2) s = commit_all ops2 (commit_all ops1 s).
Proof. apply fold_left_app. Qed.

Lemma commit_value o s x :
  sess_value (commit s o) x
  = match written [o] x with Some a => Some a | None => sess_value s x end.
Proof.
  destruct o as [ref [a|] ctl aft | d]; simpl; try reflexivity.
  destruct (Var_eqb ref x); reflexivity.
Qed.

Lemma commit_all_value ops : forall s x,
  sess_value (commit_all ops s) x
  = match written ops x with Some a => Some a | None => sess_value s x end.
Proof.
  induction ops as [|o ops IH]; intros s x; [reflexivity|].
  change (commit_all (o :: ops) s) with (commit_all ops (commit s o)).
  rewrite IH. simpl. destruct (written ops x); [reflexivity|].
  rewrite commit_value. simpl. reflexivity.
Qed.

Lemma written_none ops x :
  (forall o, In o ops -> writes o x = false) -> written ops x = None.
Proof.
  induction ops as [|o ops IH]; intro Hw; [reflexivity|]. simpl.
  rewrite IH by (intros; apply Hw; now right).
  specialize (Hw o (or_introl eq_refl)).
  destruct o as [ref [a|] ctl aft | d]; simpl in *; try reflexivity.
  now rewrite Hw.
Qed.

(** If all the nodes that write [x] carry the same value, that value is
    what the run leaves in [x]. *)
Lemma written_unique ops x a :
  (exists o, In o ops /\ writes o x = true) ->
  (forall ref v ctl aft,
      In (Assign ref v ctl aft) ops -> ref = x -> v = Some a) ->
  written ops x = Some a.
Proof.
  induction ops as [|o ops IH]; intros [w [Hin Hw]] Hall; [destruct Hin|].
  simpl.
  destruct (existsb (fun o => writes o x) ops) eqn:Ex.
  - apply existsb_exists in Ex. rewrite IH; [reflexivity|exact Ex|].
    intros; eapply Hall; [right|]; eassumption.
  - assert (written ops x = None) as ->.
    { apply written_none. intros o' Ho'.
      destruct (writes o' x) eqn:Ew; [|reflexivity].
      assert (existsb (fun o => writes o x) ops = true)
        by (apply existsb_exists; eauto).
      congruence. }
    destruct Hin as [<- | Hin].
    + destruct o as [ref v ctl aft | d]; simpl in Hw; [|discriminate].
      apply Var_eqb_eq in Hw. subst ref.
      rewrite (Hall x v ctl aft (or_introl eq_refl) eq_refl).
      now rewrite Var_eqb_refl.
    + assert (existsb (fun o => writes o x) ops = true)
        by (apply existsb_exists; eauto).
      congruence.
Qed.

Lemma commit_all_t_Assign ops : forall s,
  Forall (fun o => match o with Assign _ _ _ _ => True | _ => False end) ops ->
  sess_t (commit_all ops s) = sess_t s.
Proof.
  induction ops as [|o ops IH]; intros s Hf; [reflexivity|].
  inversion Hf as [|? ? Ho Hops]; subst.
  change (commit_all (o :: ops) s) with (commit_all ops (commit s o)).
  rewrite IH by assumption.
  destruct o as [ref [a|] ctl aft | d]; simpl; tauto.
Qed.
End SessionLemmas.

Section RunLemmas.
Import tf.

Lemma evaluated_assign_runnable ops :
  Forall evaluated_assign ops -> forallb runnable ops = true.
Proof.
  intro Hf. apply forallb_forall. intros o Ho.
  rewrite Forall_forall in Hf. specialize (Hf o Ho).
  destruct o as [ref [a|] ctl aft | d]; simpl in *; tauto.
Qed.

Lemma evaluated_assign_is_assign ops :
  Forall evaluated_assign ops ->
  Forall (fun o => match o with Assign _ _ _ _ => True | _ => False end) ops.
Proof.
  apply Forall_impl. intros [ref [a|] ctl aft | d]; simpl; tauto.
Qed.

(** The sampling operation, when all its assignments can execute: the
    counter advances by one and every Variable holds what was written to
    it. *)
Lemma run_sample_op (update_ops : Operation) s :
  Forall evaluated_assign update_ops ->
  exists s',
    Session_run (AssignAdd_t 1 :: update_ops) s = Some s'
    /\ sess_t s' = int32 (sess_t s + 1)
    /\ forall x, sess_value s' x
                 = match written update_ops x with
                   | Some a => Some a
                   | None => sess_value s x
                   end.
Proof.
  intro Hf. unfold Session_run.
  change (forallb runnable (AssignAdd_t 1 :: update_ops))
    with (forallb runnable update_ops).
  rewrite evaluated_assign_runnable by assumption.
  eexists; split; [reflexivity|].
  change (commit_all (AssignAdd_t 1 :: update_ops) s)
    with (commit_all update_ops (commit s (AssignAdd_t 1))).
  split.
  - rewrite commit_all_t_Assign by now apply evaluated_assign_is_assign.
    reflexivity.
  - intro x. rewrite commit_all_value. reflexivity.
Qed.
End RunLemmas.

Lemma unzip3_nonempty {A B C : Type} (rows : list (A * B * C)) :
  rows <> [] ->
  unzip3 rows = Some (map (fun r => fst (fst r)) rows,
                      map (fun r => snd (fst r)) rows,
                      map (fun r => snd r) rows).
Proof. destruct rows; [congruence|reflexivity]. Qed.

Lemma same_shapes_nth l1 l2 k d1 d2 :
  same_shapes l1 l2 -> (k < length l1)%nat ->
  tf.shape_of (nth k l2 d2) = tf.shape_of (nth k l1 d1).
Proof.
  intro Hs. revert k. induction Hs as [|a b l1 l2 Hab Hs IH]; intros k Hk.
  - simpl in Hk. lia.
  - destruct k as [|k]; simpl; [assumption|]. apply IH. simpl in Hk. lia.
Qed.

Section SGLD_rule.
Import tf.
Variable self : SGLD.t.
Variable sess : Session.
Variable draws : Draws.

Lemma SGLD_update_single draw q qv g :
  sess_value sess q = Some qv ->
  shape_of g = shape_of qv ->
  SGLD._update_single self sess draw q (Some g)
  = ([Assign q (Some (SGLD_new_q self draw qv g)) [] []],
     Some (SGLD_new_q self draw qv g), StringInfo "No info.").
Proof.
  intros Hq Hg. unfold SGLD._update_single. rewrite Hq.
  rewrite (Some_as_pointwise qv _ eq_refl), (Some_as_pointwise g _ Hg).
  assert (forall f,
             (forall i, f i = item qv i + 0.5 * SGLD.lr self * item g i
                              + (if SGLD.add_noise self
                                 then gaussian (SGLD.lr self) (draw i)
                                 else 0)) ->
             pointwise (shape_of qv) f = SGLD_new_q self draw qv g) as E.
  { intros f Hf. apply pointwise_ext. intros i _. apply Hf. }
  destruct (SGLD.add_noise self) eqn:En; tensor_simpl;
    rewrite (E _); try reflexivity; intro i; unfold gaussian; lra.
Qed.

Lemma holds_length xs vals : holds sess xs vals -> length vals = length xs.
Proof.
  intro Hh. apply (f_equal (@length _)) in Hh.
  now rewrite !length_map in Hh.
Qed.

Lemma holds_nth xs vals k d a :
  holds sess xs vals -> (k < length xs)%nat ->
  sess_value sess (nth k xs d) = Some (nth k vals a).
Proof.
  intros Hh Hk.
  pose proof (holds_length _ _ Hh) as Hl.
  apply (f_equal (fun l => nth k l None)) in Hh.
  rewrite (nth_indep _ None (sess_value sess d)) in Hh
    by now rewrite length_map.
  rewrite (map_nth (sess_value sess)) in Hh. rewrite Hh.
  rewrite (nth_indep _ None (Some a)) by (rewrite length_map; lia).
  now rewrite (map_nth Some).
Qed.

Lemma SGLD_iteration qs qvs gs latent_k grad_func :
  NoDup qs -> qs <> [] ->
  holds sess qs qvs ->
  grad_func (map Some qvs) = map Some gs ->
  same_shapes qvs gs ->
  exists sess',
    iteration self qs latent_k grad_func draws sess = Some sess'
    /\ sess_t sess' = int32 (sess_t sess + 1)
    /\ (forall k q qv g,
          nth_error qs k = Some q -> nth_error qvs k = Some qv ->
          nth_error gs k = Some g ->
          sess_value sess' q
          = Some (SGLD_new_q self (draw_noise draws k) qv g))
    /\ (forall x, ~ In x qs -> sess_value sess' x = sess_value sess x).
Proof.
  intros Hnd Hne Hq Hg Hsh.
  pose proof (holds_length _ _ Hq) as Hlq.
  pose proof (Forall2_length Hsh) as Hlg.
  unfold iteration, sample. cbn [_update SGLD.SGLD_Subclass].
  unfold SGLD._update. rewrite Hq, Hg.
  set (n := length qs) in *.
  set (Q := fun k => nth k qs (user_var 0)).
  set (QV := fun k => nth k qvs (Scalar 0)).
  set (G := fun k => nth k gs (Scalar 0)).
  assert (EG : map Some gs = map (fun k => Some (G k)) (seq 0 n)).
  { unfold G. rewrite <- (map_map (fun k => nth k gs (Scalar 0)) Some).
    f_equal. rewrite <- Hlq, Hlg. apply as_indexed. }
  assert (EC : combine qs (map Some gs)
               = map (fun k => (Q k, Some (G k))) (seq 0 n)).
  { rewrite <- combine_indexed, <- EG. f_equal. apply as_indexed. }
  rewrite EC, enumerate_indexed, map_map.
  rewrite (map_ext_in _
    (fun k => ([Assign (Q k) (Some (SGLD_new_q self (draw_noise draws k) (QV k) (G k))) [] []],
               Some (SGLD_new_q self (draw_noise draws k) (QV k) (G k)),
               StringInfo "No info."))).
  2:{ intros k Hk. apply in_seq in Hk. apply SGLD_update_single.
      - apply holds_nth; [assumption|lia].
      - apply same_shapes_nth; [assumption|lia]. }
  destruct n as [|n'] eqn:En.
  { destruct qs; [congruence|discriminate]. }
  rewrite <- En in *. 
  rewrite unzip3_nonempty by (rewrite En; discriminate).
  rewrite !map_map. cbn [fst snd]. unfold group.
  rewrite concat_singletons.
  set (NEW := fun k => SGLD_new_q self (draw_noise draws k) (QV k) (G k)).
  set (ops := map (fun k => Assign (Q k) (Some (NEW k)) [] []) (seq 0 n)).
  destruct (run_sample_op ops sess) as [s' [Hrun [Ht Hv]]].
  { apply Forall_forall. intros o Ho. apply in_map_iff in Ho.
    destruct Ho as [k [<- _]]. reflexivity. }
  exists s'. split; [exact Hrun|]. split; [exact Ht|]. split.
  - intros k q qv g Hk Hqv Hgk. rewrite Hv.
    assert (k < n)%nat as Hkn by (apply nth_error_Some; congruence).
    assert (Q k = q) as HQ by (apply nth_error_nth; assumption).
    assert (QV k = qv) as HQV by (apply nth_error_nth; assumption).
    assert (G k = g) as HG by (apply nth_error_nth; assumption).
    rewrite (written_unique ops q (NEW k)).
    + unfold NEW. now rewrite HQV, HG.
    + exists (Assign (Q k) (Some (NEW k)) [] []). split.
      * apply in_map_iff. exists k. split; [reflexivity|].
        apply in_seq. lia.
      * simpl. rewrite HQ. apply Var_eqb_refl.
    + intros ref v ctl aft Hin Href. apply in_map_iff in Hin.
      destruct Hin as [k' [E Hk']]. apply in_seq in Hk'.
      inversion E; subst ref v ctl aft.
      assert (k' = k) as ->; [|reflexivity].
      apply (proj1 (NoDup_nth qs (user_var 0)) Hnd); try lia.
      fold (Q k') (Q k). congruence.
  - intros x Hx. rewrite Hv, written_none; [reflexivity|].
    intros o Ho. apply in_map_iff in Ho. destruct Ho as [k [<- Hk]].
    apply in_seq in Hk. simpl. apply Var_eqb_neq. intros <-.
    apply Hx. apply nth_In. lia.
Qed.
End SGLD_rule.

Lemma in_concat_rows {A : Type} (row : nat -> list A) n (o : A) :
  In o (concat (map row (seq 0 n))) <-> exists k, (k < n)%nat /\ In o (row k).
Proof.
  rewrite in_concat. split.
  - intros [l [Hl Ho]]. apply in_map_iff in Hl. destruct Hl as [k [<- Hk]].
    apply in_seq in Hk. exists k. split; [lia|assumption].
  - intros [k [Hk Ho]]. exists (row k). split; [|assumption].
    apply in_map_iff. exists k. split; [reflexivity|]. apply in_seq. lia.
Qed.

Section PSGLD_rule.
Import tf.
Variable self : PSGLD.t.
Variable sess : Session.
Variable draws : Draws.

Lemma PSGLD_update_single draw q qv g aux av :
  sess_value sess q = Some qv ->
  sess_value sess aux = Some av ->
  shape_of av = shape_of qv ->
  shape_of g = shape_of qv ->
  PSGLD._update_single self sess draw q (Some g) aux
  = ([Assign aux (Some (PSGLD_new_aux self av g)) [] [];
      Assign q (Some (PSGLD_new_q self draw qv g (PSGLD_new_aux self av g)))
             [] [aux]],
     Some (PSGLD_new_q self draw qv g (PSGLD_new_aux self av g)),
     StringInfo "No info.").
Proof.
  intros Hq Ha Hsa Hg.
  unfold PSGLD._update_single, PSGLD.RMSPreconditioner._get_preconditioner.
  rewrite Hq, Ha.
  rewrite (Some_as_pointwise qv _ eq_refl), (Some_as_pointwise g _ Hg),
    (Some_as_pointwise av _ Hsa).
  assert (PSGLD_new_aux self av g
          = pointwise (shape_of qv)
              (fun i => PSGLD.RMSPreconditioner.decay
                          (PSGLD.preconditioner_hparams self) * item av i
                        + (1 - PSGLD.RMSPreconditioner.decay
                                 (PSGLD.preconditioner_hparams self))
                          * item g i ^ 2)) as Eaux.
  { unfold PSGLD_new_aux. now rewrite Hsa. }
  assert (forall i, (i < numel (shape_of qv))%nat ->
            item (PSGLD_new_aux self av g) i
            = PSGLD.RMSPreconditioner.decay
                (PSGLD.preconditioner_hparams self) * item av i
              + (1 - PSGLD.RMSPreconditioner.decay
                       (PSGLD.preconditioner_hparams self))
                * item g i ^ 2) as Eitem.
  { intros i Hi. rewrite Eaux. now rewrite item_pointwise. }
  assert (forall f,
             (forall i, (i < numel (shape_of qv))%nat ->
                f i = item qv i
                      + 0.5 * PSGLD.lr self
                        * PSGLD_G self (PSGLD_new_aux self av g) i * item g i
                      + (if PSGLD.add_noise self
                         then gaussian
                                (PSGLD.lr self
                                 * PSGLD_G self (PSGLD_new_aux self av g) i)
                                (draw i)
                         else 0)) ->
             pointwise (shape_of qv) f
             = PSGLD_new_q self draw qv g (PSGLD_new_aux self av g)) as E.
  { intros f Hf. apply pointwise_ext. exact Hf. }
  destruct (PSGLD.add_noise self) eqn:En; tensor_simpl;
    rewrite <- Eaux; rewrite (E _); try reflexivity;
    intros i Hi; unfold PSGLD_G, gaussian; rewrite (Eitem i Hi); lra.
Qed.

Lemma PSGLD_iteration qs qvs avs gs latent_k grad_func :
  bound_latents qs -> qs <> [] ->
  holds sess qs qvs ->
  holds sess (new_variables vs_var qs) avs ->
  same_shapes qvs avs ->
  grad_func (map Some qvs) = map Some gs ->
  same_shapes qvs gs ->
  exists sess',
    iteration self qs latent_k grad_func draws sess = Some sess'
    /\ sess_t sess' = int32 (sess_t sess + 1)
    /\ (forall k q qv av g,
          nth_error qs k = Some q -> nth_error qvs k = Some qv ->
          nth_error avs k = Some av -> nth_error gs k = Some g ->
          sess_value sess' (vs_var k) = Some (PSGLD_new_aux self av g)
          /\ sess_value sess' q
             = Some (PSGLD_new_q self (draw_noise draws k) qv g
                       (PSGLD_new_aux self av g)))
    /\ (forall x, ~ In x qs -> ~ In x (new_variables vs_var qs) ->
                  sess_value sess' x = sess_value sess x).
Proof.
  intros [Hnd Huser] Hne Hq Ha Hsa Hg Hsh.
  pose proof (holds_length _ _ _ Hq) as Hlq.
  pose proof (Forall2_length Hsh) as Hlg.
  pose proof (Forall2_length Hsa) as Hla.
  unfold iteration, sample. cbn [_update PSGLD.PSGLD_Subclass].
  unfold PSGLD._update. rewrite Hq, Hg.
  rewrite new_variables_indexed in *.
  set (n := length qs) in *.
  set (Q := fun k => nth k qs (user_var 0)).
  set (QV := fun k => nth k qvs (Scalar 0)).
  set (AV := fun k => nth k avs (Scalar 0)).
  set (G := fun k => nth k gs (Scalar 0)).
  assert (EG : map Some gs = map (fun k => Some (G k)) (seq 0 n)).
  { unfold G. rewrite <- (map_map (fun k => nth k gs (Scalar 0)) Some).
    f_equal. rewrite <- Hlq, Hlg. apply as_indexed. }
  assert (EC : combine qs (combine (map Some gs) (map vs_var (seq 0 n)))
               = map (fun k => (Q k, (Some (G k), vs_var k))) (seq 0 n)).
  { rewrite EG, combine_indexed.
    rewrite <- (combine_indexed Q (fun k => (Some (G k), vs_var k))).
    f_equal. apply as_indexed. }
  rewrite EC, enumerate_indexed, map_map.
  set (AUX := fun k => PSGLD_new_aux self (AV k) (G k)).
  set (NEW := fun k => PSGLD_new_q self (draw_noise draws k) (QV k) (G k) (AUX k)).
  set (row := fun k => [Assign (vs_var k) (Some (AUX k)) [] [];
                        Assign (Q k) (Some (NEW k)) [] [vs_var k]]).
  rewrite (map_ext_in _
    (fun k => (row k, Some (NEW k), StringInfo "No info."))).
  2:{ intros k Hk. apply in_seq in Hk. apply PSGLD_update_single.
      - apply holds_nth; [assumption|lia].
      - unfold AV. 
        replace (vs_var k) with (nth k (map vs_var (seq 0 n)) (vs_var 0)).
        + apply holds_nth; [assumption|]. rewrite length_map, length_seq. lia.
        + rewrite (map_nth vs_var), seq_nth by lia. reflexivity.
      - apply same_shapes_nth; [assumption|lia].
      - apply same_shapes_nth; [assumption|lia]. }
  destruct n as [|n'] eqn:En.
  { destruct qs; [congruence|discriminate]. }
  rewrite <- En in *.
  rewrite unzip3_nonempty by (rewrite En; discriminate).
  rewrite !map_map. cbn [fst snd]. unfold group.
  set (ops := concat (map row (seq 0 n))).
  assert (Hrow : forall o, In o ops <->
            exists k, (k < n)%nat /\ In o (row k))
    by (intro o; apply in_concat_rows).
  assert (HQuser : forall k, (k < n)%nat -> is_user_var (Q k) = true).
  { intros k Hk. rewrite Forall_forall in Huser. apply Huser.
    apply nth_In. exact Hk. }
  destruct (run_sample_op ops sess) as [s' [Hrun [Ht Hv]]].
  { apply Forall_forall. intros o Ho. apply Hrow in Ho.
    destruct Ho as [k [_ [<- | [<- | []]]]]; reflexivity. }
  exists s'. split; [exact Hrun|]. split; [exact Ht|]. split.
  - intros k q qv av g Hk Hqv Hav Hgk. rewrite !Hv.
    assert (k < n)%nat as Hkn by (apply nth_error_Some; congruence).
    assert (Q k = q) as HQ by (apply nth_error_nth; assumption).
    assert (QV k = qv) as HQV by (apply nth_error_nth; assumption).
    assert (AV k = av) as HAV by (apply nth_error_nth; assumption).
    assert (G k = g) as HG by (apply nth_error_nth; assumption).
    split.
    + rewrite (written_unique ops (vs_var k) (AUX k)).
      * unfold AUX. now rewrite HAV, HG.
      * exists (Assign (vs_var k) (Some (AUX k)) [] []). split.
        -- apply Hrow. exists k. split; [exact Hkn|]. now left.
        -- simpl. apply Nat.eqb_refl.
      * intros ref v ctl aft Hin Href. apply Hrow in Hin.
        destruct Hin as [k' [Hk' [E | [E | []]]]];
          inversion E; subst ref v ctl aft.
        -- congruence.
        -- specialize (HQuser k' Hk'). rewrite H0 in HQuser. discriminate.
    + rewrite (written_unique ops q (NEW k)).
      * unfold NEW, AUX. now rewrite HQV, HAV, HG.
      * exists (Assign (Q k) (Some (NEW k)) [] [vs_var k]). split.
        -- apply Hrow. exists k. split; [exact Hkn|]. right. now left.
        -- simpl. rewrite HQ. apply Var_eqb_refl.
      * intros ref v ctl aft Hin Href. apply Hrow in Hin.
        destruct Hin as [k' [Hk' [E | [E | []]]]];
          inversion E; subst ref v ctl aft.
        -- specialize (HQuser k Hkn). rewrite HQ, <- H0 in HQuser.
           discriminate.
        -- assert (k' = k) as ->; [|reflexivity].
           apply (proj1 (NoDup_nth qs (user_var 0)) Hnd); try lia.
           fold (Q k') (Q k). congruence.
  - intros x Hx Hxv. rewrite Hv, written_none; [reflexivity|].
    intros o Ho. apply Hrow in Ho.
    destruct Ho as [k [Hk [<- | [<- | []]]]]; cbn [writes];
      apply Var_eqb_neq; intros <-.
    + apply Hxv. apply in_map. apply in_seq. lia.
    + apply Hx. apply nth_In. lia.
Qed.
End PSGLD_rule.

Ltac on_seq k Hk := apply map_ext_in; intros k Hk; apply in_seq in Hk.

(** Equality of two element-wise tensors of the same shape. *)
Ltac pointwise_eq :=
  try reflexivity;
  f_equal; apply pointwise_ext; intros ? ?;
  rewrite ?item_pointwise by assumption;
  try reflexivity; try lra.

Section Momentum.
Import tf.

Lemma maybe_resample_pointwise period sess eta draw sh vf :
  maybe_resample period sess
    (fun v => random_normal (shape v) (sqrt (constant eta)) draw)
    (Some (pointwise sh vf))
  = Some (pointwise sh
            (fun i => if resamples period (sess_t sess)
                      then gaussian eta (draw i) else vf i)).
Proof.
  unfold maybe_resample, resamples, cond.
  destruct (Z.eqb period 0); [reflexivity|].
  destruct (Z.eqb (sess_t sess mod period) 0); [|reflexivity].
  cbn [negb andb]. tensor_simpl. f_equal. apply pointwise_ext.
  intros i _. unfold gaussian. lra.
Qed.

Lemma momentum_used_shape eta period t draw v :
  shape_of (momentum_used eta period t draw v) = shape_of v.
Proof. apply shape_of_pointwise. Qed.

Lemma holds_new_variables sess mk n vals k a :
  holds sess (map mk (seq 0 n)) vals -> (k < n)%nat ->
  sess_value sess (mk k) = Some (nth k vals a).
Proof.
  intros Hh Hk.
  replace (mk k) with (nth k (map mk (seq 0 n)) (mk 0%nat)).
  - apply holds_nth; [assumption|]. rewrite length_map, length_seq. lia.
  - rewrite (map_nth mk), seq_nth by lia. reflexivity.
Qed.

(** The first-order update of one variable, on tensors. *)
Lemma first_order_row alpha eta xi qv ov g :
  shape_of ov = shape_of qv -> shape_of g = shape_of qv ->
  ((constant 1 - constant alpha) * Some ov + constant eta * Some g
   + Some (pointwise (shape_of ov) xi))%T
  = Some (first_order_v (fun _ => alpha) eta xi ov g)
  /\ (Some qv + Some (first_order_v (fun _ => alpha) eta xi ov g))%T
     = Some (first_order_q qv (first_order_v (fun _ => alpha) eta xi ov g)).
Proof.
  intros Ho Hg. unfold first_order_q, first_order_v.
  rewrite (Some_as_pointwise qv _ eq_refl), (Some_as_pointwise g _ Hg),
    (Some_as_pointwise ov _ Ho).
  rewrite ?shape_of_pointwise, Ho. tensor_simpl.
  split; pointwise_eq.
Qed.

(** The second-order update of one variable, on tensors. *)
Lemma half_step_row qv ov :
  shape_of ov = shape_of qv ->
  (Some qv + constant 0.5 * Some ov)%T = Some (half_step qv ov).
Proof.
  intros Ho. unfold half_step.
  rewrite (Some_as_pointwise qv _ eq_refl), (Some_as_pointwise ov _ Ho).
  rewrite ?shape_of_pointwise. tensor_simpl.
  pointwise_eq.
Qed.

Lemma second_order_row alpha eta xi q1 ov g :
  shape_of ov = shape_of q1 -> shape_of g = shape_of q1 ->
  (exp (constant (-0.5) * constant alpha)
   * (exp (constant (-0.5) * constant alpha) * Some ov
      + constant eta * Some g + Some (pointwise (shape_of ov) xi)))%T
  = Some (second_order_v (fun _ => alpha) eta xi ov g)
  /\ (Some q1 + constant 0.5 * Some (second_order_v (fun _ => alpha) eta xi ov g))%T
     = Some (second_order_q q1 (second_order_v (fun _ => alpha) eta xi ov g)).
Proof.
  intros Ho Hg. unfold second_order_q, second_order_v.
  rewrite (Some_as_pointwise q1 _ eq_refl), (Some_as_pointwise g _ Hg),
    (Some_as_pointwise ov _ Ho).
  rewrite ?shape_of_pointwise, Ho. tensor_simpl.
  split; pointwise_eq.
Qed.
End Momentum.

Lemma combine_as_indexed {A B : Type} (d : A) (l : list A) (F : nat -> B) :
  combine l (map F (seq 0 (length l)))
  = map (fun k => (nth k l d, F k)) (seq 0 (length l)).
Proof.
  rewrite <- (combine_indexed (fun k => nth k l d) F). f_equal. apply as_indexed.
Qed.

Lemma map_Some_indexed {A : Type} (d : A) (l : list A) n :
  length l = n -> map Some l = map (fun k => Some (nth k l d)) (seq 0 n).
Proof.
  intros <-. rewrite <- (map_map (fun k => nth k l d) Some). f_equal.
  apply as_indexed.
Qed.

Lemma combine_both_indexed {A B : Type} (da : A) (db : B) l1 l2 n :
  length l1 = n -> length l2 = n ->
  combine l1 l2 = map (fun k => (nth k l1 da, nth k l2 db)) (seq 0 n).
Proof.
  intros H1 H2.
  rewrite <- (combine_indexed (fun k => nth k l1 da) (fun k => nth k l2 db)).
  f_equal; [rewrite <- H1 | rewrite <- H2]; apply as_indexed.
Qed.

Lemma validate_shape_same c x :
  tf.shape_of x = tf.shape_of c ->
  tf.validate_shape (Some c) (Some x) = Some x.
Proof.
  intro E. unfold tf.validate_shape. rewrite E. now rewrite shape_eqb_refl.
Qed.

Section SGHMC_rule.
Import tf.
Variable self : SGHMC.t.
Variable sess : Session.
Variable draws : Draws.

Lemma SGHMC_old_vs n vvs :
  holds sess (map vs_var (seq 0 n)) vvs ->
  SGHMC.old_vs self draws sess (map vs_var (seq 0 n))
  = map (fun k => Some (SGHMC_old_v self sess draws k (nth k vvs (Scalar 0))))
        (seq 0 n).
Proof.
  intro Hv. unfold SGHMC.old_vs. rewrite enumerate_indexed, map_map.
  on_seq k Hk.
  rewrite (holds_new_variables _ _ _ _ _ (Scalar 0) Hv) by lia.
  unfold SGHMC.resample_momentum.
  rewrite (Some_as_pointwise (nth k vvs (Scalar 0)) _ eq_refl).
  apply maybe_resample_pointwise.
Qed.

Lemma SGHMC_gaussian_terms n (OV : nat -> ndarray) :
  SGHMC.gaussian_terms self draws (map (fun k => Some (OV k)) (seq 0 n))
  = map (fun k => Some (pointwise (shape_of (OV k)) (SGHMC_xi self draws k)))
        (seq 0 n).
Proof.
  unfold SGHMC.gaussian_terms. rewrite enumerate_indexed, map_map.
  on_seq k Hk. rewrite (Some_as_pointwise (OV k) _ eq_refl).
  tensor_simpl. unfold SGHMC_xi, gaussian. pointwise_eq.
Qed.

Lemma SGHMC_iteration qs qvs vvs gs latent_k grad_func :
  bound_latents qs ->
  holds sess qs qvs ->
  holds sess (new_variables vs_var qs) vvs ->
  same_shapes qvs vvs ->
  grad_func (map Some (SGHMC_points self sess draws qvs vvs)) = map Some gs ->
  same_shapes qvs gs ->
  exists sess',
    iteration self qs latent_k grad_func draws sess = Some sess'
    /\ sess_t sess' = int32 (sess_t sess + 1)
    /\ (forall k q qv vv g,
          nth_error qs k = Some q -> nth_error qvs k = Some qv ->
          nth_error vvs k = Some vv -> nth_error gs k = Some g ->
          sess_value sess' (vs_var k) = Some (SGHMC_new_v self sess draws k vv g)
          /\ sess_value sess' q = Some (SGHMC_new_q self sess draws k qv vv g))
    /\ (forall x, ~ In x qs -> ~ In x (new_variables vs_var qs) ->
                  sess_value sess' x = sess_value sess x).
Proof.
  intros [Hnd Huser] Hq Hv Hsv Hg Hsh.
  pose proof (holds_length _ _ _ Hq) as Hlq.
  pose proof (Forall2_length Hsh) as Hlg.
  pose proof (Forall2_length Hsv) as Hlv.
  unfold iteration, sample. cbn [_update SGHMC.SGHMC_Subclass].
  unfold SGHMC._update.
  rewrite new_variables_indexed in *.
  set (n := length qs) in *.
  set (Q := fun k => nth k qs (user_var 0)).
  set (QV := fun k => nth k qvs (Scalar 0)).
  set (VV := fun k => nth k vvs (Scalar 0)).
  set (G := fun k => nth k gs (Scalar 0)).
  set (OV := fun k => SGHMC_old_v self sess draws k (VV k)).
  set (NV := fun k => SGHMC_new_v self sess draws k (VV k) (G k)).
  set (NQ := fun k => SGHMC_new_q self sess draws k (QV k) (VV k) (G k)).
  rewrite (SGHMC_old_vs n vvs Hv). fold VV OV.
  rewrite SGHMC_gaussian_terms.
  assert (HOV : forall k, (k < n)%nat -> shape_of (OV k) = shape_of (QV k)).
  { intros k Hk. unfold OV, SGHMC_old_v. rewrite momentum_used_shape.
    apply same_shapes_nth; [assumption|lia]. }
  assert (HG : forall k, (k < n)%nat -> shape_of (G k) = shape_of (QV k)).
  { intros k Hk. apply same_shapes_nth; [assumption|lia]. }
  assert (HQ : forall k, (k < n)%nat -> sess_value sess (Q k) = Some (QV k)).
  { intros k Hk. apply holds_nth; assumption. }
  assert (Ebranch :
    (if negb (SGHMC.second_order self)
     then SGHMC.first_order_branch self sess qs
            (map (fun k => Some (OV k)) (seq 0 n))
            (map (fun k => Some (pointwise (shape_of (OV k))
                                   (SGHMC_xi self draws k))) (seq 0 n))
            grad_func
     else SGHMC.second_order_branch self sess qs
            (map (fun k => Some (OV k)) (seq 0 n))
            (map (fun k => Some (pointwise (shape_of (OV k))
                                   (SGHMC_xi self draws k))) (seq 0 n))
            grad_func)
    = (map (fun k => Some (NV k)) (seq 0 n),
       map (fun k => Some (NQ k)) (seq 0 n))).
  { revert Hg. unfold SGHMC_points, NV, NQ, SGHMC_new_q, SGHMC_new_v.
    destruct (SGHMC.second_order self); intro Hg;
      cbn [negb]; cbv beta iota zeta.
    - unfold SGHMC.second_order_branch.
      assert (Eq1 :
        map (fun '(q, old_v) => (sess_value sess q + constant 0.5 * old_v)%T)
            (combine qs (map (fun k => Some (OV k)) (seq 0 n)))
        = map (fun k => Some (half_step (QV k) (OV k))) (seq 0 n)).
      { unfold n. rewrite (combine_as_indexed (user_var 0)). fold n.
        rewrite map_map. on_seq k Hk. cbv beta iota.
        change (nth k qs (user_var 0)) with (Q k). rewrite HQ by lia.
        apply half_step_row. apply HOV. lia. }
      rewrite Eq1. clear Eq1.
      rewrite (combine_both_indexed (Scalar 0) (Scalar 0) qvs vvs n) in Hg
        by lia.
      rewrite enumerate_indexed, !map_map in Hg.
      assert (Hg' : grad_func (map (fun k => Some (half_step (QV k) (OV k)))
                                   (seq 0 n)) = map Some gs) by exact Hg.
      rewrite Hg'.
      rewrite (map_Some_indexed (Scalar 0) gs n) by lia. fold G.
      rewrite !combine_indexed, map_map.
      rewrite (map_ext_in _ (fun k => Some (second_order_v (fun _ => SGHMC.alpha self) (SGHMC.lr self) (SGHMC_xi self draws k) (OV k) (G k)))).
      2:{ intros k Hk; apply in_seq in Hk.
          apply second_order_row with (q1 := QV k); [apply HOV|apply HG]; lia. }
      rewrite combine_indexed, map_map. f_equal.
      on_seq k Hk. cbv beta iota.
      apply second_order_row.
      + unfold half_step. rewrite shape_of_pointwise. apply HOV. lia.
      + unfold half_step. rewrite shape_of_pointwise. apply HG. lia.
    - unfold SGHMC.first_order_branch.
      rewrite Hq, Hg.
      rewrite (map_Some_indexed (Scalar 0) gs n) by lia. fold G.
      rewrite !combine_indexed, map_map.
      rewrite (map_ext_in _ (fun k => Some (first_order_v (fun _ => SGHMC.alpha self) (SGHMC.lr self) (SGHMC_xi self draws k) (OV k) (G k)))).
      2:{ intros k Hk; apply in_seq in Hk.
          apply first_order_row with (qv := QV k); [apply HOV|apply HG]; lia. }
      unfold n. rewrite (combine_as_indexed (user_var 0)). fold n Q.
      rewrite map_map. f_equal.
      on_seq k Hk. cbv beta iota. change (nth k qs (user_var 0)) with (Q k).
      rewrite HQ by lia.
      apply first_order_row; [apply HOV|apply HG]; lia. }
  unfold OV, VV in Ebranch. rewrite Ebranch. clear Ebranch.
  assert (HNV : forall k, (k < n)%nat -> shape_of (NV k) = shape_of (VV k)).
  { intros k Hk. unfold NV, SGHMC_new_v.
    destruct (SGHMC.second_order self);
      unfold second_order_v, first_order_v; rewrite shape_of_pointwise;
      apply momentum_used_shape. }
  assert (HNQ : forall k, (k < n)%nat -> shape_of (NQ k) = shape_of (QV k)).
  { intros k Hk. unfold NQ, SGHMC_new_q.
    destruct (SGHMC.second_order self);
      unfold second_order_q, first_order_q, half_step;
      now rewrite !shape_of_pointwise. }
  set (ctl := map (fun k => Some (NV k)) (seq 0 n)
              ++ map (fun k => Some (NQ k)) (seq 0 n)).
  set (row := fun k => [Assign (Q k) (Some (NQ k)) ctl [];
                        Assign (vs_var k) (Some (NV k)) ctl []]).
  assert (Eops : group (SGHMC.update_ops sess qs (map vs_var (seq 0 n))
                          (map (fun k => Some (NV k)) (seq 0 n))
                          (map (fun k => Some (NQ k)) (seq 0 n)))
                 = concat (map row (seq 0 n))).
  { unfold SGHMC.update_ops, group. fold ctl.
    unfold n. rewrite (combine_as_indexed (user_var 0)). fold n.
    rewrite !combine_indexed, !map_map, combine_indexed, !map_map. f_equal.
    on_seq k Hk. cbv beta iota. unfold group. cbn [concat app]. unfold row.
    change (nth k qs (user_var 0)) with (Q k). rewrite HQ by lia.
    rewrite (holds_new_variables _ _ _ _ _ (Scalar 0) Hv) by lia. fold (VV k).
    rewrite !validate_shape_same; [reflexivity|apply HNV|apply HNQ]; lia. }
  rewrite Eops. clear Eops.
  set (ops := concat (map row (seq 0 n))).
  assert (Hrow : forall o, In o ops <->
            exists k, (k < n)%nat /\ In o (row k))
    by (intro o; apply in_concat_rows).
  assert (HQuser : forall k, (k < n)%nat -> is_user_var (Q k) = true).
  { intros k Hk. rewrite Forall_forall in Huser. apply Huser.
    apply nth_In. exact Hk. }
  assert (Hctl : forallb evaluated ctl = true).
  { apply forallb_forall. intros x Hx. unfold ctl in Hx.
    apply in_app_or in Hx.
    destruct Hx as [Hx|Hx]; apply in_map_iff in Hx;
      destruct Hx as [k [<- _]]; reflexivity. }
  destruct (run_sample_op ops sess) as [s' [Hrun [Ht Hval]]].
  { apply Forall_forall. intros o Ho. apply Hrow in Ho.
    destruct Ho as [k [_ [<- | [<- | []]]]]; exact Hctl. }
  exists s'. split; [exact Hrun|]. split; [exact Ht|]. split.
  - intros k q qv vv g Hk Hqv Hvv Hgk. rewrite !Hval.
    assert (k < n)%nat as Hkn by (apply nth_error_Some; congruence).
    assert (Q k = q) as EQ by (apply nth_error_nth; assumption).
    assert (QV k = qv) as EQV by (apply nth_error_nth; assumption).
    assert (VV k = vv) as EVV by (apply nth_error_nth; assumption).
    assert (G k = g) as EG by (apply nth_error_nth; assumption).
    split.
    + rewrite (written_unique ops (vs_var k) (NV k)).
      * unfold NV. now rewrite EVV, EG.
      * exists (Assign (vs_var k) (Some (NV k)) ctl []). split.
        -- apply Hrow. exists k. split; [exact Hkn|]. right. now left.
        -- cbn [writes]. apply Var_eqb_refl.
      * intros ref v c aft Hin Href. apply Hrow in Hin.
        destruct Hin as [k' [Hk' [E | [E | []]]]];
          inversion E; subst ref v c aft.
        -- specialize (HQuser k' Hk'). rewrite H0 in HQuser. discriminate.
        -- congruence.
    + rewrite (written_unique ops q (NQ k)).
      * unfold NQ. now rewrite EQV, EVV, EG.
      * exists (Assign (Q k) (Some (NQ k)) ctl []). split.
        -- apply Hrow. exists k. split; [exact Hkn|]. now left.
        -- cbn [writes]. rewrite EQ. apply Var_eqb_refl.
      * intros ref v c aft Hin Href. apply Hrow in Hin.
        destruct Hin as [k' [Hk' [E | [E | []]]]];
          inversion E; subst ref v c aft.
        -- assert (k' = k) as ->; [|reflexivity].
           apply (proj1 (NoDup_nth qs (user_var 0)) Hnd); try lia.
           fold (Q k') (Q k). congruence.
        -- specialize (HQuser k Hkn). rewrite EQ, <- H0 in HQuser.
           discriminate.
  - intros x Hx Hxv. rewrite Hval, written_none; [reflexivity|].
    intros o Ho. apply Hrow in Ho.
    destruct Ho as [k [Hk [<- | [<- | []]]]]; cbn [writes];
      apply Var_eqb_neq; intros <-.
    + apply Hx. apply nth_In. lia.
    + apply Hxv. apply in_map. apply in_seq. lia.
Qed.
End SGHMC_rule.

Section Thermostat.
Import tf.


(** A friction tensor is a scalar, or has the shape of its variable. *)
Lemma friction_cases vector qv av :
  shape_of av = friction_shape vector qv ->
  (vector = true /\ Some av = Some (pointwise (shape_of qv) (item av)))
  \/ (vector = false /\ exists x, av = Scalar x).
Proof.
  unfold friction_shape. destruct vector; intro E.
  - left. split; [reflexivity|]. now apply Some_as_pointwise.
  - right. split; [reflexivity|]. destruct av as [x|xs]; [eauto|discriminate].
Qed.

Lemma friction_shape_pointwise vector qv av f :
  shape_of av = friction_shape vector qv ->
  pointwise (shape_of av) f = pointwise (friction_shape vector qv) f.
Proof. now intros ->. Qed.

Lemma SGNHT_first_row vector eta xi qv av ov g :
  shape_of av = friction_shape vector qv ->
  shape_of ov = shape_of qv -> shape_of g = shape_of qv ->
  ((constant 1 - Some av) * Some ov + constant eta * Some g
   + Some (pointwise (shape_of ov) xi))%T
  = Some (first_order_v (item av) eta xi ov g).
Proof.
  intros Ha Ho Hg. unfold first_order_v.
  rewrite (Some_as_pointwise g _ Hg), (Some_as_pointwise ov _ Ho).
  rewrite ?shape_of_pointwise, Ho.
  destruct (friction_cases _ _ _ Ha) as [[_ ->] | [_ [x ->]]];
    tensor_simpl; pointwise_eq.
Qed.

Lemma SGNHT_second_row vector eta xi q1 a1 ov g :
  shape_of a1 = friction_shape vector q1 ->
  shape_of ov = shape_of q1 -> shape_of g = shape_of q1 ->
  (exp (constant (-0.5) * Some a1)
   * (exp (constant (-0.5) * Some a1) * Some ov
      + constant eta * Some g + Some (pointwise (shape_of ov) xi)))%T
  = Some (second_order_v (item a1) eta xi ov g).
Proof.
  intros Ha Ho Hg. unfold second_order_v.
  rewrite (Some_as_pointwise g _ Hg), (Some_as_pointwise ov _ Ho).
  rewrite ?shape_of_pointwise, Ho.
  destruct (friction_cases _ _ _ Ha) as [[_ ->] | [_ [x ->]]];
    tensor_simpl; pointwise_eq.
Qed.

(** The kinetic energy of a momentum, as the friction update reads it. *)
Lemma kinetic_row (self : SGNHT.t) qv v :
  shape_of v = shape_of qv ->
  SGNHT.maybe_reduce_mean self (square (Some v))
  = Some (pointwise (friction_shape (SGNHT.use_vector_alpha self) qv)
            (kinetic (SGNHT.use_vector_alpha self) v)).
Proof.
  intro Hv. unfold SGNHT.maybe_reduce_mean, friction_shape, kinetic.
  rewrite (Some_as_pointwise v _ Hv).
  destruct (SGNHT.use_vector_alpha self); tensor_simpl.
  - rewrite <- Hv. pointwise_eq.
  - cbn [pointwise]. now rewrite Hv.
Qed.

Lemma friction_row vector c eta qv av v :
  shape_of av = friction_shape vector qv ->
  (Some av + Some (Scalar c)
             * (Some (pointwise (friction_shape vector qv) (kinetic vector v))
                - constant eta))%T
  = Some (pointwise (shape_of av)
            (fun i => item av i + c * (kinetic vector v i - eta))).
Proof.
  intros Ha. rewrite (Some_as_pointwise av _ Ha), Ha.
  tensor_simpl. pointwise_eq.
Qed.

Lemma first_order_q_row qv v' :
  shape_of v' = shape_of qv ->
  (Some qv + Some v')%T = Some (first_order_q qv v').
Proof.
  intro Hv. unfold first_order_q.
  rewrite (Some_as_pointwise qv _ eq_refl), (Some_as_pointwise v' _ Hv).
  rewrite ?shape_of_pointwise. tensor_simpl. pointwise_eq.
Qed.

Lemma second_order_q_row q1 v' :
  shape_of v' = shape_of q1 ->
  (Some q1 + constant 0.5 * Some v')%T = Some (second_order_q q1 v').
Proof.
  intro Hv. unfold second_order_q.
  rewrite (Some_as_pointwise q1 _ eq_refl), (Some_as_pointwise v' _ Hv).
  rewrite ?shape_of_pointwise. tensor_simpl. pointwise_eq.
Qed.
End Thermostat.

(** Bring zipped and mapped lists over the positions to one [map]. *)
Ltac indexed :=
  repeat (rewrite combine_indexed || rewrite map_map
          || rewrite enumerate_indexed).

Section SGNHT_rule.
Import tf.
Variable self : SGNHT.t.
Variable sess : Session.
Variable draws : Draws.

Lemma SGNHT_old_vs n vvs :
  holds sess (map vs_var (seq 0 n)) vvs ->
  SGNHT.old_vs self draws sess (map vs_var (seq 0 n))
  = map (fun k => Some (SGNHT_old_v self sess draws k (nth k vvs (Scalar 0))))
        (seq 0 n).
Proof.
  intro Hv. unfold SGNHT.old_vs. rewrite enumerate_indexed, map_map.
  on_seq k Hk.
  rewrite (holds_new_variables _ _ _ _ _ (Scalar 0) Hv) by lia.
  unfold SGNHT.resample_momentum.
  rewrite (Some_as_pointwise (nth k vvs (Scalar 0)) _ eq_refl).
  apply maybe_resample_pointwise.
Qed.

Lemma SGNHT_gaussian_terms n (OV : nat -> ndarray) :
  SGNHT.gaussian_terms self draws (map (fun k => Some (OV k)) (seq 0 n))
  = map (fun k => Some (pointwise (shape_of (OV k)) (SGNHT_xi self draws k)))
        (seq 0 n).
Proof.
  unfold SGNHT.gaussian_terms. rewrite enumerate_indexed, map_map.
  on_seq k Hk. rewrite (Some_as_pointwise (OV k) _ eq_refl).
  tensor_simpl. unfold SGNHT_xi, gaussian. pointwise_eq.
Qed.

Lemma SGNHT_iteration qs qvs vvs avs gs latent_k grad_func :
  bound_latents qs ->
  holds sess qs qvs ->
  holds sess (new_variables vs_var qs) vvs ->
  holds sess (new_variables alphas_var qs) avs ->
  same_shapes qvs vvs ->
  friction_shapes (SGNHT.use_vector_alpha self) qvs avs ->
  grad_func (map Some (SGNHT_points self sess draws qvs vvs)) = map Some gs ->
  same_shapes qvs gs ->
  exists sess',
    iteration self qs latent_k grad_func draws sess = Some sess'
    /\ sess_t sess' = int32 (sess_t sess + 1)
    /\ (forall k q qv vv av g,
          nth_error qs k = Some q -> nth_error qvs k = Some qv ->
          nth_error vvs k = Some vv -> nth_error avs k = Some av ->
          nth_error gs k = Some g ->
          sess_value sess' (vs_var k)
          = Some (SGNHT_new_v self sess draws k vv av g)
          /\ sess_value sess' q
             = Some (SGNHT_new_q self sess draws k qv vv av g)
          /\ sess_value sess' (alphas_var k)
             = Some (SGNHT_new_alpha self sess draws k vv av g))
    /\ (forall x, ~ In x qs -> ~ In x (new_variables vs_var qs) ->
                  ~ In x (new_variables alphas_var qs) ->
                  sess_value sess' x = sess_value sess x).
Proof.
  intros [Hnd Huser] Hq Hv Ha Hsv Hsa Hg Hsh.
  pose proof (holds_length _ _ _ Hq) as Hlq.
  pose proof (Forall2_length Hsh) as Hlg.
  pose proof (Forall2_length Hsv) as Hlv.
  pose proof (Forall2_length Hsa) as Hla.
  unfold iteration, sample. cbn [_update SGNHT.SGNHT_Subclass].
  unfold SGNHT._update.
  rewrite !new_variables_indexed in *.
  set (n := length qs) in *.
  set (vec := SGNHT.use_vector_alpha self) in *.
  set (Q := fun k => nth k qs (user_var 0)).
  set (QV := fun k => nth k qvs (Scalar 0)).
  set (VV := fun k => nth k vvs (Scalar 0)).
  set (AV := fun k => nth k avs (Scalar 0)).
  set (G := fun k => nth k gs (Scalar 0)).
  set (OV := fun k => SGNHT_old_v self sess draws k (VV k)).
  set (NV := fun k => SGNHT_new_v self sess draws k (VV k) (AV k) (G k)).
  set (NQ := fun k => SGNHT_new_q self sess draws k (QV k) (VV k) (AV k) (G k)).
  set (NA := fun k => SGNHT_new_alpha self sess draws k (VV k) (AV k) (G k)).
  rewrite (SGNHT_old_vs n vvs Hv).
  rewrite SGNHT_gaussian_terms.
  assert (HOV : forall k, (k < n)%nat -> shape_of (OV k) = shape_of (QV k)).
  { intros k Hk. unfold OV, SGNHT_old_v. rewrite momentum_used_shape.
    apply same_shapes_nth; [assumption|lia]. }
  assert (HG : forall k, (k < n)%nat -> shape_of (G k) = shape_of (QV k)).
  { intros k Hk. apply same_shapes_nth; [assumption|lia]. }
  assert (HQ : forall k, (k < n)%nat -> sess_value sess (Q k) = Some (QV k)).
  { intros k Hk. apply holds_nth; assumption. }
  assert (HA : forall k, (k < n)%nat ->
               sess_value sess (alphas_var k) = Some (AV k)).
  { intros k Hk. now apply holds_new_variables with (n := n). }
  assert (HAV : forall k, (k < n)%nat ->
                shape_of (AV k) = friction_shape vec (QV k)).
  { intros k Hk. unfold AV, QV. clear - Hsa Hk Hlq. revert k Hk.
    unfold n in *. clear n. rewrite <- Hlq. clear Hlq.
    induction Hsa as [|q0 a0 l1 l2 Hqa Hs IH]; intros k Hk;
      [simpl in Hk; lia|].
    destruct k as [|k]; simpl; [assumption|]. apply IH. simpl in Hk. lia. }
  assert (Ebranch :
    (if negb (SGNHT.second_order self)
     then SGNHT.first_order_branch self sess qs (map alphas_var (seq 0 n))
            (map (fun k => Some (OV k)) (seq 0 n))
            (map (fun k => Some (pointwise (shape_of (OV k))
                                   (SGNHT_xi self draws k))) (seq 0 n))
            grad_func
     else SGNHT.second_order_branch self sess qs (map alphas_var (seq 0 n))
            (map (fun k => Some (OV k)) (seq 0 n))
            (map (fun k => Some (pointwise (shape_of (OV k))
                                   (SGNHT_xi self draws k))) (seq 0 n))
            grad_func)
    = (map (fun k => Some (NV k)) (seq 0 n),
       map (fun k => Some (NQ k)) (seq 0 n),
       map (fun k => Some (pointwise (friction_shape vec (QV k))
                             (kinetic vec (NV k)))) (seq 0 n),
       map (fun k => Some (NA k)) (seq 0 n))).
  { revert Hg.
    unfold SGNHT_points, NV, NQ, NA, SGNHT_new_alpha, SGNHT_new_q, SGNHT_new_v.
    destruct (SGNHT.second_order self); intro Hg;
      cbn [negb]; cbv beta iota zeta.
    - unfold SGNHT.second_order_branch.
      assert (Eq1 :
        map (fun '(q, old_v) => (sess_value sess q + constant 0.5 * old_v)%T)
            (combine qs (map (fun k => Some (OV k)) (seq 0 n)))
        = map (fun k => Some (half_step (QV k) (OV k))) (seq 0 n)).
      { unfold n. rewrite (combine_as_indexed (user_var 0)). fold n.
        rewrite map_map. on_seq k Hk. cbv beta iota.
        change (nth k qs (user_var 0)) with (Q k). rewrite HQ by lia.
        apply half_step_row. apply HOV. lia. }
      rewrite Eq1. clear Eq1.
      rewrite (combine_both_indexed (Scalar 0) (Scalar 0) qvs vvs n) in Hg
        by lia.
      rewrite enumerate_indexed, !map_map in Hg.
      assert (Hg' : grad_func (map (fun k => Some (half_step (QV k) (OV k)))
                                   (seq 0 n)) = map Some gs) by exact Hg.
      rewrite Hg'.
      rewrite (map_Some_indexed (Scalar 0) gs n) by lia.
      indexed.
      assert (Hhalf : forall k, (k < n)%nat ->
        (sess_value sess (alphas_var k)
         + constant 0.5 * constant (SGNHT.tune_rate self)
           * (SGNHT.maybe_reduce_mean self (square (Some (OV k)))
              - constant (SGNHT.lr self)))%T
        = Some (SGNHT_alpha_half self (AV k) (OV k))).
      { intros k Hk. rewrite HA by lia.
        rewrite (kinetic_row self (QV k)) by (apply HOV; lia).
        change (constant 0.5 * constant (SGNHT.tune_rate self))%T
          with (Some (Scalar (0.5 * SGNHT.tune_rate self))).
        apply friction_row. apply HAV. lia. }
      assert (HAH : forall k, (k < n)%nat ->
                shape_of (SGNHT_alpha_half self (AV k) (OV k))
                = friction_shape vec (QV k)).
      { intros k Hk. unfold SGNHT_alpha_half. rewrite shape_of_pointwise.
        apply HAV. lia. }
      assert (Hrow : forall k, (k < n)%nat ->
        (exp (constant (-0.5) * Some (SGNHT_alpha_half self (AV k) (OV k)))
         * (exp (constant (-0.5)
                 * Some (SGNHT_alpha_half self (AV k) (OV k)))
            * Some (OV k)
            + constant (SGNHT.lr self) * Some (nth k gs (Scalar 0))
            + Some (pointwise (shape_of (OV k)) (SGNHT_xi self draws k))))%T
        = Some (second_order_v
                  (item (SGNHT_alpha_half self (AV k) (OV k)))
                  (SGNHT.lr self) (SGNHT_xi self draws k) (OV k) (G k))).
      { intros k Hk.
        apply SGNHT_second_row with (vector := vec) (q1 := QV k);
          [apply HAH|apply HOV|apply HG]; lia. }
      assert (HNVs : forall k, (k < n)%nat ->
        shape_of (second_order_v
                    (item (SGNHT_alpha_half self (AV k) (OV k)))
                    (SGNHT.lr self) (SGNHT_xi self draws k) (OV k) (G k))
        = shape_of (QV k)).
      { intros k Hk. unfold second_order_v. rewrite shape_of_pointwise.
        apply HOV. lia. }
      repeat match goal with |- (_, _) = (_, _) => f_equal end;
        on_seq k Hk; rewrite !Hhalf by lia; rewrite Hrow by lia.
      + reflexivity.
      + apply second_order_q_row. unfold half_step.
        rewrite shape_of_pointwise. apply HNVs. lia.
      + apply kinetic_row. apply HNVs. lia.
      + rewrite (kinetic_row self (QV k)) by (apply HNVs; lia).
        change (constant 0.5 * constant (SGNHT.tune_rate self))%T
          with (Some (Scalar (0.5 * SGNHT.tune_rate self))).
        rewrite (friction_row vec _ _ (QV k)) by (apply HAH; lia).
        unfold SGNHT_alpha_half at 1. rewrite shape_of_pointwise.
        reflexivity.
    - unfold SGNHT.first_order_branch.
      rewrite Hq, Hg.
      rewrite (map_Some_indexed (Scalar 0) gs n) by lia.
      indexed.
      unfold n. rewrite !(combine_as_indexed (user_var 0)). fold n.
      indexed.
      assert (Hrow : forall k, (k < n)%nat ->
        ((constant 1 - sess_value sess (alphas_var k)) * Some (OV k)
         + constant (SGNHT.lr self) * Some (nth k gs (Scalar 0))
         + Some (pointwise (shape_of (OV k)) (SGNHT_xi self draws k)))%T
        = Some (first_order_v (item (AV k)) (SGNHT.lr self)
                  (SGNHT_xi self draws k) (OV k) (G k))).
      { intros k Hk. rewrite HA by lia.
        apply SGNHT_first_row with (vector := vec) (qv := QV k);
          [apply HAV|apply HOV|apply HG]; lia. }
      repeat match goal with |- (_, _) = (_, _) => f_equal end;
        on_seq k Hk; rewrite Hrow by lia.
      + reflexivity.
      + change (nth k qs (user_var 0)) with (Q k). rewrite HQ by lia.
        apply first_order_q_row. unfold first_order_v.
        rewrite shape_of_pointwise. apply HOV. lia.
      + apply kinetic_row. unfold first_order_v.
        rewrite shape_of_pointwise. apply HOV. lia.
      + rewrite HA by lia.
        rewrite (kinetic_row self (QV k)).
        * apply friction_row. apply HAV. lia.
        * unfold first_order_v. rewrite shape_of_pointwise. apply HOV. lia. }
  unfold OV, VV in Ebranch. rewrite Ebranch. clear Ebranch.
  assert (HNV : forall k, (k < n)%nat -> shape_of (NV k) = shape_of (VV k)).
  { intros k Hk. unfold NV, SGNHT_new_v.
    destruct (SGNHT.second_order self);
      unfold second_order_v, first_order_v; rewrite shape_of_pointwise;
      apply momentum_used_shape. }
  assert (HNQ : forall k, (k < n)%nat -> shape_of (NQ k) = shape_of (QV k)).
  { intros k Hk. unfold NQ, SGNHT_new_q.
    destruct (SGNHT.second_order self);
      unfold second_order_q, first_order_q, half_step;
      now rewrite !shape_of_pointwise. }
  assert (HNA : forall k, (k < n)%nat -> shape_of (NA k) = shape_of (AV k)).
  { intros k Hk. unfold NA, SGNHT_new_alpha.
    destruct (SGNHT.second_order self); now rewrite shape_of_pointwise. }
  set (ctl := map (fun k => Some (NV k)) (seq 0 n)
              ++ map (fun k => Some (NQ k)) (seq 0 n)
              ++ map (fun k => Some (NA k)) (seq 0 n)).
  set (row := fun k => [Assign (Q k) (Some (NQ k)) ctl [];
                        Assign (vs_var k) (Some (NV k)) ctl [];
                        Assign (alphas_var k) (Some (NA k)) ctl []]).
  assert (Eops : group (SGNHT.update_ops sess qs (map vs_var (seq 0 n))
                          (map alphas_var (seq 0 n))
                          (map (fun k => Some (NV k)) (seq 0 n))
                          (map (fun k => Some (NQ k)) (seq 0 n))
                          (map (fun k => Some (NA k)) (seq 0 n)))
                 = concat (map row (seq 0 n))).
  { unfold SGNHT.update_ops, group. fold ctl.
    unfold n. rewrite (combine_as_indexed (user_var 0)). fold n.
    indexed. f_equal.
    on_seq k Hk. cbv beta iota. unfold group. cbn [concat app]. unfold row.
    change (nth k qs (user_var 0)) with (Q k). rewrite HQ, HA by lia.
    rewrite (holds_new_variables _ _ _ _ _ (Scalar 0) Hv) by lia. fold (VV k).
    rewrite !validate_shape_same; [reflexivity|apply HNA|apply HNV|apply HNQ];
      lia. }
  rewrite Eops. clear Eops.
  set (ops := concat (map row (seq 0 n))).
  assert (Hrow : forall o, In o ops <->
            exists k, (k < n)%nat /\ In o (row k))
    by (intro o; apply in_concat_rows).
  assert (HQuser : forall k, (k < n)%nat -> is_user_var (Q k) = true).
  { intros k Hk. rewrite Forall_forall in Huser. apply Huser.
    apply nth_In. exact Hk. }
  assert (Hctl : forallb evaluated ctl = true).
  { apply forallb_forall. intros x Hx. unfold ctl in Hx.
    repeat (apply in_app_or in Hx; destruct Hx as [Hx|Hx]);
      apply in_map_iff in Hx; destruct Hx as [k [<- _]]; reflexivity. }
  destruct (run_sample_op ops sess) as [s' [Hrun [Ht Hval]]].
  { apply Forall_forall. intros o Ho. apply Hrow in Ho.
    destruct Ho as [k [_ [<- | [<- | [<- | []]]]]]; exact Hctl. }
  exists s'. split; [exact Hrun|]. split; [exact Ht|]. split.
  - intros k q qv vv av g Hk Hqv Hvv Hav Hgk. rewrite !Hval.
    assert (k < n)%nat as Hkn by (apply nth_error_Some; congruence).
    assert (Q k = q) as EQ by (apply nth_error_nth; assumption).
    assert (QV k = qv) as EQV by (apply nth_error_nth; assumption).
    assert (VV k = vv) as EVV by (apply nth_error_nth; assumption).
    assert (AV k = av) as EAV by (apply nth_error_nth; assumption).
    assert (G k = g) as EG by (apply nth_error_nth; assumption).
    split; [|split].
    + rewrite (written_unique ops (vs_var k) (NV k)).
      * unfold NV. now rewrite EVV, EAV, EG.
      * exists (Assign (vs_var k) (Some (NV k)) ctl []). split.
        -- apply Hrow. exists k. split; [exact Hkn|]. right. now left.
        -- cbn [writes]. apply Var_eqb_refl.
      * intros ref v c aft Hin Href. apply Hrow in Hin.
        destruct Hin as [k' [Hk' [E | [E | [E | []]]]]];
          inversion E; subst ref v c aft.
        -- specialize (HQuser k' Hk'). rewrite H0 in HQuser. discriminate.
        -- congruence.
        -- discriminate.
    + rewrite (written_unique ops q (NQ k)).
      * unfold NQ. now rewrite EQV, EVV, EAV, EG.
      * exists (Assign (Q k) (Some (NQ k)) ctl []). split.
        -- apply Hrow. exists k. split; [exact Hkn|]. now left.
        -- cbn [writes]. rewrite EQ. apply Var_eqb_refl.
      * intros ref v c aft Hin Href. apply Hrow in Hin.
        destruct Hin as [k' [Hk' [E | [E | [E | []]]]]];
          inversion E; subst ref v c aft.
        -- assert (k' = k) as ->; [|reflexivity].
           apply (proj1 (NoDup_nth qs (user_var 0)) Hnd); try lia.
           fold (Q k') (Q k). congruence.
        -- specialize (HQuser k Hkn). rewrite EQ, <- H0 in HQuser.
           discriminate.
        -- specialize (HQuser k Hkn). rewrite EQ, <- H0 in HQuser.
           discriminate.
    + rewrite (written_unique ops (alphas_var k) (NA k)).
      * unfold NA. now rewrite EVV, EAV, EG.
      * exists (Assign (alphas_var k) (Some (NA k)) ctl []). split.
        -- apply Hrow. exists k. split; [exact Hkn|]. right. right. now left.
        -- cbn [writes]. apply Var_eqb_refl.
      * intros ref v c aft Hin Href. apply Hrow in Hin.
        destruct Hin as [k' [Hk' [E | [E | [E | []]]]]];
          inversion E; subst ref v c aft.
        -- specialize (HQuser k' Hk'). rewrite H0 in HQuser. discriminate.
        -- discriminate.
        -- congruence.
  - intros x Hx Hxv Hxa. rewrite Hval, written_none; [reflexivity|].
    intros o Ho. apply Hrow in Ho.
    destruct Ho as [k [Hk [<- | [<- | [<- | []]]]]]; cbn [writes];
      apply Var_eqb_neq; intros <-.
    + apply Hx. apply nth_In. lia.
    + apply Hxv. apply in_map. apply in_seq. lia.
    + apply Hxa. apply in_map. apply in_seq. lia.
Qed.
End SGNHT_rule.

(* ================================================================== *)
(** ** Initialisation of the sampler's Variables *)
(* ================================================================== *)

Section Initialisation.
Import tf.
Variable mk : nat -> Var.
Variable F : nat -> Var -> option ndarray.
Hypothesis mk_inj : forall i j, mk i = mk j -> i = j.

Let init (qs : list Var) (a : nat) (s : Session) : Session :=
  fold_left (fun s '(k, q) => run_initializer (mk k) (F k q) s)
            (enumerate a qs) s.

Lemma init_t qs : forall a s, sess_t (init qs a s) = sess_t s.
Proof.
  induction qs as [|q qs IH]; intros a s; [reflexivity|].
  unfold init in *. simpl. now rewrite IH.
Qed.

Lemma init_other qs x : forall a s,
  (forall k, x <> mk k) -> sess_value (init qs a s) x = sess_value s x.
Proof.
  induction qs as [|q qs IH]; intros a s Hx; [reflexivity|].
  unfold init in *. simpl. rewrite IH by assumption. simpl.
  rewrite Var_eqb_neq; [reflexivity|]. intro E. now apply (Hx a).
Qed.

Lemma init_before qs k : forall a s,
  (k < a)%nat -> sess_value (init qs a s) (mk k) = sess_value s (mk k).
Proof.
  induction qs as [|q qs IH]; intros a s Hk; [reflexivity|].
  unfold init in *. simpl. rewrite IH by lia. simpl.
  rewrite Var_eqb_neq; [reflexivity|]. intro E. apply mk_inj in E. lia.
Qed.

Lemma init_at qs d : forall a s k,
  (a <= k < a + length qs)%nat ->
  sess_value (init qs a s) (mk k) = F k (nth (k - a) qs d).
Proof.
  induction qs as [|q qs IH]; intros a s k Hk; [simpl in Hk; lia|].
  destruct (Nat.eq_dec k a) as [->|Hne].
  - unfold init. simpl. fold (init qs (S a) (run_initializer (mk a) (F a q) s)).
    rewrite init_before by lia. simpl. rewrite Var_eqb_refl.
    now rewrite Nat.sub_diag.
  - unfold init. simpl. fold (init qs (S a) (run_initializer (mk a) (F a q) s)).
    rewrite IH by (simpl in Hk; lia).
    replace (k - a)%nat with (S (k - S a)) by lia. reflexivity.
Qed.
End Initialisation.

Lemma holds_intro sess xs vals :
  length vals = length xs ->
  (forall k x a, nth_error xs k = Some x -> nth_error vals k = Some a ->
                 tf.sess_value sess x = Some a) ->
  holds sess xs vals.
Proof.
  intros Hl Hk. unfold holds.
  apply nth_error_ext. intro k. rewrite !nth_error_map.
  destruct (nth_error xs k) as [x|] eqn:Ex.
  - destruct (nth_error vals k) as [a|] eqn:Ea.
    + simpl. f_equal. now apply (Hk k).
    + apply nth_error_None in Ea.
      assert (k < length xs)%nat by (apply nth_error_Some; congruence). lia.
  - destruct (nth_error vals k) as [a|] eqn:Ea; [|reflexivity].
    apply nth_error_None in Ex.
    assert (k < length vals)%nat by (apply nth_error_Some; congruence). lia.
Qed.

(* ================================================================== *)
(** ** The update rules of the four samplers *)
(* ================================================================== *)

Lemma grad_quadratic_is_gradient q :
  derivable_pt_lim log_joint_quadratic q (- q).
Proof.
  unfold log_joint_quadratic.
  replace (- q) with (-0.5 * (INR 2 * q ^ pred 2)) by (simpl; lra).
  apply (derivable_pt_lim_scal (fun x => x ^ 2) (-0.5) q).
  apply derivable_pt_lim_pow.
Qed.

Lemma SGLD_new_q_shape self draw q g :
  tf.shape_of (SGLD_new_q self draw q g) = tf.shape_of q.
Proof. apply shape_of_pointwise. Qed.



Lemma user_var_inj i j : tf.user_var i = tf.user_var j -> i = j.
Proof. congruence. Qed.

Lemma vs_var_inj i j : tf.vs_var i = tf.vs_var j -> i = j.
Proof. congruence. Qed.

Lemma alphas_var_inj i j : tf.alphas_var i = tf.alphas_var j -> i = j.
Proof. congruence. Qed.

Lemma PSGLD_initial_accumulator (self : PSGLD.t) draws sess qs qvs k qv :
  holds sess qs qvs ->
  nth_error qvs k = Some qv ->
  tf.sess_value (initialize self qs draws sess) (tf.vs_var k)
  = Some (tf.pointwise (tf.shape_of qv) (fun _ => 0)).
Proof.
  intros Hq Hqv. unfold initialize.
  cbn [_define_variables PSGLD.PSGLD_Subclass].
  unfold PSGLD._define_variables, PSGLD.RMSPreconditioner._define_variables.
  pose proof (holds_length _ _ _ Hq) as Hl.
  assert (k < length qs)%nat as Hk
    by (rewrite <- Hl; apply nth_error_Some; congruence).
  rewrite (init_at tf.vs_var
             (fun _ q => tf.zeros_like
                           (tf.sess_value (tf.mkSession 0 (tf.sess_value sess)) q))
             vs_var_inj qs (tf.user_var 0)) by lia.
  rewrite Nat.sub_0_r. cbn [tf.sess_value].
  rewrite (holds_nth _ _ _ _ _ qv Hq Hk).
  rewrite (nth_error_nth _ _ _ Hqv).
  rewrite (Some_as_pointwise qv _ eq_refl). tensor_simpl. reflexivity.
Qed.



Lemma ndarray_ext a b :
  tf.shape_of a = tf.shape_of b ->
  (forall i, (i < tf.numel (tf.shape_of b))%nat -> tf.item a i = tf.item b i) ->
  a = b.
Proof.
  intros Hs Hi. rewrite (as_pointwise a), (as_pointwise b), Hs.
  now apply pointwise_ext.
Qed.

Lemma item_momentum_used eta period t draw v i :
  (i < tf.numel (tf.shape_of v))%nat ->
  tf.item (momentum_used eta period t draw v) i
  = momentum_item eta period t draw v i.
Proof. intro Hi. unfold momentum_used. now rewrite item_pointwise. Qed.

Lemma same_shapes_nth_error l1 l2 k a b :
  same_shapes l1 l2 -> nth_error l1 k = Some a -> nth_error l2 k = Some b ->
  tf.shape_of b = tf.shape_of a.
Proof.
  intros Hs Ha Hb.
  rewrite <- (nth_error_nth _ _ (tf.Scalar 0) Ha),
    <- (nth_error_nth _ _ (tf.Scalar 0) Hb).
  apply same_shapes_nth; [assumption|]. apply nth_error_Some. congruence.
Qed.










(* ================================================================== *)
(** ** Momentum resampling *)
(* ================================================================== *)

Lemma nth_error_indexed {A : Type} (F : nat -> A) n k :
  (k < n)%nat -> nth_error (map F (seq 0 n)) k = Some (F k).
Proof.
  intro Hk. rewrite nth_error_map.
  rewrite (nth_error_nth' (seq 0 n) 0%nat) by now rewrite length_seq.
  now rewrite seq_nth.
Qed.





(* ================================================================== *)
(** ** SGHMC with a zero learning rate *)
(* ================================================================== *)

Lemma nth_error_new_variables mk qs k x :
  nth_error (new_variables mk qs) k = Some x -> x = mk k /\ (k < length qs)%nat.
Proof.
  rewrite new_variables_indexed. intro E.
  assert (k < length qs)%nat as Hk.
  { assert (k < length (map mk (seq 0 (length qs))))%nat as Hk
      by (apply nth_error_Some; congruence).
    now rewrite length_map, length_seq in Hk. }
  rewrite nth_error_indexed in E by assumption. split; [congruence|assumption].
Qed.

Lemma same_shapes_zeros qvs : same_shapes qvs (map zeros qvs).
Proof.
  induction qvs; constructor; [apply shape_of_pointwise|assumption].
Qed.

Lemma same_shapes_refl l : same_shapes l l.
Proof. induction l; constructor; auto. Qed.

Lemma same_shapes_trans l1 l2 l3 :
  same_shapes l1 l2 -> same_shapes l2 l3 -> same_shapes l1 l3.
Proof.
  intro H12. revert l3. induction H12 as [|a b l1 l2 Hab H12 IH]; intros l3 H23;
    inversion H23; subst; constructor.
  - congruence.
  - now apply IH.
Qed.

Lemma same_shapes_half_steps (F : nat -> tf.ndarray -> tf.ndarray) qvs vvs :
  same_shapes qvs vvs ->
  forall a,
    same_shapes qvs
      (map (fun '(k, (q, v)) => half_step q (F k v))
           (enumerate a (combine qvs vvs))).
Proof.
  induction 1 as [|q v qvs vvs Hqv Hs IH]; intro a; simpl; constructor.
  - unfold half_step. apply shape_of_pointwise.
  - apply IH.
Qed.

Lemma SGHMC_points_shapes self sess draws qvs vvs :
  same_shapes qvs vvs ->
  same_shapes qvs (SGHMC_points self sess draws qvs vvs).
Proof.
  intro Hs. unfold SGHMC_points. destruct (SGHMC.second_order self).
  - now apply same_shapes_half_steps.
  - apply same_shapes_refl.
Qed.

Lemma SGNHT_points_shapes self sess draws qvs vvs :
  same_shapes qvs vvs ->
  same_shapes qvs (SGNHT_points self sess draws qvs vvs).
Proof.
  intro Hs. unfold SGNHT_points. destruct (SGNHT.second_order self).
  - now apply same_shapes_half_steps.
  - apply same_shapes_refl.
Qed.

Lemma shape_preserving_quadratic : shape_preserving grad_quadratic.
Proof.
  intro xs. exists (map (tf.map_ndarray (fun q => - q)) xs). split.
  - unfold grad_quadratic. rewrite !map_map. reflexivity.
  - induction xs as [|x xs IH]; constructor; [|assumption].
    destruct x; simpl; [reflexivity|]. now rewrite length_map.
Qed.

Section ZeroLearningRate.
Import tf.
Variable self : SGHMC.t.
Hypothesis Hlr : SGHMC.lr self = 0.

Lemma SGHMC_zero_step sess draws k qv v g :
  v = zeros qv -> shape_of g = shape_of qv ->
  SGHMC_new_v self sess draws k v g = zeros qv
  /\ SGHMC_new_q self sess draws k qv v g = qv.
Proof.
  intros -> Hg.
  assert (forall i, (i < numel (shape_of qv))%nat ->
            item (SGHMC_old_v self sess draws k (zeros qv)) i = 0) as Hold.
  { intros i Hi. unfold SGHMC_old_v.
    rewrite item_momentum_used
      by (unfold zeros; now rewrite shape_of_pointwise).
    unfold momentum_item. rewrite Hlr, sqrt_0.
    destruct (resamples _ _); [ring|].
    unfold zeros. now rewrite item_pointwise. }
  assert (forall i, SGHMC_xi self draws k i = 0) as Hxi.
  { intro i. unfold SGHMC_xi, gaussian. rewrite Hlr, Rmult_0_r, sqrt_0.
    ring. }
  assert (shape_of (SGHMC_old_v self sess draws k (zeros qv)) = shape_of qv)
    as Hso.
  { unfold SGHMC_old_v. rewrite momentum_used_shape.
    apply shape_of_pointwise. }
  assert (SGHMC_new_v self sess draws k (zeros qv) g = zeros qv) as Hv.
  { unfold SGHMC_new_v. cbv zeta.
    destruct (SGHMC.second_order self);
      unfold second_order_v, first_order_v; rewrite Hso; unfold zeros at 2;
      apply pointwise_ext; intros i Hi;
      rewrite (Hold i Hi), Hxi, Hlr; ring. }
  split; [exact Hv|].
  unfold SGHMC_new_q. cbv zeta. rewrite Hv.
  destruct (SGHMC.second_order self); apply ndarray_ext;
    unfold second_order_q, first_order_q, half_step, zeros;
    rewrite ?shape_of_pointwise; try reflexivity;
    intros i Hi; rewrite ?item_pointwise by assumption;
    fold (zeros qv); rewrite ?(Hold i Hi); ring.
Qed.
End ZeroLearningRate.

Section SGHMC_initialisation.
Import tf.
Variable self : SGHMC.t.
Variable sess : Session.
Variable draws0 : Draws.
Variable qs : list Var.
Variable qvs : list ndarray.
Hypothesis Hq : holds sess qs qvs.

Lemma SGHMC_initialize_t : sess_t (initialize self qs draws0 sess) = 0%Z.
Proof.
  unfold initialize. cbn [_define_variables SGHMC.SGHMC_Subclass].
  unfold SGHMC._define_variables.
  now rewrite (init_t vs_var
                 (fun k q => random_normal
                               (shape (sess_value
                                         (mkSession 0 (sess_value sess)) q))
                               (sqrt (constant (SGHMC.lr self)))
                               (draw_init draws0 k))).
Qed.

Lemma SGHMC_initialize_other x :
  (forall k, x <> vs_var k) ->
  sess_value (initialize self qs draws0 sess) x = sess_value sess x.
Proof.
  intro Hx. unfold initialize. cbn [_define_variables SGHMC.SGHMC_Subclass].
  unfold SGHMC._define_variables.
  now rewrite (init_other vs_var
                 (fun k q => random_normal
                               (shape (sess_value
                                         (mkSession 0 (sess_value sess)) q))
                               (sqrt (constant (SGHMC.lr self)))
                               (draw_init draws0 k))).
Qed.

Lemma SGHMC_initialize_momentum k qv :
  nth_error qvs k = Some qv ->
  sess_value (initialize self qs draws0 sess) (vs_var k)
  = Some (pointwise (shape_of qv)
            (fun i => draw_init draws0 k i * R_sqrt.sqrt (SGHMC.lr self) + 0)).
Proof.
  intro Hqv. unfold initialize.
  cbn [_define_variables SGHMC.SGHMC_Subclass].
  unfold SGHMC._define_variables.
  pose proof (holds_length _ _ _ Hq) as Hl.
  assert (k < length qs)%nat as Hk
    by (rewrite <- Hl; apply nth_error_Some; congruence).
  rewrite (init_at vs_var
             (fun k q => random_normal
                           (shape (sess_value
                                     (mkSession 0 (sess_value sess)) q))
                           (sqrt (constant (SGHMC.lr self)))
                           (draw_init draws0 k))
             vs_var_inj qs (user_var 0)) by lia.
  rewrite Nat.sub_0_r. cbn [sess_value].
  rewrite (holds_nth _ _ _ _ _ qv Hq Hk).
  rewrite (nth_error_nth _ _ _ Hqv).
  rewrite (Some_as_pointwise qv _ eq_refl). tensor_simpl. reflexivity.
Qed.

Lemma SGHMC_initialize_latents :
  bound_latents qs -> holds (initialize self qs draws0 sess) qs qvs.
Proof.
  intros [_ Huser]. apply holds_intro; [now apply (holds_length sess)|].
  intros k x a Hx Ha. rewrite SGHMC_initialize_other.
  - rewrite <- (nth_error_nth _ _ (user_var 0) Hx),
      <- (nth_error_nth _ _ a Ha).
    apply holds_nth; [assumption|]. apply nth_error_Some. congruence.
  - intros j ->. rewrite Forall_forall in Huser.
    specialize (Huser _ (nth_error_In _ _ Hx)). discriminate.
Qed.
End SGHMC_initialisation.

(** C9. With [learning_rate = 0] an SGHMC sampler never moves a latent
    variable: whatever the friction, the variance estimate, the resampling
    period, the integrator order, the gradient and the draws, the momentum is
    zero when it is initialised and after every iteration, and every latent
    variable keeps its value. *)
Theorem SGHMC_zero_learning_rate (self : SGHMC.t) (sess : tf.Session)
    (qs : list tf.Var) (qvs : list tf.ndarray) (latent_k : list string)
    (grad_func : list (option tf.ndarray) -> list (option tf.ndarray))
    (draws0 : Draws) (draws : nat -> Draws) (n : nat) :
  SGHMC.lr self = 0 ->
  bound_latents qs ->
  holds sess qs qvs ->
  shape_preserving grad_func ->
  exists sess',
    iterations self qs latent_k grad_func draws n
      (initialize self qs draws0 sess) = Some sess'
    /\ holds sess' qs qvs
    /\ holds sess' (new_variables tf.vs_var qs) (map zeros qvs).
Proof.
  intros Hlr Hb Hq Hgrad.
  pose proof (holds_length _ _ _ Hq) as Hl.
  induction n as [|n IH].
  - exists (initialize self qs draws0 sess). split; [reflexivity|]. split.
    + now apply SGHMC_initialize_latents.
    + apply holds_intro.
      * rewrite length_map, new_variables_indexed, length_map, length_seq.
        exact Hl.
      * intros k x a Hx Ha. apply nth_error_new_variables in Hx.
        destruct Hx as [-> Hk]. rewrite nth_error_map in Ha.
        destruct (nth_error qvs k) as [qv|] eqn:Hqv; [|discriminate].
        inversion Ha; subst a.
        rewrite (SGHMC_initialize_momentum self sess draws0 qs qvs Hq k qv Hqv).
        f_equal. apply pointwise_ext. intros i _. rewrite Hlr, sqrt_0. ring.
  - destruct IH as [s [Hrun [Hqs Hvs]]].
    cbn [iterations]. rewrite Hrun.
    destruct (Hgrad (SGHMC_points self s (draws n) qvs (map zeros qvs)))
      as [gs [Hg Hsg]].
    assert (same_shapes qvs gs) as Hsh.
    { eapply same_shapes_trans; [|exact Hsg].
      apply SGHMC_points_shapes, same_shapes_zeros. }
    destruct (SGHMC_iteration self s (draws n) qs qvs (map zeros qvs) gs
                latent_k grad_func Hb Hqs Hvs (same_shapes_zeros qvs) Hg Hsh)
      as [s' [Hrun' [_ [Hval _]]]].
    exists s'. split; [exact Hrun'|].
    assert (forall k q qv g,
               nth_error qs k = Some q -> nth_error qvs k = Some qv ->
               nth_error gs k = Some g ->
               tf.sess_value s' (tf.vs_var k) = Some (zeros qv)
               /\ tf.sess_value s' q = Some qv) as Hstep.
    { intros k q qv g Hk Hqv Hgk.
      destruct (Hval k q qv (zeros qv) g Hk Hqv) as [Hv' Hq']; try assumption.
      { rewrite nth_error_map, Hqv. reflexivity. }
      destruct (SGHMC_zero_step self Hlr s (draws n) k qv (zeros qv) g eq_refl
                  (same_shapes_nth_error _ _ _ _ _ Hsh Hqv Hgk)) as [Ev Eq].
      now rewrite Hv', Hq', Ev, Eq. }
    pose proof (Forall2_length Hsh) as Hlg.
    split; apply holds_intro.
    + exact Hl.
    + intros k x a Hx Ha.
      destruct (nth_error gs k) as [g|] eqn:Hgk.
      * now destruct (Hstep k x a g Hx Ha Hgk).
      * apply nth_error_None in Hgk.
        assert (k < length qvs)%nat by (apply nth_error_Some; congruence). lia.
    + rewrite length_map, new_variables_indexed, length_map, length_seq.
      exact Hl.
    + intros k x a Hx Ha. apply nth_error_new_variables in Hx.
      destruct Hx as [-> Hk]. rewrite nth_error_map in Ha.
      destruct (nth_error qvs k) as [qv|] eqn:Hqv; [|discriminate].
      inversion Ha; subst a.
      destruct (nth_error qs k) as [q|] eqn:Hqk;
        [|apply nth_error_None in Hqk; lia].
      destruct (nth_error gs k) as [g|] eqn:Hgk.
      * now destruct (Hstep k q qv g Hqk Hqv Hgk).
      * apply nth_error_None in Hgk.
        assert (k < length qvs)%nat by (apply nth_error_Some; congruence). lia.
Qed.

(** The quadratic scenario with a zero learning rate satisfies the
    hypotheses of the theorem above. *)
Lemma SGHMC_zero_learning_rate_witness :
  exists sess',
    iterations (SGHMC.mk 0 0.25 0 20 true) [tf.user_var 0] ["q"%string]
      grad_quadratic (fun _ => zero_draws) 3
      (initialize (SGHMC.mk 0 0.25 0 20 true) [tf.user_var 0] zero_draws
         quadratic_session)
    = Some sess'
    /\ holds sess' [tf.user_var 0] [tf.Dense [10]].
Proof.
  destruct (SGHMC_zero_learning_rate (SGHMC.mk 0 0.25 0 20 true)
              quadratic_session [tf.user_var 0] [tf.Dense [10]]
              ["q"%string] grad_quadratic zero_draws (fun _ => zero_draws) 3)
    as [sess' [Hrun [Hq _]]].
  - reflexivity.
  - split; repeat constructor. intros [].
  - reflexivity.
  - apply shape_preserving_quadratic.
  - exists sess'. split; assumption.
Defined.

(* ================================================================== *)
(** ** The first iteration *)
(* ================================================================== *)

Lemma init_outside (mk : nat -> tf.Var) (F : nat -> tf.Var -> option tf.ndarray)
    qs x : forall a s,
  (forall j, (a <= j < a + length qs)%nat -> x <> mk j) ->
  tf.sess_value
    (fold_left (fun s '(k, q) => tf.run_initializer (mk k) (F k q) s)
               (enumerate a qs) s) x
  = tf.sess_value s x.
Proof.
  induction qs as [|q qs IH]; intros a s Hx; [reflexivity|].
  simpl. rewrite IH.
  - simpl. rewrite Var_eqb_neq; [reflexivity|]. intro E.
    apply (Hx a); [simpl; lia|now symmetry].
  - intros j Hj. apply Hx. simpl. lia.
Qed.




Lemma initial_momenta_shapes eta draws0 qvs :
  same_shapes qvs (initial_momenta eta draws0 qvs).
Proof.
  unfold initial_momenta. generalize 0%nat.
  induction qvs as [|q qvs IH]; intro a; simpl; constructor.
  - apply shape_of_pointwise.
  - apply IH.
Qed.

Lemma nth_error_initial_momenta eta draws0 qvs k qv :
  nth_error qvs k = Some qv ->
  nth_error (initial_momenta eta draws0 qvs) k
  = Some (tf.pointwise (tf.shape_of qv)
            (fun i => draw_init draws0 k i * sqrt eta + 0)).
Proof.
  intro Hqv. unfold initial_momenta.
  assert (k < length qvs)%nat as Hk by (apply nth_error_Some; congruence).
  rewrite (as_indexed (tf.Scalar 0) qvs) at 1.
  rewrite enumerate_indexed, map_map, nth_error_indexed by assumption.
  now rewrite (nth_error_nth _ _ _ Hqv).
Qed.

Lemma length_initial_momenta eta draws0 qvs :
  length (initial_momenta eta draws0 qvs) = length qvs.
Proof.
  symmetry. apply (Forall2_length (initial_momenta_shapes eta draws0 qvs)).
Qed.

Section SGHMC_first_iteration.
Variable self : SGHMC.t.
Variable sess : tf.Session.
Variable qs : list tf.Var.
Variable qvs : list tf.ndarray.
Variable latent_k : list string.
Variable grad_func : list (option tf.ndarray) -> list (option tf.ndarray).
Variable draws : Draws.
Hypothesis Hperiod : SGHMC.n_iter_resample_v self <> 0%Z.
Hypothesis Hb : bound_latents qs.
Hypothesis Hq : holds sess qs qvs.
Hypothesis Hgrad : shape_preserving grad_func.

Lemma SGHMC_initialize_holds_momenta draws0 :
  holds (initialize self qs draws0 sess) (new_variables tf.vs_var qs)
        (initial_momenta (SGHMC.lr self) draws0 qvs).
Proof.
  pose proof (holds_length _ _ _ Hq) as Hl.
  apply holds_intro.
  - rewrite length_initial_momenta, new_variables_indexed, length_map,
      length_seq. exact Hl.
  - intros k x a Hx Ha. apply nth_error_new_variables in Hx.
    destruct Hx as [-> Hk].
    destruct (nth_error qvs k) as [qv|] eqn:Hqv;
      [|apply nth_error_None in Hqv; lia].
    rewrite (nth_error_initial_momenta _ _ _ _ _ Hqv) in Ha.
    inversion Ha; subst a.
    now apply SGHMC_initialize_momentum with (qvs := qvs).
Qed.


End SGHMC_first_iteration.

Lemma ones_pointwise sh :
  tf.ones (Some sh) = Some (tf.pointwise sh (fun _ => 1)).
Proof.
  destruct sh as [|n]; simpl; [reflexivity|]. do 2 f_equal.
  generalize 0%nat. induction n; intro a; simpl; [reflexivity|].
  now rewrite <- IHn.
Qed.

Lemma initial_friction_shapes self qvs :
  friction_shapes (SGNHT.use_vector_alpha self) qvs
                  (map (initial_friction self) qvs).
Proof.
  unfold friction_shapes, initial_friction, friction_shape.
  induction qvs as [|q qvs IH]; constructor; [|assumption].
  destruct (SGNHT.use_vector_alpha self); [apply shape_of_pointwise|reflexivity].
Qed.

Section SGNHT_initialisation.
Variable self : SGNHT.t.
Variable sess : tf.Session.
Variable draws0 : Draws.
Variable qs : list tf.Var.
Variable qvs : list tf.ndarray.
Hypothesis Hq : holds sess qs qvs.

Let sess0 := tf.mkSession 0 (tf.sess_value sess).
Let F1 := fun k q =>
  tf.random_normal (tf.shape (tf.sess_value sess0 q))
    (tf.sqrt (tf.constant (SGNHT.lr self))) (draw_init draws0 k).
Let F2 := fun (k : nat) q =>
  if SGNHT.use_vector_alpha self
  then (tf.constant (SGNHT.a self)
        * tf.ones (tf.shape (tf.sess_value sess0 q)))%T
  else tf.constant (SGNHT.a self).

Lemma SGNHT_initialize_unfold :
  initialize self qs draws0 sess
  = fold_left (fun s '(k, q) => tf.run_initializer (tf.alphas_var k) (F2 k q) s)
      (enumerate 0 qs)
      (fold_left (fun s '(k, q) => tf.run_initializer (tf.vs_var k) (F1 k q) s)
         (enumerate 0 qs) sess0).
Proof. reflexivity. Qed.

Lemma SGNHT_initialize_t : tf.sess_t (initialize self qs draws0 sess) = 0%Z.
Proof.
  rewrite SGNHT_initialize_unfold.
  now rewrite (init_t tf.alphas_var F2), (init_t tf.vs_var F1).
Qed.

Lemma SGNHT_initialize_other x :
  (forall k, (k < length qs)%nat -> x <> tf.vs_var k) ->
  (forall k, (k < length qs)%nat -> x <> tf.alphas_var k) ->
  tf.sess_value (initialize self qs draws0 sess) x = tf.sess_value sess x.
Proof.
  intros Hv Ha. rewrite SGNHT_initialize_unfold.
  rewrite (init_outside tf.alphas_var F2) by (intros; apply Ha; lia).
  rewrite (init_outside tf.vs_var F1) by (intros; apply Hv; lia).
  reflexivity.
Qed.

Lemma SGNHT_initialize_momentum k qv :
  nth_error qvs k = Some qv ->
  tf.sess_value (initialize self qs draws0 sess) (tf.vs_var k)
  = Some (tf.pointwise (tf.shape_of qv)
            (fun i => draw_init draws0 k i * sqrt (SGNHT.lr self) + 0)).
Proof.
  intro Hqv. rewrite SGNHT_initialize_unfold.
  pose proof (holds_length _ _ _ Hq) as Hl.
  assert (k < length qs)%nat as Hk
    by (rewrite <- Hl; apply nth_error_Some; congruence).
  rewrite (init_outside tf.alphas_var F2) by (intros; discriminate).
  rewrite (init_at tf.vs_var F1 vs_var_inj qs (tf.user_var 0)) by lia.
  rewrite Nat.sub_0_r. unfold F1, sess0. cbn [tf.sess_value].
  rewrite (holds_nth _ _ _ _ _ qv Hq Hk).
  rewrite (nth_error_nth _ _ _ Hqv).
  rewrite (Some_as_pointwise qv _ eq_refl). tensor_simpl. reflexivity.
Qed.

Lemma SGNHT_initialize_friction k qv :
  nth_error qvs k = Some qv ->
  tf.sess_value (initialize self qs draws0 sess) (tf.alphas_var k)
  = Some (initial_friction self qv).
Proof.
  intro Hqv. rewrite SGNHT_initialize_unfold.
  pose proof (holds_length _ _ _ Hq) as Hl.
  assert (k < length qs)%nat as Hk
    by (rewrite <- Hl; apply nth_error_Some; congruence).
  rewrite (init_at tf.alphas_var F2 alphas_var_inj qs (tf.user_var 0)) by lia.
  rewrite Nat.sub_0_r. unfold F2, sess0, initial_friction.
  cbn [tf.sess_value].
  rewrite (holds_nth _ _ _ _ _ qv Hq Hk).
  rewrite (nth_error_nth _ _ _ Hqv).
  destruct (SGNHT.use_vector_alpha self); [|reflexivity].
  rewrite (Some_as_pointwise qv _ eq_refl), shape_pointwise, ones_pointwise.
  tensor_simpl. reflexivity.
Qed.

Lemma SGNHT_initialize_latents :
  bound_latents qs -> holds (initialize self qs draws0 sess) qs qvs.
Proof.
  intros [_ Huser]. apply holds_intro; [now apply (holds_length sess)|].
  intros k x a Hx Ha.
  assert (tf.is_user_var x = true) as Hu.
  { rewrite Forall_forall in Huser. apply Huser.
    now apply nth_error_In with (n := k). }
  rewrite SGNHT_initialize_other.
  - rewrite <- (nth_error_nth _ _ (tf.user_var 0) Hx),
      <- (nth_error_nth _ _ a Ha).
    apply holds_nth; [assumption|]. apply nth_error_Some. congruence.
  - intros j _ ->. discriminate.
  - intros j _ ->. discriminate.
Qed.

Lemma SGNHT_initialize_holds_momenta :
  holds (initialize self qs draws0 sess) (new_variables tf.vs_var qs)
        (initial_momenta (SGNHT.lr self) draws0 qvs).
Proof.
  pose proof (holds_length _ _ _ Hq) as Hl.
  apply holds_intro.
  - rewrite length_initial_momenta, new_variables_indexed, length_map,
      length_seq. exact Hl.
  - intros k x a Hx Ha. apply nth_error_new_variables in Hx.
    destruct Hx as [-> Hk].
    destruct (nth_error qvs k) as [qv|] eqn:Hqv;
      [|apply nth_error_None in Hqv; lia].
    rewrite (nth_error_initial_momenta _ _ _ _ _ Hqv) in Ha.
    inversion Ha; subst a.
    now apply SGNHT_initialize_momentum.
Qed.

Lemma SGNHT_initialize_holds_frictions :
  holds (initialize self qs draws0 sess) (new_variables tf.alphas_var qs)
        (map (initial_friction self) qvs).
Proof.
  pose proof (holds_length _ _ _ Hq) as Hl.
  apply holds_intro.
  - rewrite length_map, new_variables_indexed, length_map, length_seq.
    exact Hl.
  - intros k x a Hx Ha. apply nth_error_new_variables in Hx.
    destruct Hx as [-> Hk]. rewrite nth_error_map in Ha.
    destruct (nth_error qvs k) as [qv|] eqn:Hqv; [|discriminate].
    inversion Ha; subst a.
    now apply SGNHT_initialize_friction.
Qed.
End SGNHT_initialisation.

Section SGNHT_first_iteration.
Variable self : SGNHT.t.
Variable sess : tf.Session.
Variable qs : list tf.Var.
Variable qvs : list tf.ndarray.
Variable latent_k : list string.
Variable grad_func : list (option tf.ndarray) -> list (option tf.ndarray).
Variable draws : Draws.
Hypothesis Hperiod : SGNHT.n_iter_resample_v self <> 0%Z.
Hypothesis Hb : bound_latents qs.
Hypothesis Hq : holds sess qs qvs.
Hypothesis Hgrad : shape_preserving grad_func.

End SGNHT_first_iteration.



(* ================================================================== *)
(** ** make_grad_func *)
(* ================================================================== *)

Lemma check_latent_ok latent_k vs : forall a,
  Forall (fun v => isinstance_Variable v = true) vs ->
  check_latent latent_k (enumerate a vs) = None.
Proof.
  induction vs as [|v vs IH]; intros a Hv; [reflexivity|].
  inversion Hv as [|? ? Hv1 Hv2]; subst. simpl. rewrite Hv1. simpl.
  now apply IH.
Qed.

Lemma check_latent_error latent_k vs : forall a,
  Exists (fun v => isinstance_Variable v = false) vs ->
  exists i v,
    nth_error vs i = Some v /\ isinstance_Variable v = false
    /\ check_latent latent_k (enumerate a vs)
       = Some (not_a_Variable (nth (a + i) latent_k EmptyString)).
Proof.
  induction vs as [|v vs IH]; intros a Hex; [inversion Hex|].
  simpl. destruct (isinstance_Variable v) eqn:Ev; simpl.
  - inversion Hex as [? ? Hv|? ? Hvs]; subst; [congruence|].
    destruct (IH (S a) Hvs) as [i [w [Hi [Hw Hc]]]].
    exists (S i), w. split; [exact Hi|]. split; [exact Hw|].
    rewrite Hc. now rewrite Nat.add_succ_r.
  - exists 0%nat, v. split; [reflexivity|]. split; [exact Ev|].
    now rewrite Nat.add_0_r.
Qed.

Lemma handles_of_variables vs :
  Forall (fun v => isinstance_Variable v = true) vs ->
  map TfVariable (handles vs) = vs.
Proof.
  induction 1 as [|v vs Hv _ IH]; [reflexivity|].
  destruct v; [|discriminate]. unfold handles in *. simpl. now rewrite IH.
Qed.

(** C8, as stated, fails for the empty mapping: no entry is anything but a
    Variable, and the call raises ValueError when it unpacks the transposed
    items. *)
Lemma make_grad_func_empty_latent :
  Forall (fun v => isinstance_Variable v = true)
         (map snd (@nil (string * PyObject)))
  /\ make_grad_func (fun d1 d2 => d1 ++ d2) (fun _ xs => xs)
       (LogJointFunction (fun _ => None)) [] []
     = inl (ValueError "not enough values to unpack (expected 2, got 0)").
Proof. split; [constructor|reflexivity]. Qed.

(** C8, amended. For a latent mapping that is not empty, [make_grad_func]
    raises TypeError, naming an entry that is not a Variable, as soon as the
    mapping has such an entry, and before any sampling call; when every entry
    is a Variable it returns the default gradient function, the gradient
    function parameterised by the observed values, and the list of the
    Variables in the order of the mapping. *)
Theorem make_grad_func_validation
    (merge_dicts : list (string * option tf.ndarray) ->
                   list (string * option tf.ndarray) ->
                   list (string * option tf.ndarray))
    (gradients : (list (option tf.ndarray) -> option tf.ndarray) ->
                 list (option tf.ndarray) -> list (option tf.ndarray))
    (meta_bn : MetaBN) (observed : list (string * option tf.ndarray))
    (latent : list (string * PyObject)) :
  latent <> [] ->
  let latent_k := map fst latent in
  let latent_v := map snd latent in
  let log_joint :=
    match meta_bn with
    | LogJointFunction f => f
    | MetaBayesianNet observe_log_joint => observe_log_joint
    end in
  let get_gradient var_list obs :=
    gradients (fun var_list =>
                 log_joint (merge_dicts (combine latent_k var_list) obs))
              var_list in
  (Exists (fun v => isinstance_Variable v = false) latent_v ->
   exists i v,
     nth_error latent_v i = Some v /\ isinstance_Variable v = false
     /\ make_grad_func merge_dicts gradients meta_bn observed latent
        = inl (TypeError ("latent['" ++ nth i latent_k EmptyString ++
                          "'] is not a tensorflow Variable.")%string))
  /\ (Forall (fun v => isinstance_Variable v = true) latent_v ->
      make_grad_func merge_dicts gradients meta_bn observed latent
      = inr (mkBound latent_k latent_v
               (fun var_list => get_gradient var_list observed),
             (fun var_list => get_gradient var_list observed,
              get_gradient, latent_v))
      /\ map TfVariable (handles latent_v) = latent_v).
Proof.
  intros Hne latent_k latent_v log_joint get_gradient.
  destruct latent as [|e latent']; [congruence|]. split.
  - intro Hex.
    destruct (check_latent_error latent_k latent_v 0 Hex)
      as [i [v [Hi [Hv Hc]]]].
    exists i, v. split; [exact Hi|]. split; [exact Hv|].
    unfold make_grad_func. fold latent_k latent_v. rewrite Hc. reflexivity.
  - intro Hall. split; [|now apply handles_of_variables].
    unfold make_grad_func. fold latent_k latent_v.
    rewrite (check_latent_ok latent_k latent_v 0 Hall).
    destruct meta_bn; reflexivity.
Qed.

(** A mapping with one Variable satisfies the hypothesis of the theorem
    above. *)
Lemma make_grad_func_validation_witness :
  exists g1 g2,
    make_grad_func (fun d1 d2 => d1 ++ d2) (fun _ xs => xs)
      (LogJointFunction (fun _ => None)) []
      [("w"%string, TfVariable (tf.user_var 0))]
    = inr (mkBound ["w"%string] [TfVariable (tf.user_var 0)] g1,
           (g1, g2, [TfVariable (tf.user_var 0)])).
Proof.
  destruct (make_grad_func_validation (fun d1 d2 => d1 ++ d2) (fun _ xs => xs)
              (LogJointFunction (fun _ => None)) []
              [("w"%string, TfVariable (tf.user_var 0))]) as [_ H].
  - discriminate.
  - destruct H as [H _]; [repeat constructor|].
    eexists. eexists. exact H.
Defined.

(* ================================================================== *)
(** ** What a failing gradient leaves behind *)
(* ================================================================== *)

Section RunOutcomes.
Import tf.

Lemma select_incl {A : Type} (mask : list bool) (l : list A) :
  forall a, In a (select mask l) -> In a l.
Proof.
  revert l. induction mask as [|b mask IH]; intros [|x l] a Ha;
    simpl in *; try contradiction.
  destruct b; [destruct Ha as [<-|Ha]|]; auto.
Qed.

Lemma executed_prefix_runnable ops mask :
  executed_prefix ops mask = true ->
  forall o, In o (select mask ops) -> runnable o = true.
Proof.
  unfold executed_prefix. intros H o Ho.
  apply andb_true_iff in H. destruct H as [_ H].
  rewrite forallb_forall in H. specialize (H o Ho).
  now apply andb_true_iff in H.
Qed.

(** In every outcome the nodes that took effect were nodes of the
    operation that could execute. *)
Lemma run_committed op s o :
  run op s o ->
  exists done,
    (forall n, In n done -> In n op /\ runnable n = true)
    /\ (o = Completed (commit_all done s) \/ o = Raised (commit_all done s)).
Proof.
  intros [Hall | mask Hsome Hmask].
  - exists op. split; [|now left]. intros n Hn. split; [assumption|].
    rewrite forallb_forall in Hall. now apply Hall.
  - exists (select mask op). split; [|now right]. intros n Hn. split.
    + now apply select_incl in Hn.
    + now apply (executed_prefix_runnable op mask).
Qed.

(** A Variable whose writers cannot execute keeps its value, whatever the
    outcome of the run. *)
Lemma run_preserves op s o x :
  (forall n, In n op -> writes n x = true -> runnable n = false) ->
  run op s o ->
  forall s', o = Completed s' \/ o = Raised s' ->
             sess_value s' x = sess_value s x.
Proof.
  intros Hw Hrun s' Ho.
  destruct (run_committed op s o Hrun) as [done [Hdone Hout]].
  assert (s' = commit_all done s) as ->
    by (destruct Ho as [->| ->]; destruct Hout as [E|E]; congruence).
  rewrite commit_all_value, written_none; [reflexivity|].
  intros n Hn. destruct (Hdone n Hn) as [Hin Hr].
  destruct (writes n x) eqn:E; [|reflexivity].
  rewrite (Hw n Hin E) in Hr. discriminate.
Qed.




Lemma binary_None_l f b : binary f None b = None.
Proof. reflexivity. Qed.

End RunOutcomes.

Lemma nth_error_combine {A B : Type} (l1 : list A) (l2 : list B) k :
  nth_error (combine l1 l2) k
  = match nth_error l1 k, nth_error l2 k with
    | Some a, Some b => Some (a, b)
    | _, _ => None
    end.
Proof.
  revert l2 k. induction l1 as [|a l1 IH]; intros [|b l2] [|k]; simpl;
    try reflexivity.
  - now destruct (nth_error l1 k).
  - apply IH.
Qed.

Lemma nth_error_enumerate {A : Type} (l : list A) a k :
  nth_error (enumerate a l) k = option_map (fun x => ((a + k)%nat, x)) (nth_error l k).
Proof.
  revert a k. induction l as [|x l IH]; intros a [|k]; simpl; try reflexivity.
  - now rewrite Nat.add_0_r.
  - rewrite IH. now rewrite Nat.add_succ_r.
Qed.

Lemma In_enumerate {A : Type} (l : list A) j x :
  In (j, x) (enumerate 0 l) -> nth_error l j = Some x.
Proof.
  intro Hin. apply In_nth_error in Hin. destruct Hin as [k Hk].
  rewrite nth_error_enumerate in Hk.
  destruct (nth_error l k) eqn:E; [|discriminate].
  simpl in Hk. inversion Hk; subst. exact E.
Qed.

Lemma In_combine_nth_error {A B : Type} (l1 : list A) (l2 : list B) a b :
  In (a, b) (combine l1 l2) ->
  exists k, nth_error l1 k = Some a /\ nth_error l2 k = Some b.
Proof.
  intro Hin. apply In_nth_error in Hin. destruct Hin as [k Hk].
  rewrite nth_error_combine in Hk. exists k.
  destruct (nth_error l1 k), (nth_error l2 k); try discriminate.
  inversion Hk; subst. auto.
Qed.

Lemma length_enumerate {A : Type} (l : list A) a :
  length (enumerate a l) = length l.
Proof. revert a. induction l; intro; simpl; [reflexivity|]. now rewrite IHl. Qed.

Lemma length_new_variables mk qs : length (new_variables mk qs) = length qs.
Proof. now rewrite new_variables_indexed, length_map, length_seq. Qed.

Lemma nth_error_exists {A : Type} (l : list A) k :
  (k < length l)%nat -> exists a, nth_error l k = Some a.
Proof.
  intro Hk. destruct (nth_error l k) eqn:E; [eauto|].
  apply nth_error_None in E. lia.
Qed.


Ltac lengths :=
  repeat (progress (rewrite ?length_map, ?length_combine)); lia.

(** *** SGHMC: every assignment waits for every new value *)

Section SGHMC_failure.
Import tf.
Variables (self : SGHMC.t) (draws : Draws) (sess : Session).
Variables (qs : list Var) (grad_func : grad_fn) (k : nat).
Hypothesis Hk : (k < length qs)%nat.
Hypothesis Hfail : forall inputs, nth_error (grad_func inputs) k = Some None.

Let vs := new_variables vs_var qs.
Let OV := SGHMC.old_vs self draws sess vs.
Let GT := SGHMC.gaussian_terms self draws OV.








End SGHMC_failure.

(** *** SGNHT: every assignment waits for every new value *)

Section SGNHT_failure.
Import tf.
Variables (self : SGNHT.t) (draws : Draws) (sess : Session).
Variables (qs : list Var) (grad_func : grad_fn) (k : nat).
Hypothesis Hk : (k < length qs)%nat.
Hypothesis Hfail : forall inputs, nth_error (grad_func inputs) k = Some None.

Let vs := new_variables vs_var qs.
Let alphas := new_variables alphas_var qs.
Let OV := SGNHT.old_vs self draws sess vs.
Let GT := SGNHT.gaussian_terms self draws OV.









End SGNHT_failure.

(** *** SGLD: each latent variable is assigned on its own *)

Section SGLD_failure.
Import tf.
Variables (self : SGLD.t) (draws : Draws) (sess : Session).
Variables (qs : list Var) (grad_func : grad_fn).

Let grads := grad_func (map (sess_value sess) qs).
Let rows :=
  map (fun '(k, (q, grad)) =>
         SGLD._update_single self sess (draw_noise draws k) q grad)
      (enumerate 0 (combine qs grads)).


Lemma SGLD_nodes n :
  In n (group (map (fun r => fst (fst r)) rows)) ->
  exists j q grad,
    nth_error qs j = Some q /\ nth_error grads j = Some grad
    /\ In n (fst (fst (SGLD._update_single self sess
                         (draw_noise draws j) q grad))).
Proof.
  unfold group, rows. rewrite map_map. intro Hn.
  apply in_concat in Hn. destruct Hn as [row [Hrow Hn]].
  apply in_map_iff in Hrow. destruct Hrow as [[j [q grad]] [<- Hin]].
  apply In_enumerate in Hin. rewrite nth_error_combine in Hin.
  destruct (nth_error qs j) eqn:Eq; [|discriminate].
  destruct (nth_error grads j) eqn:Eg; [|discriminate].
  inversion Hin; subst. exists j, q, grad. auto.
Qed.

Lemma SGLD_node_of_row j q grad :
  nth_error qs j = Some q -> nth_error grads j = Some grad ->
  forall n,
    In n (fst (fst (SGLD._update_single self sess
                      (draw_noise draws j) q grad))) ->
    In n (group (map (fun r => fst (fst r)) rows)).
Proof.
  intros Eq Eg n Hn. unfold group, rows. rewrite map_map.
  apply in_concat. eexists. split; [|exact Hn].
  apply in_map_iff. exists (j, (q, grad)). split; [reflexivity|].
  apply (nth_error_In _ j).
  now rewrite nth_error_enumerate, nth_error_combine, Eq, Eg.
Qed.

Variables (k : nat) (q : Var).
Hypothesis Hdistinct : NoDup qs.
Hypothesis Hq : nth_error qs k = Some q.
Hypothesis Hfail : nth_error grads k = Some None.

End SGLD_failure.

(** *** PSGLD: accumulator and latent variable of each position *)

Section PSGLD_failure.
Import tf.
Variables (self : PSGLD.t) (draws : Draws) (sess : Session).
Variables (qs : list Var) (grad_func : grad_fn).

Let grads := grad_func (map (sess_value sess) qs).
Let vs := new_variables vs_var qs.
Let rows :=
  map (fun '(k, (q, (grad, aux))) =>
         PSGLD._update_single self sess (draw_noise draws k) q grad aux)
      (enumerate 0 (combine qs (combine grads vs))).



Lemma PSGLD_nodes n :
  In n (group (map (fun r => fst (fst r)) rows)) ->
  exists j q grad,
    nth_error qs j = Some q /\ nth_error grads j = Some grad
    /\ In n (fst (fst (PSGLD._update_single self sess
                         (draw_noise draws j) q grad (vs_var j)))).
Proof.
  unfold group, rows. rewrite map_map. intro Hn.
  apply in_concat in Hn. destruct Hn as [row [Hrow Hn]].
  apply in_map_iff in Hrow. destruct Hrow as [[j [q [grad aux]]] [<- Hin]].
  apply In_enumerate in Hin. rewrite !nth_error_combine in Hin.
  destruct (nth_error qs j) eqn:Eq; [|discriminate].
  destruct (nth_error grads j) eqn:Eg; [|discriminate].
  destruct (nth_error vs j) eqn:Ev; [|discriminate].
  inversion Hin; subst.
  apply nth_error_new_variables in Ev. destruct Ev as [-> _].
  exists j, q, grad. auto.
Qed.

Lemma PSGLD_node_of_row j q grad :
  nth_error qs j = Some q -> nth_error grads j = Some grad ->
  forall n,
    In n (fst (fst (PSGLD._update_single self sess
                      (draw_noise draws j) q grad (vs_var j)))) ->
    In n (group (map (fun r => fst (fst r)) rows)).
Proof.
  intros Eq Eg n Hn. unfold group, rows. rewrite map_map.
  apply in_concat. eexists. split; [|exact Hn].
  apply in_map_iff. exists (j, (q, (grad, vs_var j))). split; [reflexivity|].
  apply (nth_error_In _ j).
  rewrite nth_error_enumerate, !nth_error_combine, Eq, Eg.
  unfold vs. rewrite new_variables_indexed, nth_error_indexed; [reflexivity|].
  apply nth_error_Some. rewrite Eq. discriminate.
Qed.

Variables (k : nat) (q : Var).
Hypothesis Hbound : bound_latents qs.
Hypothesis Hq : nth_error qs k = Some q.
Hypothesis Hfail : nth_error grads k = Some None.

End PSGLD_failure.




(* ================================================================== *)
(** ** Further properties of the samplers *)
(* ================================================================== *)




(** *** What the sampling operation writes *)

Section Targets.
Import tf.

Lemma assigns_to_is_assign targets ops :
  Forall (assigns_to targets) ops ->
  Forall (fun o => match o with Assign _ _ _ _ => True | _ => False end) ops.
Proof.
  apply Forall_impl. intros [ref v ctl aft | d]; simpl; tauto.
Qed.



(** A completed run of a counter increment and assignments advances the
    counter by one. *)
Lemma Session_run_counter targets ops s s' :
  Forall (assigns_to targets) ops ->
  Session_run (AssignAdd_t 1 :: ops) s = Some s' ->
  sess_t s' = int32 (sess_t s + 1).
Proof.
  intros Hf Hrun. unfold Session_run in Hrun.
  destruct (forallb runnable (AssignAdd_t 1 :: ops)); [|discriminate].
  inversion Hrun; subst s'.
  change (commit_all (AssignAdd_t 1 :: ops) s)
    with (commit_all ops (commit s (AssignAdd_t 1))).
  rewrite commit_all_t_Assign by now apply (assigns_to_is_assign targets).
  reflexivity.
Qed.

Lemma assigns_to_incl t1 t2 n :
  incl t1 t2 -> assigns_to t1 n -> assigns_to t2 n.
Proof. intros Hi. destruct n; simpl; auto. Qed.

Lemma SGLD_targets (self : SGLD.t) draws sess qs grad_func ops new_qs infos :
  _update self draws sess qs grad_func = Some (ops, new_qs, infos) ->
  Forall (assigns_to qs) (group ops).
Proof.
  cbn [_update SGLD.SGLD_Subclass]. unfold SGLD._update, unzip3.
  destruct (map _ _) as [|r rows] eqn:E; [discriminate|].
  intro Hs. inversion Hs; subst.
  change (fst (fst r) :: map (fun r0 => fst (fst r0)) rows)
    with (map (fun r0 : list Node * option ndarray * Info => fst (fst r0))
              (r :: rows)).
  rewrite <- E.
  apply Forall_forall. intros n Hn.
  destruct (SGLD_nodes self draws sess qs grad_func n Hn)
    as [j [q [grad [Ej [_ Hin]]]]].
  unfold SGLD._update_single in Hin. cbv zeta in Hin. cbn [fst] in Hin.
  destruct Hin as [<-|[]]. simpl. now apply (nth_error_In _ j).
Qed.

Lemma PSGLD_targets (self : PSGLD.t) draws sess qs grad_func ops new_qs infos :
  _update self draws sess qs grad_func = Some (ops, new_qs, infos) ->
  Forall (assigns_to (qs ++ new_variables vs_var qs)) (group ops).
Proof.
  cbn [_update PSGLD.PSGLD_Subclass]. unfold PSGLD._update, unzip3.
  cbv zeta.
  destruct (map _ _) as [|r rows] eqn:E; [discriminate|].
  intro Hs. inversion Hs; subst.
  change (fst (fst r) :: map (fun r0 => fst (fst r0)) rows)
    with (map (fun r0 : list Node * option ndarray * Info => fst (fst r0))
              (r :: rows)).
  rewrite <- E.
  apply Forall_forall. intros n Hn.
  destruct (PSGLD_nodes self draws sess qs grad_func n Hn)
    as [j [q [grad [Ej [_ Hin]]]]].
  assert (j < length qs)%nat as Hj
    by (apply nth_error_Some; rewrite Ej; discriminate).
  unfold PSGLD._update_single, PSGLD.RMSPreconditioner._get_preconditioner
    in Hin. cbv zeta in Hin. cbn [fst] in Hin.
  destruct Hin as [<-|[<-|[]]]; simpl; apply in_or_app.
  - right. rewrite new_variables_indexed. apply in_map_iff.
    exists j. split; [reflexivity|]. apply in_seq. lia.
  - left. now apply (nth_error_In _ j).
Qed.

Lemma In_new_variables mk qs v (nv : list Var) w :
  In (v, w) (combine (new_variables mk qs) nv) -> In v (new_variables mk qs).
Proof. apply in_combine_l. Qed.

Lemma SGHMC_update_ops_targets sess qs vs new_vs new_qs :
  Forall (assigns_to (qs ++ vs))
         (group (SGHMC.update_ops sess qs vs new_vs new_qs)).
Proof.
  apply Forall_forall. intros n Hn.
  unfold group, SGHMC.update_ops in Hn.
  apply in_concat in Hn. destruct Hn as [row [Hrow Hn]].
  apply in_map_iff in Hrow. destruct Hrow as [[uq uv] [<- Hpair]].
  pose proof (in_combine_l _ _ _ _ Hpair) as Hq.
  pose proof (in_combine_r _ _ _ _ Hpair) as Hv.
  apply in_map_iff in Hq. destruct Hq as [[q nq] [<- Hq]].
  apply in_map_iff in Hv. destruct Hv as [[v nv] [<- Hv]].
  apply in_combine_l in Hq. apply in_combine_l in Hv.
  simpl in Hn. destruct Hn as [<-|[<-|[]]]; simpl; apply in_or_app; auto.
Qed.

Lemma SGHMC_targets (self : SGHMC.t) draws sess qs grad_func ops new_qs infos :
  _update self draws sess qs grad_func = Some (ops, new_qs, infos) ->
  Forall (assigns_to (qs ++ new_variables vs_var qs)) (group ops).
Proof.
  cbn [_update SGHMC.SGHMC_Subclass]. unfold SGHMC._update. cbv zeta.
  destruct (if negb (SGHMC.second_order self) then _ else _) as [nv nq].
  intro Hs. inversion Hs; subst. apply SGHMC_update_ops_targets.
Qed.

Lemma SGNHT_update_ops_targets sess qs vs alphas new_vs new_qs new_alphas :
  Forall (assigns_to (qs ++ vs ++ alphas))
         (group (SGNHT.update_ops sess qs vs alphas new_vs new_qs new_alphas)).
Proof.
  apply Forall_forall. intros n Hn.
  unfold group, SGNHT.update_ops in Hn.
  apply in_concat in Hn. destruct Hn as [row [Hrow Hn]].
  apply in_map_iff in Hrow. destruct Hrow as [[uq [uv ua]] [<- Hpair]].
  pose proof (in_combine_l _ _ _ _ Hpair) as Hq.
  pose proof (in_combine_r _ _ _ _ Hpair) as Hva.
  pose proof (in_combine_l _ _ _ _ Hva) as Hv.
  pose proof (in_combine_r _ _ _ _ Hva) as Ha.
  apply in_map_iff in Hq. destruct Hq as [[q nq] [<- Hq]].
  apply in_map_iff in Hv. destruct Hv as [[v nv] [<- Hv]].
  apply in_map_iff in Ha. destruct Ha as [[al na] [<- Ha]].
  apply in_combine_l in Hq. apply in_combine_l in Hv. apply in_combine_l in Ha.
  simpl in Hn.
  destruct Hn as [<-|[<-|[<-|[]]]]; simpl; rewrite !in_app_iff; auto.
Qed.

Lemma SGNHT_targets (self : SGNHT.t) draws sess qs grad_func ops new_qs infos :
  _update self draws sess qs grad_func = Some (ops, new_qs, infos) ->
  Forall (assigns_to (qs ++ new_variables vs_var qs
                         ++ new_variables alphas_var qs)) (group ops).
Proof.
  cbn [_update SGNHT.SGNHT_Subclass]. unfold SGNHT._update. cbv zeta.
  destruct (if negb (SGNHT.second_order self) then _ else _)
    as [[[nv nq] mk] na].
  intro Hs. inversion Hs; subst. apply SGNHT_update_ops_targets.
Qed.
End Targets.

Lemma int32_succ z : tf.int32 (tf.int32 z + 1) = tf.int32 (z + 1).
Proof.
  unfold tf.int32. f_equal.
  replace ((z + 2 ^ 31) mod 2 ^ 32 - 2 ^ 31 + 1 + 2 ^ 31)%Z
    with ((z + 2 ^ 31) mod 2 ^ 32 + 1)%Z by ring.
  rewrite Zplus_mod_idemp_l. f_equal. ring.
Qed.

Lemma int32_in_range z :
  (- 2 ^ 31 <= z < 2 ^ 31)%Z -> tf.int32 z = z.
Proof.
  intro Hz. unfold tf.int32. rewrite Z.mod_small; lia.
Qed.

(** A sampler whose [_update] only assigns to the Variables [targets qs]. *)
Section AssignsOnly.
Import tf.
Context {Self : Type} `{Subclass Self}.
Variable targets : list Var -> list Var.
Hypothesis Htargets :
  forall (self : Self) draws sess qs grad_func ops new_qs infos,
    _update self draws sess qs grad_func = Some (ops, new_qs, infos) ->
    Forall (assigns_to (targets qs)) (group ops).

Lemma sample_targets (self : Self) qs latent_k default grad_func draws sess
    sample_op new_samples sample_info :
  sample self qs latent_k default grad_func draws sess
  = Some (sample_op, new_samples, sample_info) ->
  exists ops, sample_op = AssignAdd_t 1 :: ops
              /\ Forall (assigns_to (targets qs)) ops.
Proof.
  unfold sample.
  destruct (_update self draws sess qs _) as [[[ops nq] infos]|] eqn:E;
    [|discriminate].
  intro Hs. inversion Hs; subst. eexists. split; [reflexivity|].
  exact (Htargets _ _ _ _ _ _ _ _ E).
Qed.


Lemma iteration_counter (self : Self) qs latent_k grad_func draws sess sess' :
  iteration self qs latent_k grad_func draws sess = Some sess' ->
  sess_t sess' = int32 (sess_t sess + 1).
Proof.
  unfold iteration.
  destruct (sample self qs latent_k grad_func None draws sess)
    as [[[op ns] info]|] eqn:E; [|discriminate].
  destruct (sample_targets _ _ _ _ _ _ _ _ _ _ E) as [ops [-> Hf]].
  now apply Session_run_counter with (targets := targets qs).
Qed.

Lemma iterations_counter (self : Self) qs latent_k grad_func draws n :
  forall sess sess',
    iterations self qs latent_k grad_func draws n sess = Some sess' ->
    (- 2 ^ 31 <= sess_t sess)%Z ->
    (sess_t sess + Z.of_nat n < 2 ^ 31)%Z ->
    sess_t sess' = (sess_t sess + Z.of_nat n)%Z.
Proof.
  induction n as [|n IH]; intros sess sess' Hit Hlo Hhi.
  - simpl in Hit. inversion Hit; subst. lia.
  - cbn [iterations] in Hit.
    destruct (iterations self qs latent_k grad_func draws n sess)
      as [s|] eqn:E; [|discriminate].
    apply iteration_counter in Hit.
    rewrite (IH sess s E Hlo) in Hit by lia.
    rewrite Hit, int32_in_range; lia.
Qed.
End AssignsOnly.

(** X2. Each completed iteration of a sampler advances the iteration counter
    by one (in int32 arithmetic), whatever the sampler; as long as the
    counter stays in the int32 range, [n] completed iterations advance it by
    exactly [n]. *)
Theorem counter_counts_iterations :
  (forall (self : SGLD.t) qs latent_k grad_func sess,
      (forall draws sess',
          iteration self qs latent_k grad_func draws sess = Some sess' ->
          tf.sess_t sess' = tf.int32 (tf.sess_t sess + 1))
      /\ (forall draws n sess',
          iterations self qs latent_k grad_func draws n sess = Some sess' ->
          (- 2 ^ 31 <= tf.sess_t sess)%Z ->
          (tf.sess_t sess + Z.of_nat n < 2 ^ 31)%Z ->
          tf.sess_t sess' = (tf.sess_t sess + Z.of_nat n)%Z))
  /\ (forall (self : PSGLD.t) qs latent_k grad_func sess,
      (forall draws sess',
          iteration self qs latent_k grad_func draws sess = Some sess' ->
          tf.sess_t sess' = tf.int32 (tf.sess_t sess + 1))
      /\ (forall draws n sess',
          iterations self qs latent_k grad_func draws n sess = Some sess' ->
          (- 2 ^ 31 <= tf.sess_t sess)%Z ->
          (tf.sess_t sess + Z.of_nat n < 2 ^ 31)%Z ->
          tf.sess_t sess' = (tf.sess_t sess + Z.of_nat n)%Z))
  /\ (forall (self : SGHMC.t) qs latent_k grad_func sess,
      (forall draws sess',
          iteration self qs latent_k grad_func draws sess = Some sess' ->
          tf.sess_t sess' = tf.int32 (tf.sess_t sess + 1))
      /\ (forall draws n sess',
          iterations self qs latent_k grad_func draws n sess = Some sess' ->
          (- 2 ^ 31 <= tf.sess_t sess)%Z ->
          (tf.sess_t sess + Z.of_nat n < 2 ^ 31)%Z ->
          tf.sess_t sess' = (tf.sess_t sess + Z.of_nat n)%Z))
  /\ (forall (self : SGNHT.t) qs latent_k grad_func sess,
      (forall draws sess',
          iteration self qs latent_k grad_func draws sess = Some sess' ->
          tf.sess_t sess' = tf.int32 (tf.sess_t sess + 1))
      /\ (forall draws n sess',
          iterations self qs latent_k grad_func draws n sess = Some sess' ->
          (- 2 ^ 31 <= tf.sess_t sess)%Z ->
          (tf.sess_t sess + Z.of_nat n < 2 ^ 31)%Z ->
          tf.sess_t sess' = (tf.sess_t sess + Z.of_nat n)%Z)).
Proof.
  split; [|split; [|split]]; intros self qs latent_k grad_func sess;
    split.
  - intros draws sess'. apply (iteration_counter (fun qs => qs) SGLD_targets).
  - intros draws n sess'. apply (iterations_counter (fun qs => qs) SGLD_targets).
  - intros draws sess'. apply (iteration_counter _ PSGLD_targets).
  - intros draws n sess'. apply (iterations_counter _ PSGLD_targets).
  - intros draws sess'. apply (iteration_counter _ SGHMC_targets).
  - intros draws n sess'. apply (iterations_counter _ SGHMC_targets).
  - intros draws sess'. apply (iteration_counter _ SGNHT_targets).
  - intros draws n sess'. apply (iterations_counter _ SGNHT_targets).
Qed.

(** One SGLD iteration of the quadratic scenario completes; the theorem
    above gives its counter. *)
Lemma counter_counts_iterations_witness :
  exists sess',
    iteration (SGLD.__init__ 0.01 (Some false)) [tf.user_var 0]
      ["q"%string] grad_quadratic zero_draws quadratic_session = Some sess'
    /\ tf.sess_t sess' = tf.int32 (0 + 1).
Proof.
  destruct (SGLD_iteration (SGLD.__init__ 0.01 (Some false))
              quadratic_session zero_draws [tf.user_var 0] [tf.Dense [10]]
              [tf.Dense [- (10)]] ["q"%string] grad_quadratic)
    as [sess' [Hrun _]].
  - repeat constructor. intros [].
  - discriminate.
  - reflexivity.
  - reflexivity.
  - repeat constructor.
  - exists sess'. split; [exact Hrun|].
    exact (proj1 (proj1 counter_counts_iterations
                    (SGLD.__init__ 0.01 (Some false)) [tf.user_var 0]
                    ["q"%string] grad_quadratic quadratic_session)
                 zero_draws sess' Hrun).
Defined.



(** *** Chains of iterations *)

Lemma same_shapes_sym l1 l2 : same_shapes l1 l2 -> same_shapes l2 l1.
Proof. induction 1; constructor; [congruence|assumption]. Qed.

Lemma same_shapes_indexed (l : list tf.ndarray) (F : nat -> tf.ndarray) d :
  (forall k, (k < length l)%nat ->
             tf.shape_of (F k) = tf.shape_of (nth k l d)) ->
  same_shapes l (map F (seq 0 (length l))).
Proof.
  assert (forall a,
             (forall k, (k < length l)%nat ->
                        tf.shape_of (F (a + k)%nat) = tf.shape_of (nth k l d)) ->
             same_shapes l (map F (seq a (length l)))) as Hgen.
  { induction l as [|x l IH]; intros a HF; simpl; constructor.
    - specialize (HF 0%nat). rewrite Nat.add_0_r in HF. apply HF. simpl. lia.
    - apply IH. intros k Hk. specialize (HF (S k)).
      rewrite Nat.add_succ_r in HF. apply HF. simpl. lia. }
  intro HF. apply (Hgen 0%nat). exact HF.
Qed.

Lemma holds_indexed sess xs (F : nat -> tf.ndarray) :
  (forall k x, nth_error xs k = Some x -> tf.sess_value sess x = Some (F k)) ->
  holds sess xs (map F (seq 0 (length xs))).
Proof.
  intro HF. apply holds_intro; [now rewrite length_map, length_seq|].
  intros k x a Hx Ha.
  assert (k < length xs)%nat as Hk by (apply nth_error_Some; congruence).
  rewrite nth_error_indexed in Ha by assumption.
  inversion Ha; subst. now apply HF.
Qed.

Lemma new_variables_nth_error mk qs k :
  (k < length qs)%nat -> nth_error (new_variables mk qs) k = Some (mk k).
Proof.
  intro Hk. rewrite new_variables_indexed. now apply nth_error_indexed.
Qed.

Lemma SGHMC_new_v_shape self sess draws k v g :
  tf.shape_of (SGHMC_new_v self sess draws k v g) = tf.shape_of v.
Proof.
  unfold SGHMC_new_v, second_order_v, first_order_v, SGHMC_old_v.
  destruct (SGHMC.second_order self);
    now rewrite shape_of_pointwise, momentum_used_shape.
Qed.

Lemma SGHMC_new_q_shape self sess draws k q v g :
  tf.shape_of (SGHMC_new_q self sess draws k q v g) = tf.shape_of q.
Proof.
  unfold SGHMC_new_q, second_order_q, first_order_q, half_step.
  destruct (SGHMC.second_order self); now rewrite !shape_of_pointwise.
Qed.

(** One SGHMC iteration keeps the latent variables and the momenta
    initialised, in the shapes [qvs0]. *)
Lemma SGHMC_step (self : SGHMC.t) sess draws qs qvs0 qvs vvs latent_k grad_func :
  bound_latents qs -> shape_preserving grad_func ->
  holds sess qs qvs -> holds sess (new_variables tf.vs_var qs) vvs ->
  same_shapes qvs0 qvs -> same_shapes qvs0 vvs ->
  exists sess' qvs' vvs',
    iteration self qs latent_k grad_func draws sess = Some sess'
    /\ holds sess' qs qvs'
    /\ holds sess' (new_variables tf.vs_var qs) vvs'
    /\ same_shapes qvs0 qvs' /\ same_shapes qvs0 vvs'.
Proof.
  intros Hb Hgrad Hq Hv Hsq Hsv.
  assert (same_shapes qvs vvs) as Hqv
    by (eapply same_shapes_trans; [apply same_shapes_sym|]; eassumption).
  destruct (Hgrad (SGHMC_points self sess draws qvs vvs)) as [gs [Hg Hsg]].
  assert (same_shapes qvs gs) as Hsh
    by (eapply same_shapes_trans; [|exact Hsg]; now apply SGHMC_points_shapes).
  destruct (SGHMC_iteration self sess draws qs qvs vvs gs latent_k grad_func
              Hb Hq Hv Hqv Hg Hsh) as [sess' [Hrun [_ [Hval _]]]].
  pose proof (holds_length _ _ _ Hq) as Lq.
  pose proof (Forall2_length Hsq) as L0.
  pose proof (Forall2_length Hqv) as Lv.
  pose proof (Forall2_length Hsh) as Lg.
  set (d := tf.Scalar 0).
  assert (forall k q, nth_error qs k = Some q ->
            tf.sess_value sess' (tf.vs_var k)
            = Some (SGHMC_new_v self sess draws k (nth k vvs d) (nth k gs d))
            /\ tf.sess_value sess' q
               = Some (SGHMC_new_q self sess draws k (nth k qvs d)
                         (nth k vvs d) (nth k gs d))) as Hstep.
  { intros k q Hk.
    assert (k < length qs)%nat as Hlt by (apply nth_error_Some; congruence).
    apply Hval; try assumption; apply nth_error_nth'; lia. }
  exists sess',
    (map (fun k => SGHMC_new_q self sess draws k (nth k qvs d)
                     (nth k vvs d) (nth k gs d)) (seq 0 (length qs))),
    (map (fun k => SGHMC_new_v self sess draws k (nth k vvs d) (nth k gs d))
         (seq 0 (length (new_variables tf.vs_var qs)))).
  split; [exact Hrun|]. split; [|split; [|split]].
  - apply holds_indexed. intros k x Hx. now apply Hstep.
  - apply holds_indexed. intros k x Hx.
    apply nth_error_new_variables in Hx. destruct Hx as [-> Hk].
    destruct (nth_error_exists qs k Hk) as [q Eq]. now apply (Hstep k q).
  - replace (length qs) with (length qvs0) by lia.
    apply same_shapes_indexed with (d := d). intros k Hk.
    rewrite SGHMC_new_q_shape. now apply same_shapes_nth.
  - rewrite length_new_variables. replace (length qs) with (length qvs0) by lia.
    apply same_shapes_indexed with (d := d). intros k Hk.
    rewrite SGHMC_new_v_shape. now apply same_shapes_nth.
Qed.

Lemma SGHMC_chain (self : SGHMC.t) (sess : tf.Session)
    (qs : list tf.Var) (qvs : list tf.ndarray) (latent_k : list string)
    (grad_func : list (option tf.ndarray) -> list (option tf.ndarray))
    (draws0 : Draws) (draws : nat -> Draws) (n : nat) :
  bound_latents qs ->
  holds sess qs qvs ->
  shape_preserving grad_func ->
  exists sess' qvs' vvs',
    iterations self qs latent_k grad_func draws n
      (initialize self qs draws0 sess) = Some sess'
    /\ holds sess' qs qvs' /\ same_shapes qvs qvs'
    /\ holds sess' (new_variables tf.vs_var qs) vvs' /\ same_shapes qvs vvs'
    /\ ((Z.of_nat n < 2 ^ 31)%Z -> tf.sess_t sess' = Z.of_nat n).
Proof.
  intros Hb Hq Hgrad.
  assert (exists sess' qvs' vvs',
             iterations self qs latent_k grad_func draws n
               (initialize self qs draws0 sess) = Some sess'
             /\ holds sess' qs qvs' /\ holds sess' (new_variables tf.vs_var qs) vvs'
             /\ same_shapes qvs qvs' /\ same_shapes qvs vvs')
    as [sess' [qvs' [vvs' [Hrun [Hq' [Hv' [Hsq Hsv]]]]]]].
  { induction n as [|n IH].
    - exists (initialize self qs draws0 sess), qvs,
        (initial_momenta (SGHMC.lr self) draws0 qvs).
      split; [reflexivity|]. split; [now apply SGHMC_initialize_latents|].
      split; [now apply SGHMC_initialize_holds_momenta|].
      split; [apply same_shapes_refl|apply initial_momenta_shapes].
    - destruct IH as [s [qvs1 [vvs1 [Hrun [Hq1 [Hv1 [Hsq Hsv]]]]]]].
      destruct (SGHMC_step self s (draws n) qs qvs qvs1 vvs1 latent_k
                  grad_func Hb Hgrad Hq1 Hv1 Hsq Hsv)
        as [s' [qvs' [vvs' [Hit H']]]].
      exists s', qvs', vvs'. split; [|exact H'].
      cbn [iterations]. now rewrite Hrun. }
  exists sess', qvs', vvs'.
  split; [exact Hrun|]. split; [exact Hq'|]. split; [exact Hsq|].
  split; [exact Hv'|]. split; [exact Hsv|].
  intro Hn.
  rewrite (iterations_counter _ SGHMC_targets self qs latent_k grad_func
             draws n _ sess' Hrun);
    rewrite SGHMC_initialize_t; lia.
Qed.

(** X4. A chain of SGHMC iterations never fails: started from the Variables as
    [sample] creates them, with a gradient function that returns gradients
    of the shapes of its inputs, any number of iterations completes; the
    latent variables and the momenta keep their shapes, and the counter (below
    the int32 limit) is the number of iterations. *)
Theorem SGHMC_chain_completes (self : SGHMC.t) (sess : tf.Session)
    (qs : list tf.Var) (qvs : list tf.ndarray) (latent_k : list string)
    (grad_func : list (option tf.ndarray) -> list (option tf.ndarray))
    (draws0 : Draws) (draws : nat -> Draws) (n : nat) :
  bound_latents qs ->
  holds sess qs qvs ->
  shape_preserving grad_func ->
  exists sess' qvs' vvs',
    iterations self qs latent_k grad_func draws n
      (initialize self qs draws0 sess) = Some sess'
    /\ holds sess' qs qvs' /\ same_shapes qvs qvs'
    /\ holds sess' (new_variables tf.vs_var qs) vvs' /\ same_shapes qvs vvs'
    /\ ((Z.of_nat n < 2 ^ 31)%Z -> tf.sess_t sess' = Z.of_nat n).
Proof. apply SGHMC_chain. Qed.

(** The quadratic scenario satisfies the hypotheses of the theorem above. *)
Lemma SGHMC_chain_completes_witness :
  exists sess',
    iterations (SGHMC.mk 0.01 0.25 0 20 true) [tf.user_var 0] ["q"%string]
      grad_quadratic (fun _ => zero_draws) 3
      (initialize (SGHMC.mk 0.01 0.25 0 20 true) [tf.user_var 0] zero_draws
         quadratic_session)
    = Some sess'
    /\ tf.sess_t sess' = 3%Z.
Proof.
  destruct (SGHMC_chain_completes (SGHMC.mk 0.01 0.25 0 20 true)
              quadratic_session [tf.user_var 0] [tf.Dense [10]]
              ["q"%string] grad_quadratic zero_draws (fun _ => zero_draws) 3)
    as [sess' [qvs' [vvs' [Hrun [_ [_ [_ [_ Ht]]]]]]]].
  - split; repeat constructor. intros [].
  - reflexivity.
  - apply shape_preserving_quadratic.
  - exists sess'. split; [exact Hrun|]. apply Ht. reflexivity.
Defined.

Lemma friction_shapes_same vector l1 l2 avs :
  same_shapes l1 l2 -> friction_shapes vector l1 avs ->
  friction_shapes vector l2 avs.
Proof.
  intro Hs. revert avs.
  induction Hs as [|a b l1 l2 Hab Hs IH]; intros avs Hf;
    inversion Hf; subst; constructor.
  - unfold friction_shape in *. destruct vector; congruence.
  - now apply IH.
Qed.

Lemma friction_shapes_nth vector qvs avs k d1 d2 :
  friction_shapes vector qvs avs -> (k < length qvs)%nat ->
  tf.shape_of (nth k avs d2) = friction_shape vector (nth k qvs d1).
Proof.
  intro Hf. revert k. induction Hf as [|q a qvs avs Hqa Hf IH]; intros k Hk.
  - simpl in Hk. lia.
  - destruct k as [|k]; simpl; [assumption|]. apply IH. simpl in Hk. lia.
Qed.

Lemma friction_shapes_indexed vector (l : list tf.ndarray)
    (F : nat -> tf.ndarray) d :
  (forall k, (k < length l)%nat ->
             tf.shape_of (F k) = friction_shape vector (nth k l d)) ->
  friction_shapes vector l (map F (seq 0 (length l))).
Proof.
  assert (forall a,
             (forall k, (k < length l)%nat ->
                        tf.shape_of (F (a + k)%nat)
                        = friction_shape vector (nth k l d)) ->
             friction_shapes vector l (map F (seq a (length l)))) as Hgen.
  { induction l as [|x l IH]; intros a HF; simpl; constructor.
    - specialize (HF 0%nat). rewrite Nat.add_0_r in HF. apply HF. simpl. lia.
    - apply IH. intros k Hk. specialize (HF (S k)).
      rewrite Nat.add_succ_r in HF. apply HF. simpl. lia. }
  intro HF. apply (Hgen 0%nat). exact HF.
Qed.

Lemma SGNHT_new_v_shape self sess draws k v alpha g :
  tf.shape_of (SGNHT_new_v self sess draws k v alpha g) = tf.shape_of v.
Proof.
  unfold SGNHT_new_v, second_order_v, first_order_v, SGNHT_old_v.
  destruct (SGNHT.second_order self);
    now rewrite shape_of_pointwise, momentum_used_shape.
Qed.

Lemma SGNHT_new_q_shape self sess draws k q v alpha g :
  tf.shape_of (SGNHT_new_q self sess draws k q v alpha g) = tf.shape_of q.
Proof.
  unfold SGNHT_new_q, second_order_q, first_order_q, half_step.
  destruct (SGNHT.second_order self); now rewrite !shape_of_pointwise.
Qed.

Lemma SGNHT_new_alpha_shape self sess draws k v alpha g :
  tf.shape_of (SGNHT_new_alpha self sess draws k v alpha g)
  = tf.shape_of alpha.
Proof.
  unfold SGNHT_new_alpha.
  destruct (SGNHT.second_order self); now rewrite shape_of_pointwise.
Qed.

(** One SGNHT iteration keeps the latent variables, the momenta and the
    frictions initialised, in their shapes. *)
Lemma SGNHT_step (self : SGNHT.t) sess draws qs qvs0 qvs vvs avs latent_k
    grad_func :
  bound_latents qs -> shape_preserving grad_func ->
  holds sess qs qvs -> holds sess (new_variables tf.vs_var qs) vvs ->
  holds sess (new_variables tf.alphas_var qs) avs ->
  same_shapes qvs0 qvs -> same_shapes qvs0 vvs ->
  friction_shapes (SGNHT.use_vector_alpha self) qvs0 avs ->
  exists sess' qvs' vvs' avs',
    iteration self qs latent_k grad_func draws sess = Some sess'
    /\ holds sess' qs qvs'
    /\ holds sess' (new_variables tf.vs_var qs) vvs'
    /\ holds sess' (new_variables tf.alphas_var qs) avs'
    /\ same_shapes qvs0 qvs' /\ same_shapes qvs0 vvs'
    /\ friction_shapes (SGNHT.use_vector_alpha self) qvs0 avs'.
Proof.
  intros Hb Hgrad Hq Hv Ha Hsq Hsv Hsa.
  assert (same_shapes qvs vvs) as Hqv
    by (eapply same_shapes_trans; [apply same_shapes_sym|]; eassumption).
  assert (friction_shapes (SGNHT.use_vector_alpha self) qvs avs) as Hqa
    by (eapply friction_shapes_same; eassumption).
  destruct (Hgrad (SGNHT_points self sess draws qvs vvs)) as [gs [Hg Hsg]].
  assert (same_shapes qvs gs) as Hsh
    by (eapply same_shapes_trans; [|exact Hsg]; now apply SGNHT_points_shapes).
  destruct (SGNHT_iteration self sess draws qs qvs vvs avs gs latent_k
              grad_func Hb Hq Hv Ha Hqv Hqa Hg Hsh)
    as [sess' [Hrun [_ [Hval _]]]].
  pose proof (holds_length _ _ _ Hq) as Lq.
  pose proof (Forall2_length Hsq) as L0.
  pose proof (Forall2_length Hqv) as Lv.
  pose proof (Forall2_length Hqa) as La.
  pose proof (Forall2_length Hsh) as Lg.
  set (d := tf.Scalar 0).
  set (V k := SGNHT_new_v self sess draws k (nth k vvs d) (nth k avs d)
                (nth k gs d)).
  set (Q k := SGNHT_new_q self sess draws k (nth k qvs d) (nth k vvs d)
                (nth k avs d) (nth k gs d)).
  set (A k := SGNHT_new_alpha self sess draws k (nth k vvs d) (nth k avs d)
                (nth k gs d)).
  assert (forall k q, nth_error qs k = Some q ->
            tf.sess_value sess' (tf.vs_var k) = Some (V k)
            /\ tf.sess_value sess' q = Some (Q k)
            /\ tf.sess_value sess' (tf.alphas_var k) = Some (A k)) as Hstep.
  { intros k q Hk.
    assert (k < length qs)%nat as Hlt by (apply nth_error_Some; congruence).
    apply Hval; try assumption; apply nth_error_nth'; lia. }
  exists sess', (map Q (seq 0 (length qs))),
    (map V (seq 0 (length (new_variables tf.vs_var qs)))),
    (map A (seq 0 (length (new_variables tf.alphas_var qs)))).
  split; [exact Hrun|]. split; [|split; [|split; [|split; [|split]]]].
  - apply holds_indexed. intros k x Hx. now apply Hstep.
  - apply holds_indexed. intros k x Hx.
    apply nth_error_new_variables in Hx. destruct Hx as [-> Hk].
    destruct (nth_error_exists qs k Hk) as [q Eq]. now apply (Hstep k q).
  - apply holds_indexed. intros k x Hx.
    apply nth_error_new_variables in Hx. destruct Hx as [-> Hk].
    destruct (nth_error_exists qs k Hk) as [q Eq]. now apply (Hstep k q).
  - replace (length qs) with (length qvs0) by lia.
    apply same_shapes_indexed with (d := d). intros k Hk.
    unfold Q. rewrite SGNHT_new_q_shape. now apply same_shapes_nth.
  - rewrite length_new_variables. replace (length qs) with (length qvs0) by lia.
    apply same_shapes_indexed with (d := d). intros k Hk.
    unfold V. rewrite SGNHT_new_v_shape. now apply same_shapes_nth.
  - rewrite length_new_variables. replace (length qs) with (length qvs0) by lia.
    apply friction_shapes_indexed with (d := d). intros k Hk.
    unfold A. rewrite SGNHT_new_alpha_shape. now apply friction_shapes_nth.
Qed.

Lemma SGNHT_chain (self : SGNHT.t) (sess : tf.Session)
    (qs : list tf.Var) (qvs : list tf.ndarray) (latent_k : list string)
    (grad_func : list (option tf.ndarray) -> list (option tf.ndarray))
    (draws0 : Draws) (draws : nat -> Draws) (n : nat) :
  bound_latents qs ->
  holds sess qs qvs ->
  shape_preserving grad_func ->
  exists sess' qvs' vvs' avs',
    iterations self qs latent_k grad_func draws n
      (initialize self qs draws0 sess) = Some sess'
    /\ holds sess' qs qvs' /\ same_shapes qvs qvs'
    /\ holds sess' (new_variables tf.vs_var qs) vvs' /\ same_shapes qvs vvs'
    /\ holds sess' (new_variables tf.alphas_var qs) avs'
    /\ friction_shapes (SGNHT.use_vector_alpha self) qvs avs'
    /\ ((Z.of_nat n < 2 ^ 31)%Z -> tf.sess_t sess' = Z.of_nat n).
Proof.
  intros Hb Hq Hgrad.
  assert (exists sess' qvs' vvs' avs',
             iterations self qs latent_k grad_func draws n
               (initialize self qs draws0 sess) = Some sess'
             /\ holds sess' qs qvs'
             /\ holds sess' (new_variables tf.vs_var qs) vvs'
             /\ holds sess' (new_variables tf.alphas_var qs) avs'
             /\ same_shapes qvs qvs' /\ same_shapes qvs vvs'
             /\ friction_shapes (SGNHT.use_vector_alpha self) qvs avs')
    as [sess' [qvs' [vvs' [avs' [Hrun [Hq' [Hv' [Ha' [Hsq [Hsv Hsa]]]]]]]]]].
  { induction n as [|n IH].
    - exists (initialize self qs draws0 sess), qvs,
        (initial_momenta (SGNHT.lr self) draws0 qvs),
        (map (initial_friction self) qvs).
      split; [reflexivity|].
      split; [now apply SGNHT_initialize_latents|].
      split; [now apply SGNHT_initialize_holds_momenta|].
      split; [now apply SGNHT_initialize_holds_frictions|].
      split; [apply same_shapes_refl|].
      split; [apply initial_momenta_shapes|apply initial_friction_shapes].
    - destruct IH as [s [qvs1 [vvs1 [avs1 [Hrun [Hq1 [Hv1 [Ha1 [Hsq [Hsv Hsa]]]]]]]]]].
      destruct (SGNHT_step self s (draws n) qs qvs qvs1 vvs1 avs1 latent_k
                  grad_func Hb Hgrad Hq1 Hv1 Ha1 Hsq Hsv Hsa)
        as [s' [qvs' [vvs' [avs' [Hit H']]]]].
      exists s', qvs', vvs', avs'. split; [|exact H'].
      cbn [iterations]. now rewrite Hrun. }
  exists sess', qvs', vvs', avs'.
  split; [exact Hrun|]. split; [exact Hq'|]. split; [exact Hsq|].
  split; [exact Hv'|]. split; [exact Hsv|]. split; [exact Ha'|].
  split; [exact Hsa|].
  intro Hn.
  rewrite (iterations_counter _ SGNHT_targets self qs latent_k grad_func
             draws n _ sess' Hrun);
    rewrite SGNHT_initialize_t; lia.
Qed.

(** X5. A chain of SGNHT iterations never fails: started from the Variables as
    [sample] creates them, with a gradient function that returns gradients
    of the shapes of its inputs, any number of iterations completes; the
    latent variables and the momenta keep their shapes, every friction stays a
    scalar (scalar mode) or of the shape of its latent variable (vector
    mode), and the counter (below the int32 limit) is the number of
    iterations. *)
Theorem SGNHT_chain_completes (self : SGNHT.t) (sess : tf.Session)
    (qs : list tf.Var) (qvs : list tf.ndarray) (latent_k : list string)
    (grad_func : list (option tf.ndarray) -> list (option tf.ndarray))
    (draws0 : Draws) (draws : nat -> Draws) (n : nat) :
  bound_latents qs ->
  holds sess qs qvs ->
  shape_preserving grad_func ->
  exists sess' qvs' vvs' avs',
    iterations self qs latent_k grad_func draws n
      (initialize self qs draws0 sess) = Some sess'
    /\ holds sess' qs qvs' /\ same_shapes qvs qvs'
    /\ holds sess' (new_variables tf.vs_var qs) vvs' /\ same_shapes qvs vvs'
    /\ holds sess' (new_variables tf.alphas_var qs) avs'
    /\ friction_shapes (SGNHT.use_vector_alpha self) qvs avs'
    /\ ((Z.of_nat n < 2 ^ 31)%Z -> tf.sess_t sess' = Z.of_nat n).
Proof. apply SGNHT_chain. Qed.

(** The quadratic scenario, with a scalar friction, satisfies the
    hypotheses of the theorem above. *)
Lemma SGNHT_chain_completes_witness :
  exists sess',
    iterations (SGNHT.mk 0.01 0 1 0 true false) [tf.user_var 0] ["q"%string]
      grad_quadratic (fun _ => zero_draws) 3
      (initialize (SGNHT.mk 0.01 0 1 0 true false) [tf.user_var 0] zero_draws
         quadratic_session)
    = Some sess'
    /\ tf.sess_t sess' = 3%Z.
Proof.
  destruct (SGNHT_chain_completes (SGNHT.mk 0.01 0 1 0 true false)
              quadratic_session [tf.user_var 0] [tf.Dense [10]]
              ["q"%string] grad_quadratic zero_draws (fun _ => zero_draws) 3)
    as [sess' [qvs' [vvs' [avs' [Hrun [_ [_ [_ [_ [_ [_ Ht]]]]]]]]]]].
  - split; repeat constructor. intros [].
  - reflexivity.
  - apply shape_preserving_quadratic.
  - exists sess'. split; [exact Hrun|]. apply Ht. reflexivity.
Defined.

(** *** SGLD and PSGLD chains *)

Lemma SGLD_initialize_value (self : SGLD.t) qs draws0 sess x :
  tf.sess_value (initialize self qs draws0 sess) x = tf.sess_value sess x.
Proof. reflexivity. Qed.

Lemma SGLD_step (self : SGLD.t) sess draws qs qvs0 qvs latent_k grad_func :
  NoDup qs -> qs <> [] -> shape_preserving grad_func ->
  holds sess qs qvs -> same_shapes qvs0 qvs ->
  exists sess' qvs',
    iteration self qs latent_k grad_func draws sess = Some sess'
    /\ holds sess' qs qvs' /\ same_shapes qvs0 qvs'.
Proof.
  intros Hd Hne Hgrad Hq Hsq.
  destruct (Hgrad qvs) as [gs [Hg Hsh]].
  destruct (SGLD_iteration self sess draws qs qvs gs latent_k grad_func
              Hd Hne Hq Hg Hsh) as [sess' [Hrun [_ [Hval _]]]].
  pose proof (holds_length _ _ _ Hq) as Lq.
  pose proof (Forall2_length Hsq) as L0.
  pose proof (Forall2_length Hsh) as Lg.
  set (d := tf.Scalar 0).
  exists sess',
    (map (fun k => SGLD_new_q self (draw_noise draws k) (nth k qvs d)
                     (nth k gs d)) (seq 0 (length qs))).
  split; [exact Hrun|]. split.
  - apply holds_indexed. intros k x Hx.
    assert (k < length qs)%nat as Hlt by (apply nth_error_Some; congruence).
    apply Hval; try assumption; apply nth_error_nth'; lia.
  - replace (length qs) with (length qvs0) by lia.
    apply same_shapes_indexed with (d := d). intros k Hk.
    rewrite SGLD_new_q_shape. now apply same_shapes_nth.
Qed.

(** X6. A chain of SGLD iterations never fails: on at least one latent
    variable, with a gradient function that returns gradients of the shapes
    of its inputs, any number of iterations completes; the latent variables
    keep their shapes, and the counter (below the int32 limit) is the number
    of iterations. *)
Theorem SGLD_chain_completes (self : SGLD.t) (sess : tf.Session)
    (qs : list tf.Var) (qvs : list tf.ndarray) (latent_k : list string)
    (grad_func : list (option tf.ndarray) -> list (option tf.ndarray))
    (draws0 : Draws) (draws : nat -> Draws) (n : nat) :
  NoDup qs -> qs <> [] ->
  holds sess qs qvs ->
  shape_preserving grad_func ->
  exists sess' qvs',
    iterations self qs latent_k grad_func draws n
      (initialize self qs draws0 sess) = Some sess'
    /\ holds sess' qs qvs' /\ same_shapes qvs qvs'
    /\ ((Z.of_nat n < 2 ^ 31)%Z -> tf.sess_t sess' = Z.of_nat n).
Proof.
  intros Hd Hne Hq Hgrad.
  assert (exists sess' qvs',
             iterations self qs latent_k grad_func draws n
               (initialize self qs draws0 sess) = Some sess'
             /\ holds sess' qs qvs' /\ same_shapes qvs qvs')
    as [sess' [qvs' [Hrun [Hq' Hsq]]]].
  { induction n as [|n IH].
    - exists (initialize self qs draws0 sess), qvs.
      split; [reflexivity|]. split; [exact Hq|apply same_shapes_refl].
    - destruct IH as [s [qvs1 [Hrun [Hq1 Hsq]]]].
      destruct (SGLD_step self s (draws n) qs qvs qvs1 latent_k grad_func
                  Hd Hne Hgrad Hq1 Hsq) as [s' [qvs' [Hit H']]].
      exists s', qvs'. split; [|exact H'].
      cbn [iterations]. now rewrite Hrun. }
  exists sess', qvs'.
  split; [exact Hrun|]. split; [exact Hq'|]. split; [exact Hsq|].
  intro Hn.
  rewrite (iterations_counter (fun qs => qs) SGLD_targets self qs latent_k
             grad_func draws n _ sess' Hrun); simpl; lia.
Qed.

(** The quadratic scenario satisfies the hypotheses of the theorem above. *)
Lemma SGLD_chain_completes_witness :
  exists sess',
    iterations (SGLD.__init__ 0.01 None) [tf.user_var 0] ["q"%string]
      grad_quadratic (fun _ => zero_draws) 3
      (initialize (SGLD.__init__ 0.01 None) [tf.user_var 0] zero_draws
         quadratic_session)
    = Some sess'
    /\ tf.sess_t sess' = 3%Z.
Proof.
  destruct (SGLD_chain_completes (SGLD.__init__ 0.01 None)
              quadratic_session [tf.user_var 0] [tf.Dense [10]]
              ["q"%string] grad_quadratic zero_draws (fun _ => zero_draws) 3)
    as [sess' [qvs' [Hrun [_ [_ Ht]]]]].
  - repeat constructor. intros [].
  - discriminate.
  - reflexivity.
  - apply shape_preserving_quadratic.
  - exists sess'. split; [exact Hrun|]. apply Ht. reflexivity.
Defined.

Lemma PSGLD_new_aux_shape self aux g :
  tf.shape_of (PSGLD_new_aux self aux g) = tf.shape_of aux.
Proof. apply shape_of_pointwise. Qed.

Lemma PSGLD_new_q_shape self draw q g aux' :
  tf.shape_of (PSGLD_new_q self draw q g aux') = tf.shape_of q.
Proof. apply shape_of_pointwise. Qed.

Lemma PSGLD_new_aux_nonnegative self aux g :
  0 <= PSGLD.RMSPreconditioner.decay (PSGLD.preconditioner_hparams self) <= 1 ->
  tf.shape_of g = tf.shape_of aux ->
  nonnegative aux -> nonnegative (PSGLD_new_aux self aux g).
Proof.
  intros Hd Hs Ha i Hi. rewrite PSGLD_new_aux_shape in Hi.
  unfold PSGLD_new_aux. rewrite item_pointwise by assumption.
  specialize (Ha i Hi).
  assert (0 <= tf.item g i ^ 2) by (apply pow2_ge_0).
  nra.
Qed.

Lemma zeros_nonnegative sh : nonnegative (tf.pointwise sh (fun _ => 0)).
Proof.
  intros i Hi. rewrite shape_of_pointwise in Hi.
  rewrite item_pointwise by assumption. lra.
Qed.

Lemma PSGLD_initialize_latents (self : PSGLD.t) sess qs qvs draws0 :
  bound_latents qs -> holds sess qs qvs ->
  holds (initialize self qs draws0 sess) qs qvs.
Proof.
  intros [_ Huser] Hq.
  apply holds_intro; [now apply (holds_length sess)|].
  intros k x a Hx Ha.
  assert (tf.is_user_var x = true) as Hu.
  { rewrite Forall_forall in Huser. apply Huser.
    now apply nth_error_In with (n := k). }
  unfold initialize. cbn [_define_variables PSGLD.PSGLD_Subclass].
  unfold PSGLD._define_variables, PSGLD.RMSPreconditioner._define_variables.
  rewrite (init_outside tf.vs_var
             (fun _ q => tf.zeros_like
                           (tf.sess_value (tf.mkSession 0 (tf.sess_value sess)) q))).
  - cbn [tf.sess_value].
    rewrite <- (nth_error_nth _ _ (tf.user_var 0) Hx),
      <- (nth_error_nth _ _ a Ha).
    apply holds_nth; [assumption|]. apply nth_error_Some. congruence.
  - intros j _ ->. discriminate.
Qed.

Lemma PSGLD_initialize_t (self : PSGLD.t) sess qs draws0 :
  tf.sess_t (initialize self qs draws0 sess) = 0%Z.
Proof.
  unfold initialize. cbn [_define_variables PSGLD.PSGLD_Subclass].
  unfold PSGLD._define_variables, PSGLD.RMSPreconditioner._define_variables.
  now rewrite (init_t tf.vs_var
                 (fun _ q => tf.zeros_like
                               (tf.sess_value
                                  (tf.mkSession 0 (tf.sess_value sess)) q))).
Qed.

Lemma nonnegative_indexed (F : nat -> tf.ndarray) n :
  (forall k, (k < n)%nat -> nonnegative (F k)) ->
  Forall nonnegative (map F (seq 0 n)).
Proof.
  intro HF. apply Forall_forall. intros a Ha.
  apply in_map_iff in Ha. destruct Ha as [k [<- Hk]].
  apply in_seq in Hk. apply HF. lia.
Qed.

Lemma Forall_nth_lt {A : Type} (P : A -> Prop) l k d :
  Forall P l -> (k < length l)%nat -> P (nth k l d).
Proof.
  intros Hf Hk. rewrite Forall_forall in Hf. apply Hf. now apply nth_In.
Qed.

Lemma PSGLD_step (self : PSGLD.t) sess draws qs qvs0 qvs avs latent_k
    grad_func :
  bound_latents qs -> qs <> [] -> shape_preserving grad_func ->
  holds sess qs qvs -> holds sess (new_variables tf.vs_var qs) avs ->
  same_shapes qvs0 qvs -> same_shapes qvs0 avs ->
  exists sess' qvs' avs',
    iteration self qs latent_k grad_func draws sess = Some sess'
    /\ holds sess' qs qvs'
    /\ holds sess' (new_variables tf.vs_var qs) avs'
    /\ same_shapes qvs0 qvs' /\ same_shapes qvs0 avs'
    /\ (0 <= PSGLD.RMSPreconditioner.decay (PSGLD.preconditioner_hparams self)
        <= 1 ->
        Forall nonnegative avs -> Forall nonnegative avs').
Proof.
  intros Hb Hne Hgrad Hq Ha Hsq Hsa.
  assert (same_shapes qvs avs) as Hqa
    by (eapply same_shapes_trans; [apply same_shapes_sym|]; eassumption).
  destruct (Hgrad qvs) as [gs [Hg Hsh]].
  destruct (PSGLD_iteration self sess draws qs qvs avs gs latent_k grad_func
              Hb Hne Hq Ha Hqa Hg Hsh) as [sess' [Hrun [_ [Hval _]]]].
  pose proof (holds_length _ _ _ Hq) as Lq.
  pose proof (Forall2_length Hsq) as L0.
  pose proof (Forall2_length Hqa) as La.
  pose proof (Forall2_length Hsh) as Lg.
  set (d := tf.Scalar 0).
  set (A k := PSGLD_new_aux self (nth k avs d) (nth k gs d)).
  set (Q k := PSGLD_new_q self (draw_noise draws k) (nth k qvs d) (nth k gs d)
                (A k)).
  assert (forall k q, nth_error qs k = Some q ->
            tf.sess_value sess' (tf.vs_var k) = Some (A k)
            /\ tf.sess_value sess' q = Some (Q k)) as Hstep.
  { intros k q Hk.
    assert (k < length qs)%nat as Hlt by (apply nth_error_Some; congruence).
    apply Hval; try assumption; apply nth_error_nth'; lia. }
  exists sess', (map Q (seq 0 (length qs))),
    (map A (seq 0 (length (new_variables tf.vs_var qs)))).
  split; [exact Hrun|]. split; [|split; [|split; [|split]]].
  - apply holds_indexed. intros k x Hx. now apply Hstep.
  - apply holds_indexed. intros k x Hx.
    apply nth_error_new_variables in Hx. destruct Hx as [-> Hk].
    destruct (nth_error_exists qs k Hk) as [q Eq]. now apply (Hstep k q).
  - replace (length qs) with (length qvs0) by lia.
    apply same_shapes_indexed with (d := d). intros k Hk.
    unfold Q. rewrite PSGLD_new_q_shape. now apply same_shapes_nth.
  - rewrite length_new_variables. replace (length qs) with (length qvs0) by lia.
    apply same_shapes_indexed with (d := d). intros k Hk.
    unfold A. rewrite PSGLD_new_aux_shape. now apply same_shapes_nth.
  - intros Hdecay Hnn. apply nonnegative_indexed. intros k Hk.
    rewrite length_new_variables in Hk. unfold A.
    apply PSGLD_new_aux_nonnegative; [assumption| |].
    + rewrite (same_shapes_nth qvs gs k d d Hsh) by lia.
      symmetry. apply same_shapes_nth; [assumption|lia].
    + apply Forall_nth_lt; [assumption|lia].
Qed.

(** X7. A chain of PSGLD iterations never fails: on at least one latent
    variable, started from the accumulators as [sample] creates them, with a
    gradient function that returns gradients of the shapes of its inputs, any
    number of iterations completes; latent variables and accumulators keep
    their shapes; and with a decay between 0 and 1 no element of an
    accumulator ever becomes negative, so that the square root in the
    preconditioner is always taken of a non-negative number. *)
Theorem PSGLD_chain_completes (self : PSGLD.t) (sess : tf.Session)
    (qs : list tf.Var) (qvs : list tf.ndarray) (latent_k : list string)
    (grad_func : list (option tf.ndarray) -> list (option tf.ndarray))
    (draws0 : Draws) (draws : nat -> Draws) (n : nat) :
  bound_latents qs -> qs <> [] ->
  holds sess qs qvs ->
  shape_preserving grad_func ->
  exists sess' qvs' avs',
    iterations self qs latent_k grad_func draws n
      (initialize self qs draws0 sess) = Some sess'
    /\ holds sess' qs qvs' /\ same_shapes qvs qvs'
    /\ holds sess' (new_variables tf.vs_var qs) avs' /\ same_shapes qvs avs'
    /\ (0 <= PSGLD.RMSPreconditioner.decay (PSGLD.preconditioner_hparams self)
        <= 1 -> Forall nonnegative avs')
    /\ ((Z.of_nat n < 2 ^ 31)%Z -> tf.sess_t sess' = Z.of_nat n).
Proof.
  intros Hb Hne Hq Hgrad.
  assert (exists sess' qvs' avs',
             iterations self qs latent_k grad_func draws n
               (initialize self qs draws0 sess) = Some sess'
             /\ holds sess' qs qvs'
             /\ holds sess' (new_variables tf.vs_var qs) avs'
             /\ same_shapes qvs qvs' /\ same_shapes qvs avs'
             /\ (0 <= PSGLD.RMSPreconditioner.decay
                        (PSGLD.preconditioner_hparams self) <= 1 ->
                 Forall nonnegative avs'))
    as [sess' [qvs' [avs' [Hrun [Hq' [Ha' [Hsq [Hsa Hnn]]]]]]]].
  { induction n as [|n IH].
    - exists (initialize self qs draws0 sess), qvs, (map zeros qvs).
      split; [reflexivity|].
      split; [now apply PSGLD_initialize_latents|].
      split; [|split; [apply same_shapes_refl|
                       split; [apply same_shapes_zeros|]]].
      + apply holds_intro.
        * rewrite length_map, length_new_variables.
          now apply (holds_length sess).
        * intros k x a Hx Ha. apply nth_error_new_variables in Hx.
          destruct Hx as [-> Hk]. rewrite nth_error_map in Ha.
          destruct (nth_error qvs k) as [qv|] eqn:Hqv; [|discriminate].
          inversion Ha; subst a.
          exact (PSGLD_initial_accumulator self draws0 sess qs qvs k qv Hq Hqv).
      + intros _. apply Forall_forall. intros a Ha.
        apply in_map_iff in Ha. destruct Ha as [q [<- _]].
        apply zeros_nonnegative.
    - destruct IH as [s [qvs1 [avs1 [Hrun [Hq1 [Ha1 [Hsq [Hsa Hnn]]]]]]]].
      destruct (PSGLD_step self s (draws n) qs qvs qvs1 avs1 latent_k
                  grad_func Hb Hne Hgrad Hq1 Ha1 Hsq Hsa)
        as [s' [qvs' [avs' [Hit [Hq' [Ha' [Hsq' [Hsa' Hnn']]]]]]]].
      exists s', qvs', avs'.
      split; [cbn [iterations]; now rewrite Hrun|].
      split; [exact Hq'|]. split; [exact Ha'|]. split; [exact Hsq'|].
      split; [exact Hsa'|]. intro Hdecay. apply Hnn'; auto. }
  exists sess', qvs', avs'.
  split; [exact Hrun|]. split; [exact Hq'|]. split; [exact Hsq|].
  split; [exact Ha'|]. split; [exact Hsa|]. split; [exact Hnn|].
  intro Hn.
  rewrite (iterations_counter _ PSGLD_targets self qs latent_k grad_func
             draws n _ sess' Hrun);
    rewrite PSGLD_initialize_t; lia.
Qed.

(** The quadratic scenario, with the default hyperparameters, satisfies the
    hypotheses of the theorem above. *)
Lemma PSGLD_chain_completes_witness :
  exists sess',
    iterations (PSGLD.mk 0.01 false PSGLD.RMSPreconditioner.default_hps)
      [tf.user_var 0] ["q"%string] grad_quadratic (fun _ => zero_draws) 3
      (initialize (PSGLD.mk 0.01 false PSGLD.RMSPreconditioner.default_hps)
         [tf.user_var 0] zero_draws quadratic_session)
    = Some sess'
    /\ tf.sess_t sess' = 3%Z.
Proof.
  destruct (PSGLD_chain_completes
              (PSGLD.mk 0.01 false PSGLD.RMSPreconditioner.default_hps)
              quadratic_session [tf.user_var 0] [tf.Dense [10]]
              ["q"%string] grad_quadratic zero_draws (fun _ => zero_draws) 3)
    as [sess' [qvs' [avs' [Hrun [_ [_ [_ [_ [_ Ht]]]]]]]]].
  - split; repeat constructor. intros [].
  - discriminate.
  - reflexivity.
  - apply shape_preserving_quadratic.
  - exists sess'. split; [exact Hrun|]. apply Ht. reflexivity.
Defined.

(** *** The RMS preconditioner normalises the step *)

Lemma rms_normalised decay eps aux g :
  0 <= decay < 1 -> 0 < eps -> 0 <= aux ->
  Rabs (1 / (eps + sqrt (decay * aux + (1 - decay) * g ^ 2)) * g)
  <= 1 / sqrt (1 - decay).
Proof.
  intros Hd He Ha.
  set (s := sqrt (1 - decay)).
  set (r := sqrt (decay * aux + (1 - decay) * g ^ 2)).
  assert (0 < s) as Hs by (apply sqrt_lt_R0; lra).
  assert (0 <= r) as Hr by apply sqrt_pos.
  assert (Rabs g * s <= r) as Hle.
  { unfold s, r. rewrite <- sqrt_Rsqr_abs, <- sqrt_mult_alt by apply Rle_0_sqr.
    apply sqrt_le_1_alt. unfold Rsqr.
    assert (0 <= decay * aux) by (apply Rmult_le_pos; lra).
    nra. }
  unfold Rdiv. rewrite Rmult_1_l, Rmult_1_l, Rabs_mult.
  rewrite Rabs_inv, (Rabs_pos_eq (eps + r)) by lra.
  apply (Rmult_le_reg_r (eps + r)); [lra|].
  apply (Rmult_le_reg_r s); [assumption|].
  replace (/ (eps + r) * Rabs g * (eps + r) * s) with (Rabs g * s)
    by (field; lra).
  replace (/ s * (eps + r) * s) with (eps + r) by (field; lra).
  lra.
Qed.

(** X8. Without noise, one PSGLD step moves no element of a latent variable by
    more than [0.5*eta/sqrt(1 - decay)], however large the gradient: the
    accumulator contains at least [(1 - decay)*g^2], so the preconditioned
    gradient [G*g] is at most [1/sqrt(1 - decay)] in absolute value. *)
Theorem PSGLD_step_bounded (self : PSGLD.t) (sess : tf.Session) (draws : Draws)
    (qs : list tf.Var) (qvs avs gs : list tf.ndarray) (latent_k : list string)
    (grad_func : list (option tf.ndarray) -> list (option tf.ndarray)) :
  let decay := PSGLD.RMSPreconditioner.decay (PSGLD.preconditioner_hparams self) in
  let epsilon :=
    PSGLD.RMSPreconditioner.epsilon (PSGLD.preconditioner_hparams self) in
  PSGLD.add_noise self = false ->
  0 <= PSGLD.lr self -> 0 <= decay < 1 -> 0 < epsilon ->
  bound_latents qs -> qs <> [] ->
  holds sess qs qvs ->
  holds sess (new_variables tf.vs_var qs) avs ->
  same_shapes qvs avs ->
  Forall nonnegative avs ->
  grad_func (map Some qvs) = map Some gs ->
  same_shapes qvs gs ->
  exists sess',
    iteration self qs latent_k grad_func draws sess = Some sess'
    /\ forall k q qv,
         nth_error qs k = Some q -> nth_error qvs k = Some qv ->
         exists q',
           tf.sess_value sess' q = Some q'
           /\ tf.shape_of q' = tf.shape_of qv
           /\ forall i, (i < tf.numel (tf.shape_of qv))%nat ->
                Rabs (tf.item q' i - tf.item qv i)
                <= 0.5 * PSGLD.lr self / sqrt (1 - decay).
Proof.
  intros decay epsilon Hnoise Hlr Hdecay Heps Hb Hne Hq Ha Hsa Hnn Hg Hsh.
  destruct (PSGLD_iteration self sess draws qs qvs avs gs latent_k grad_func
              Hb Hne Hq Ha Hsa Hg Hsh) as [sess' [Hrun [_ [Hval _]]]].
  exists sess'. split; [exact Hrun|].
  intros k q qv Hk Hqv.
  assert (k < length qvs)%nat as Hlt by (apply nth_error_Some; congruence).
  pose proof (Forall2_length Hsa) as La.
  pose proof (Forall2_length Hsh) as Lg.
  destruct (nth_error_exists avs k) as [av Hav]; [lia|].
  destruct (nth_error_exists gs k) as [g Hgk]; [lia|].
  destruct (Hval k q qv av g Hk Hqv Hav Hgk) as [_ Hq'].
  eexists. split; [exact Hq'|]. split; [apply PSGLD_new_q_shape|].
  intros i Hi.
  pose proof (same_shapes_nth_error _ _ _ _ _ Hsa Hqv Hav) as Hsav.
  assert (nonnegative av) as Hav0.
  { rewrite Forall_forall in Hnn. apply Hnn. now apply (nth_error_In _ k). }
  unfold PSGLD_new_q. rewrite item_pointwise by assumption.
  rewrite Hnoise. unfold PSGLD_G, PSGLD_new_aux.
  rewrite item_pointwise by now rewrite Hsav.
  fold decay. fold epsilon.
  set (G := 1 / (epsilon + sqrt (decay * tf.item av i
                                 + (1 - decay) * tf.item g i ^ 2))).
  replace (tf.item qv i + 0.5 * PSGLD.lr self * G * tf.item g i + 0
           - tf.item qv i)
    with (0.5 * PSGLD.lr self * (G * tf.item g i)) by ring.
  rewrite Rabs_mult, (Rabs_pos_eq (0.5 * PSGLD.lr self)) by lra.
  unfold Rdiv at 1. rewrite <- (Rmult_1_l (/ sqrt (1 - decay))).
  apply Rmult_le_compat_l; [lra|].
  apply rms_normalised; [assumption|assumption|].
  apply Hav0. now rewrite Hsav.
Qed.

(** The quadratic scenario, with the default hyperparameters and the
    accumulator just initialised, satisfies the hypotheses of the theorem
    above. *)
Lemma PSGLD_step_bounded_witness :
  exists sess',
    iteration (PSGLD.mk 0.01 false PSGLD.RMSPreconditioner.default_hps)
      [tf.user_var 0] ["q"%string] grad_quadratic zero_draws
      (initialize (PSGLD.mk 0.01 false PSGLD.RMSPreconditioner.default_hps)
         [tf.user_var 0] zero_draws quadratic_session)
    = Some sess'.
Proof.
  destruct (PSGLD_step_bounded
              (PSGLD.mk 0.01 false PSGLD.RMSPreconditioner.default_hps)
              (initialize
                 (PSGLD.mk 0.01 false PSGLD.RMSPreconditioner.default_hps)
                 [tf.user_var 0] zero_draws quadratic_session)
              zero_draws
              [tf.user_var 0] [tf.Dense [10]] [tf.Dense [0]]
              [tf.Dense [- (10)]] ["q"%string] grad_quadratic)
    as [sess' [Hrun _]].
  - reflexivity.
  - simpl. lra.
  - simpl. lra.
  - simpl. lra.
  - split; repeat constructor. intros [].
  - discriminate.
  - reflexivity.
  - reflexivity.
  - repeat constructor.
  - constructor; [|constructor]. intros i Hi. simpl in Hi.
    replace i with 0%nat by lia. simpl. lra.
  - reflexivity.
  - repeat constructor.
  - exists sess'. exact Hrun.
Defined.

(** *** SGNHT without tuning is SGHMC *)










(** *** Which entry [make_grad_func] reports *)

Lemma check_latent_first latent_k vs : forall a,
  Exists (fun v => isinstance_Variable v = false) vs ->
  exists i v,
    nth_error vs i = Some v /\ isinstance_Variable v = false
    /\ (forall j w, (j < i)%nat -> nth_error vs j = Some w ->
                    isinstance_Variable w = true)
    /\ check_latent latent_k (enumerate a vs)
       = Some (not_a_Variable (nth (a + i) latent_k EmptyString)).
Proof.
  induction vs as [|v vs IH]; intros a Hex; [inversion Hex|].
  simpl. destruct (isinstance_Variable v) eqn:Ev; simpl.
  - inversion Hex as [? ? Hv|? ? Hvs]; subst; [congruence|].
    destruct (IH (S a) Hvs) as [i [w [Hi [Hw [Hfirst Hc]]]]].
    exists (S i), w. split; [exact Hi|]. split; [exact Hw|]. split.
    + intros [|j] w' Hj Hw'; simpl in Hw'.
      * congruence.
      * apply (Hfirst j); [lia|assumption].
    + rewrite Hc. now rewrite Nat.add_succ_r.
  - exists 0%nat, v. split; [reflexivity|]. split; [exact Ev|]. split.
    + intros j w Hj. lia.
    + now rewrite Nat.add_0_r.
Qed.

Lemma make_grad_func_first_error
    (merge_dicts : list (string * option tf.ndarray) ->
                   list (string * option tf.ndarray) ->
                   list (string * option tf.ndarray))
    (gradients : (list (option tf.ndarray) -> option tf.ndarray) ->
                 list (option tf.ndarray) -> list (option tf.ndarray))
    (meta_bn : MetaBN) (observed : list (string * option tf.ndarray))
    (latent : list (string * PyObject)) :
  Exists (fun entry => isinstance_Variable (snd entry) = false) latent ->
  exists i name v,
    nth_error latent i = Some (name, v)
    /\ isinstance_Variable v = false
    /\ (forall j name' w, (j < i)%nat -> nth_error latent j = Some (name', w) ->
                          isinstance_Variable w = true)
    /\ make_grad_func merge_dicts gradients meta_bn observed latent
       = inl (TypeError ("latent['" ++ name ++
                         "'] is not a tensorflow Variable.")%string).
Proof.
  intro Hex.
  assert (Exists (fun v => isinstance_Variable v = false) (map snd latent))
    as Hex'.
  { apply Exists_exists in Hex. destruct Hex as [e [He Hv]].
    apply Exists_exists. exists (snd e). split; [now apply in_map|exact Hv]. }
  destruct (check_latent_first (map fst latent) (map snd latent) 0%nat Hex')
    as [i [v [Hi [Hv [Hfirst Hc]]]]].
  rewrite nth_error_map in Hi.
  destruct (nth_error latent i) as [[name v']|] eqn:Ei; [|discriminate].
  simpl in Hi. inversion Hi; subst v'.
  exists i, name, v. split; [exact Ei|]. split; [exact Hv|]. split.
  - intros j name' w Hj Hw. apply (Hfirst j w Hj).
    now rewrite nth_error_map, Hw.
  - assert (nth i (map fst latent) EmptyString = name) as Hname
      by (apply nth_error_nth; now rewrite nth_error_map, Ei).
    simpl plus in Hc. rewrite Hname in Hc. clear - Hc Hex.
    unfold make_grad_func. destruct latent as [|e latent']; [inversion Hex|].
    rewrite Hc. reflexivity.
Qed.

(** X10. When several entries of the latent mapping are not Variables,
    [make_grad_func] reports the first of them in the order of the mapping,
    by its name; what [meta_bn] and [observed] are makes no difference. *)
Theorem make_grad_func_reports_first
    (merge_dicts : list (string * option tf.ndarray) ->
                   list (string * option tf.ndarray) ->
                   list (string * option tf.ndarray))
    (gradients : (list (option tf.ndarray) -> option tf.ndarray) ->
                 list (option tf.ndarray) -> list (option tf.ndarray))
    (meta_bn : MetaBN) (observed : list (string * option tf.ndarray))
    (latent : list (string * PyObject)) :
  Exists (fun entry => isinstance_Variable (snd entry) = false) latent ->
  exists i name v,
    nth_error latent i = Some (name, v)
    /\ isinstance_Variable v = false
    /\ (forall j name' w, (j < i)%nat -> nth_error latent j = Some (name', w) ->
                          isinstance_Variable w = true)
    /\ make_grad_func merge_dicts gradients meta_bn observed latent
       = inl (TypeError ("latent['" ++ name ++
                         "'] is not a tensorflow Variable.")%string).
Proof. apply make_grad_func_first_error. Qed.

(** A mapping whose second and third entries are not Variables satisfies
    the hypothesis of the theorem above. *)
Lemma make_grad_func_reports_first_witness :
  exists name,
    make_grad_func (fun d1 d2 => d1 ++ d2) (fun _ xs => xs)
      (LogJointFunction (fun _ => None)) []
      [("w"%string, TfVariable (tf.user_var 0));
       ("x"%string, TfTensor None); ("y"%string, TfTensor None)]
    = inl (TypeError ("latent['" ++ name ++
                      "'] is not a tensorflow Variable.")%string).
Proof.
  destruct (make_grad_func_reports_first (fun d1 d2 => d1 ++ d2)
              (fun _ xs => xs) (LogJointFunction (fun _ => None)) []
              [("w"%string, TfVariable (tf.user_var 0));
               ("x"%string, TfTensor None); ("y"%string, TfTensor None)])
    as [i [name [v [Hi [Hv [Hfirst E]]]]]].
  - apply Exists_cons_tl. apply Exists_cons_hd. reflexivity.
  - exists name. exact E.
Defined.

(** *** When a chain resamples the momentum *)





(** *** What [sample] returns for fetching *)

Section Committed.
Import tf.

(** The value a completed run leaves in a Variable all of whose assignments
    carry the same value. *)
Lemma committed_value ops s s' x v ctl aft :
  Session_run (AssignAdd_t 1 :: ops) s = Some s' ->
  In (Assign x v ctl aft) ops ->
  (forall v' ctl' aft', In (Assign x v' ctl' aft') ops -> v' = v) ->
  sess_value s' x = v.
Proof.
  unfold Session_run. intros Hrun Hin Hsame.
  destruct (forallb runnable (AssignAdd_t 1 :: ops)) eqn:Er; [|discriminate].
  inversion Hrun; subst s'. clear Hrun.
  rewrite forallb_forall in Er.
  pose proof (Er _ (in_cons _ _ _ Hin)) as Hr. simpl in Hr.
  apply andb_true_iff in Hr. destruct Hr as [Hv _].
  destruct v as [a|]; [|discriminate].
  rewrite commit_all_value.
  change (written (AssignAdd_t 1 :: ops) x)
    with (match written ops x with Some a => Some a | None => None end).
  rewrite (written_unique ops x a); [reflexivity| |].
  - exists (Assign x (Some a) ctl aft). split; [assumption|].
    simpl. apply Var_eqb_refl.
  - intros ref v' ctl' aft' Hin' ->. now apply (Hsame v' ctl' aft').
Qed.

Lemma validate_shape_Some c x a :
  validate_shape c x = Some a -> x = Some a.
Proof.
  unfold validate_shape. destruct c as [c|]; [|discriminate].
  destruct x as [x|]; [|discriminate].
  destruct (shape_eqb (shape_of c) (shape_of x)); congruence.
Qed.

Lemma Session_run_evaluated ops s s' x v ctl aft :
  Session_run (AssignAdd_t 1 :: ops) s = Some s' ->
  In (Assign x v ctl aft) ops ->
  exists a, v = Some a.
Proof.
  unfold Session_run. intros Hrun Hin.
  destruct (forallb runnable (AssignAdd_t 1 :: ops)) eqn:Er; [|discriminate].
  rewrite forallb_forall in Er.
  pose proof (Er _ (in_cons _ _ _ Hin)) as Hr. simpl in Hr.
  apply andb_true_iff in Hr. destruct Hr as [Hv _].
  destruct v as [a|]; [eauto|discriminate].
Qed.

Lemma NoDup_nth_error_eq {A : Type} (l : list A) i j x :
  NoDup l -> nth_error l i = Some x -> nth_error l j = Some x -> i = j.
Proof.
  intros Hd Hi Hj. apply (proj1 (NoDup_nth_error l) Hd).
  - apply nth_error_Some. congruence.
  - congruence.
Qed.

Lemma bound_latents_user qs k q :
  bound_latents qs -> nth_error qs k = Some q -> is_user_var q = true.
Proof.
  intros [_ Hu] Hk. rewrite Forall_forall in Hu. apply Hu.
  now apply (nth_error_In _ k).
Qed.

(** The assignments of SGHMC, position by position. *)
Lemma SGHMC_update_ops_nodes sess qs vs new_vs new_qs n :
  In n (group (SGHMC.update_ops sess qs vs new_vs new_qs)) ->
  (exists j q nq,
      nth_error qs j = Some q /\ nth_error new_qs j = Some nq
      /\ n = Assign q (validate_shape (sess_value sess q) nq)
               (new_vs ++ new_qs) [])
  \/ (exists j v nv,
      nth_error vs j = Some v /\ nth_error new_vs j = Some nv
      /\ n = Assign v (validate_shape (sess_value sess v) nv)
               (new_vs ++ new_qs) []).
Proof.
  unfold group, SGHMC.update_ops. intro Hn.
  apply in_concat in Hn. destruct Hn as [row [Hrow Hn]].
  apply in_map_iff in Hrow. destruct Hrow as [[uq uv] [<- Hpair]].
  pose proof (in_combine_l _ _ _ _ Hpair) as Hq.
  pose proof (in_combine_r _ _ _ _ Hpair) as Hv.
  apply in_map_iff in Hq. destruct Hq as [[q nq] [<- Hq]].
  apply in_map_iff in Hv. destruct Hv as [[v nv] [<- Hv]].
  apply In_combine_nth_error in Hq. destruct Hq as [j [Hj1 Hj2]].
  apply In_combine_nth_error in Hv. destruct Hv as [i [Hi1 Hi2]].
  simpl in Hn. destruct Hn as [<-|[<-|[]]]; [left|right]; eauto 8.
Qed.

Lemma SGHMC_update_ops_row sess qs vs new_vs new_qs k q nq v nv :
  nth_error qs k = Some q -> nth_error new_qs k = Some nq ->
  nth_error vs k = Some v -> nth_error new_vs k = Some nv ->
  In (Assign q (validate_shape (sess_value sess q) nq) (new_vs ++ new_qs) [])
     (group (SGHMC.update_ops sess qs vs new_vs new_qs))
  /\ In (Assign v (validate_shape (sess_value sess v) nv) (new_vs ++ new_qs) [])
        (group (SGHMC.update_ops sess qs vs new_vs new_qs)).
Proof.
  intros Hq Hnq Hv Hnv. unfold group, SGHMC.update_ops.
  set (uq := Assign q _ _ _). set (uv := Assign v _ _ _).
  assert (In [uq; uv]
            (map (fun '(update_q, update_v) => concat [[update_q]; [update_v]])
               (combine
                  (map (fun '(q, new_q) =>
                          Assign q (validate_shape (sess_value sess q) new_q)
                            (new_vs ++ new_qs) []) (combine qs new_qs))
                  (map (fun '(v, new_v) =>
                          Assign v (validate_shape (sess_value sess v) new_v)
                            (new_vs ++ new_qs) []) (combine vs new_vs)))))
    as Hrow.
  { apply in_map_iff. exists (uq, uv). split; [reflexivity|].
    apply (nth_error_In _ k).
    rewrite nth_error_combine, !nth_error_map, !nth_error_combine.
    now rewrite Hq, Hnq, Hv, Hnv. }
  split; apply in_concat; exists [uq; uv]; (split; [exact Hrow|]); simpl; auto.
Qed.
End Committed.

Lemma SGHMC_branch_lengths (self : SGHMC.t) draws sess qs grad_func :
  let vs := new_variables tf.vs_var qs in
  let OV := SGHMC.old_vs self draws sess vs in
  let GT := SGHMC.gaussian_terms self draws OV in
  let '(new_vs, new_qs) :=
    if negb (SGHMC.second_order self)
    then SGHMC.first_order_branch self sess qs OV GT grad_func
    else SGHMC.second_order_branch self sess qs OV GT grad_func in
  length new_qs = length new_vs /\ (length new_vs <= length qs)%nat.
Proof.
  cbv zeta.
  assert (length (SGHMC.old_vs self draws sess (new_variables tf.vs_var qs))
          = length qs) as Lo.
  { unfold SGHMC.old_vs.
    now rewrite length_map, length_enumerate, length_new_variables. }
  destruct (negb (SGHMC.second_order self)).
  - unfold SGHMC.first_order_branch. cbv zeta. split; lengths.
  - unfold SGHMC.second_order_branch. cbv zeta. split; lengths.
Qed.

(** X12. What [SGHMC.sample] returns besides the operation: the new samples are,
    name by name, the values a completed run of the operation leaves in the
    latent variables, and the statistic [mean_k] of each latent variable is
    the mean of the squares of the momentum the run leaves in its momentum
    Variable. *)
Theorem SGHMC_sample_outputs (self : SGHMC.t) (draws : Draws)
    (sess sess' : tf.Session) (qs : list tf.Var) (latent_k : list string)
    (default : list (option tf.ndarray) -> list (option tf.ndarray))
    (grad_func : option (list (option tf.ndarray) -> list (option tf.ndarray)))
    (sample_op : list tf.Node)
    (new_samples : list (string * option tf.ndarray))
    (sample_info : list (string * Info)) :
  bound_latents qs ->
  sample self qs latent_k default grad_func draws sess
  = Some (sample_op, new_samples, sample_info) ->
  tf.Session_run sample_op sess = Some sess' ->
  (forall k name new_q,
      nth_error new_samples k = Some (name, new_q) ->
      nth_error latent_k k = Some name
      /\ exists q, nth_error qs k = Some q /\ tf.sess_value sess' q = new_q)
  /\ (forall k name info,
      nth_error sample_info k = Some (name, info) ->
      nth_error latent_k k = Some name
      /\ info = DictInfo [("mean_k"%string,
                           tf.reduce_mean
                             (tf.square (tf.sess_value sess' (tf.vs_var k))))]).
Proof.
  intros Hb Hs Hrun. unfold sample in Hs.
  cbn [_update SGHMC.SGHMC_Subclass] in Hs. unfold SGHMC._update in Hs.
  cbv zeta in Hs.
  pose proof (SGHMC_branch_lengths self draws sess qs
                (match grad_func with Some f => f | None => default end))
    as Hlen. cbv zeta in Hlen.
  destruct (if negb (SGHMC.second_order self) then _ else _)
    as [new_vs new_qs].
  destruct Hlen as [Lq Lv].
  inversion Hs; subst sample_op new_samples sample_info. clear Hs.
  set (vs := new_variables tf.vs_var qs) in *.
  set (ops := tf.group (SGHMC.update_ops sess qs vs new_vs new_qs)) in *.
  assert (forall k nq, nth_error new_qs k = Some nq ->
            exists q nv,
              nth_error qs k = Some q /\ nth_error new_vs k = Some nv
              /\ tf.sess_value sess' q = nq
              /\ tf.sess_value sess' (tf.vs_var k) = nv) as Hrow.
  { intros k nq Hnq.
    assert (k < length new_qs)%nat as Hk
      by (apply nth_error_Some; congruence).
    destruct (nth_error_exists qs k) as [q Hq]; [lia|].
    destruct (nth_error_exists new_vs k) as [nv Hnv]; [lia|].
    assert (nth_error vs k = Some (tf.vs_var k)) as Hv
      by (apply new_variables_nth_error; lia).
    destruct (SGHMC_update_ops_row sess qs vs new_vs new_qs k q nq
                (tf.vs_var k) nv Hq Hnq Hv Hnv) as [Hinq Hinv].
    fold ops in Hinq, Hinv.
    pose proof (bound_latents_user qs k q Hb Hq) as Hu.
    exists q, nv. split; [exact Hq|]. split; [exact Hnv|]. split.
    - destruct (Session_run_evaluated _ _ _ _ _ _ _ Hrun Hinq) as [a Ea].
      rewrite (committed_value _ _ _ _ _ _ _ Hrun Hinq).
      + rewrite Ea. symmetry. now apply validate_shape_Some in Ea.
      + intros v' ctl' aft' Hin'.
        apply SGHMC_update_ops_nodes in Hin'.
        destruct Hin' as [[j [q' [nq' [Hj [Hnj E]]]]]
                         |[j [v [nv' [Hj [Hnj E]]]]]];
          inversion E; subst.
        * assert (j = k) as -> by (destruct Hb; eapply NoDup_nth_error_eq; eauto).
          congruence.
        * apply nth_error_new_variables in Hj. destruct Hj as [-> _].
          discriminate.
    - destruct (Session_run_evaluated _ _ _ _ _ _ _ Hrun Hinv) as [a Ea].
      rewrite (committed_value _ _ _ _ _ _ _ Hrun Hinv).
      + rewrite Ea. symmetry. now apply validate_shape_Some in Ea.
      + intros v' ctl' aft' Hin'.
        apply SGHMC_update_ops_nodes in Hin'.
        destruct Hin' as [[j [q' [nq' [Hj [Hnj E]]]]]
                         |[j [v [nv' [Hj [Hnj E]]]]]];
          inversion E; subst.
        * pose proof (bound_latents_user qs j _ Hb Hj) as Hu'. discriminate.
        * apply nth_error_new_variables in Hj. destruct Hj as [Ej _].
          inversion Ej; subst j. congruence. }
  split.
  - intros k name new_q Hk. rewrite nth_error_combine in Hk.
    destruct (nth_error latent_k k) as [name'|] eqn:En; [|discriminate].
    destruct (nth_error new_qs k) as [nq|] eqn:Enq; [|discriminate].
    inversion Hk; subst. split; [reflexivity|].
    destruct (Hrow k new_q Enq) as [q [nv [Hq [_ [Hval _]]]]]. eauto.
  - intros k name info Hk. rewrite nth_error_combine in Hk.
    destruct (nth_error latent_k k) as [name'|] eqn:En; [|discriminate].
    rewrite !nth_error_map in Hk.
    destruct (nth_error new_vs k) as [nv|] eqn:Env; [|discriminate].
    simpl in Hk. inversion Hk; subst. split; [reflexivity|].
    assert (k < length new_vs)%nat as Hlt
      by (apply nth_error_Some; congruence).
    destruct (nth_error_exists new_qs k) as [nq Hnq]; [lia|].
    destruct (Hrow k nq Hnq) as [q [nv' [_ [Hnv' [_ Hval]]]]].
    rewrite Hval. congruence.
Qed.

(** One first-order iteration of the quadratic scenario satisfies the
    hypotheses of the theorem above. *)
Lemma SGHMC_sample_outputs_witness :
  exists sample_op new_samples sample_info sess',
    sample (SGHMC.mk 0.01 0.25 0 20 false) [tf.user_var 0] ["q"%string]
      grad_quadratic None zero_draws
      (initialize (SGHMC.mk 0.01 0.25 0 20 false) [tf.user_var 0]
         zero_draws quadratic_session)
    = Some (sample_op, new_samples, sample_info)
    /\ tf.Session_run sample_op
         (initialize (SGHMC.mk 0.01 0.25 0 20 false) [tf.user_var 0]
            zero_draws quadratic_session) = Some sess'
    /\ forall k name new_q,
         nth_error new_samples k = Some (name, new_q) ->
         nth_error ["q"%string] k = Some name
         /\ exists q, nth_error [tf.user_var 0] k = Some q
                      /\ tf.sess_value sess' q = new_q.
Proof.
  assert (bound_latents [tf.user_var 0]) as Hb
    by (split; repeat constructor; intros []).
  destruct (SGHMC_iteration (SGHMC.mk 0.01 0.25 0 20 false)
              (initialize (SGHMC.mk 0.01 0.25 0 20 false) [tf.user_var 0]
                 zero_draws quadratic_session)
              zero_draws [tf.user_var 0] [tf.Dense [10]]
              [tf.Dense [0 * sqrt 0.01 + 0]] [tf.Dense [- (10)]]
              ["q"%string] grad_quadratic Hb)
    as [sess' [Hrun _]].
  - reflexivity.
  - reflexivity.
  - repeat constructor.
  - reflexivity.
  - repeat constructor.
  - unfold iteration in Hrun.
    destruct (sample (SGHMC.mk 0.01 0.25 0 20 false) [tf.user_var 0]
                ["q"%string] grad_quadratic None zero_draws
                (initialize (SGHMC.mk 0.01 0.25 0 20 false) [tf.user_var 0]
                   zero_draws quadratic_session))
      as [[[sample_op new_samples] sample_info]|] eqn:Es; [|discriminate].
    exists sample_op, new_samples, sample_info, sess'.
    split; [reflexivity|]. split; [exact Hrun|].
    exact (proj1 (SGHMC_sample_outputs _ _ _ _ _ _ _ _ _ _ _ Hb Es Hrun)).
Defined.

Section CommittedSGNHT.
Import tf.

Lemma SGNHT_update_ops_nodes sess qs vs alphas new_vs new_qs new_alphas n :
  In n (group (SGNHT.update_ops sess qs vs alphas new_vs new_qs new_alphas)) ->
  exists j x nx,
    n = Assign x (validate_shape (sess_value sess x) nx)
          (new_vs ++ new_qs ++ new_alphas) []
    /\ ((nth_error qs j = Some x /\ nth_error new_qs j = Some nx)
        \/ (nth_error vs j = Some x /\ nth_error new_vs j = Some nx)
        \/ (nth_error alphas j = Some x /\ nth_error new_alphas j = Some nx)).
Proof.
  unfold group, SGNHT.update_ops. intro Hn.
  apply in_concat in Hn. destruct Hn as [row [Hrow Hn]].
  apply in_map_iff in Hrow. destruct Hrow as [[uq [uv ua]] [<- Hpair]].
  pose proof (in_combine_l _ _ _ _ Hpair) as Hq.
  pose proof (in_combine_r _ _ _ _ Hpair) as Hva.
  pose proof (in_combine_l _ _ _ _ Hva) as Hv.
  pose proof (in_combine_r _ _ _ _ Hva) as Ha.
  apply in_map_iff in Hq. destruct Hq as [[q nq] [<- Hq]].
  apply in_map_iff in Hv. destruct Hv as [[v nv] [<- Hv]].
  apply in_map_iff in Ha. destruct Ha as [[al na] [<- Ha]].
  apply In_combine_nth_error in Hq. destruct Hq as [j1 [Hq1 Hq2]].
  apply In_combine_nth_error in Hv. destruct Hv as [j2 [Hv1 Hv2]].
  apply In_combine_nth_error in Ha. destruct Ha as [j3 [Ha1 Ha2]].
  simpl in Hn. destruct Hn as [<-|[<-|[<-|[]]]].
  - exists j1, q, nq. auto.
  - exists j2, v, nv. auto.
  - exists j3, al, na. auto 6.
Qed.

Lemma SGNHT_update_ops_row sess qs vs alphas new_vs new_qs new_alphas
    k q nq v nv al na :
  nth_error qs k = Some q -> nth_error new_qs k = Some nq ->
  nth_error vs k = Some v -> nth_error new_vs k = Some nv ->
  nth_error alphas k = Some al -> nth_error new_alphas k = Some na ->
  let ops := group (SGNHT.update_ops sess qs vs alphas
                      new_vs new_qs new_alphas) in
  let ctl := new_vs ++ new_qs ++ new_alphas in
  In (Assign q (validate_shape (sess_value sess q) nq) ctl []) ops
  /\ In (Assign v (validate_shape (sess_value sess v) nv) ctl []) ops
  /\ In (Assign al (validate_shape (sess_value sess al) na) ctl []) ops.
Proof.
  intros Hq Hnq Hv Hnv Ha Hna. cbv zeta. unfold group, SGNHT.update_ops.
  set (uq := Assign q _ _ _). set (uv := Assign v _ _ _).
  set (ua := Assign al _ _ _).
  match goal with
  | |- In _ (concat ?rows) /\ _ => assert (In [uq; uv; ua] rows) as Hrow
  end.
  { apply in_map_iff. exists (uq, (uv, ua)). split; [reflexivity|].
    apply (nth_error_In _ k).
    rewrite !nth_error_combine, !nth_error_map, !nth_error_combine.
    now rewrite Hq, Hnq, Hv, Hnv, Ha, Hna. }
  repeat split; apply in_concat; exists [uq; uv; ua];
    (split; [exact Hrow|]); simpl; auto.
Qed.

Lemma SGNHT_branch_lengths (self : SGNHT.t) draws sess qs grad_func :
  let vs := new_variables vs_var qs in
  let alphas := new_variables alphas_var qs in
  let OV := SGNHT.old_vs self draws sess vs in
  let GT := SGNHT.gaussian_terms self draws OV in
  let '(new_vs, new_qs, mean_ks, new_alphas) :=
    if negb (SGNHT.second_order self)
    then SGNHT.first_order_branch self sess qs alphas OV GT grad_func
    else SGNHT.second_order_branch self sess qs alphas OV GT grad_func in
  length new_qs = length new_vs /\ length new_alphas = length new_vs
  /\ (length new_vs <= length qs)%nat
  /\ mean_ks = map (fun new_v => SGNHT.maybe_reduce_mean self (square new_v))
                   new_vs.
Proof.
  cbv zeta.
  assert (length (SGNHT.old_vs self draws sess (new_variables vs_var qs))
          = length qs) as Lo.
  { unfold SGNHT.old_vs.
    now rewrite length_map, length_enumerate, length_new_variables. }
  pose proof (length_new_variables alphas_var qs) as La.
  destruct (negb (SGNHT.second_order self)).
  - unfold SGNHT.first_order_branch. cbv zeta.
    repeat split; try reflexivity; lengths.
  - unfold SGNHT.second_order_branch. cbv zeta.
    repeat split; try reflexivity; lengths.
Qed.
End CommittedSGNHT.

(** X13. What [SGNHT.sample] returns besides the operation: the new samples are,
    name by name, the values a completed run of the operation leaves in the
    latent variables; the statistic [mean_k] of each latent variable is the
    mean of the squares of the momentum the run leaves in its momentum
    Variable, and the statistic [alpha] the mean of the friction it leaves in
    its friction Variable. *)
Theorem SGNHT_sample_outputs (self : SGNHT.t) (draws : Draws)
    (sess sess' : tf.Session) (qs : list tf.Var) (latent_k : list string)
    (default : list (option tf.ndarray) -> list (option tf.ndarray))
    (grad_func : option (list (option tf.ndarray) -> list (option tf.ndarray)))
    (sample_op : list tf.Node)
    (new_samples : list (string * option tf.ndarray))
    (sample_info : list (string * Info)) :
  bound_latents qs ->
  sample self qs latent_k default grad_func draws sess
  = Some (sample_op, new_samples, sample_info) ->
  tf.Session_run sample_op sess = Some sess' ->
  (forall k name new_q,
      nth_error new_samples k = Some (name, new_q) ->
      nth_error latent_k k = Some name
      /\ exists q, nth_error qs k = Some q /\ tf.sess_value sess' q = new_q)
  /\ (forall k name info,
      nth_error sample_info k = Some (name, info) ->
      nth_error latent_k k = Some name
      /\ info
         = DictInfo
             [("mean_k"%string,
               tf.reduce_mean
                 (SGNHT.maybe_reduce_mean self
                    (tf.square (tf.sess_value sess' (tf.vs_var k)))));
              ("alpha"%string,
               tf.reduce_mean (tf.sess_value sess' (tf.alphas_var k)))]).
Proof.
  intros Hb Hs Hrun. unfold sample in Hs.
  cbn [_update SGNHT.SGNHT_Subclass] in Hs. unfold SGNHT._update in Hs.
  cbv zeta in Hs.
  pose proof (SGNHT_branch_lengths self draws sess qs
                (match grad_func with Some f => f | None => default end))
    as Hlen. cbv zeta in Hlen.
  destruct (if negb (SGNHT.second_order self) then _ else _)
    as [[[new_vs new_qs] mean_ks] new_alphas].
  destruct Hlen as [Lq [La [Lv Emean]]].
  inversion Hs; subst sample_op new_samples sample_info. clear Hs.
  set (vs := new_variables tf.vs_var qs) in *.
  set (alphas := new_variables tf.alphas_var qs) in *.
  set (ops := tf.group (SGNHT.update_ops sess qs vs alphas
                          new_vs new_qs new_alphas)) in *.
  assert (forall k, (k < length new_vs)%nat ->
            exists q nq nv na,
              nth_error qs k = Some q /\ nth_error new_qs k = Some nq
              /\ nth_error new_vs k = Some nv
              /\ nth_error new_alphas k = Some na
              /\ tf.sess_value sess' q = nq
              /\ tf.sess_value sess' (tf.vs_var k) = nv
              /\ tf.sess_value sess' (tf.alphas_var k) = na) as Hrow.
  { intros k Hk.
    destruct (nth_error_exists qs k) as [q Hq]; [lia|].
    destruct (nth_error_exists new_qs k) as [nq Hnq]; [lia|].
    destruct (nth_error_exists new_vs k) as [nv Hnv]; [lia|].
    destruct (nth_error_exists new_alphas k) as [na Hna]; [lia|].
    assert (nth_error vs k = Some (tf.vs_var k)) as Hv
      by (apply new_variables_nth_error; lia).
    assert (nth_error alphas k = Some (tf.alphas_var k)) as Ha
      by (apply new_variables_nth_error; lia).
    destruct (SGNHT_update_ops_row sess qs vs alphas new_vs new_qs new_alphas
                k q nq (tf.vs_var k) nv (tf.alphas_var k) na
                Hq Hnq Hv Hnv Ha Hna) as [Hinq [Hinv Hina]].
    fold ops in Hinq, Hinv, Hina.
    assert (forall x nx (j : nat),
               In (tf.Assign x (tf.validate_shape (tf.sess_value sess x) nx)
                     (new_vs ++ new_qs ++ new_alphas) []) ops ->
               (forall j' x' nx',
                   (nth_error qs j' = Some x' /\ nth_error new_qs j' = Some nx')
                   \/ (nth_error vs j' = Some x'
                       /\ nth_error new_vs j' = Some nx')
                   \/ (nth_error alphas j' = Some x'
                       /\ nth_error new_alphas j' = Some nx') ->
                   x' = x -> nx' = nx) ->
               tf.sess_value sess' x = nx) as Hcommit.
    { intros x nx j Hin Huniq.
      destruct (Session_run_evaluated _ _ _ _ _ _ _ Hrun Hin) as [a Ea].
      rewrite (committed_value _ _ _ _ _ _ _ Hrun Hin).
      - rewrite Ea. symmetry. now apply validate_shape_Some in Ea.
      - intros v' ctl' aft' Hin'.
        apply SGNHT_update_ops_nodes in Hin'.
        destruct Hin' as [j' [x' [nx' [E Hcase]]]].
        assert (x' = x) as Exx by congruence.
        pose proof (Huniq j' x' nx' Hcase Exx) as Enx.
        subst x' nx'. congruence. }
    pose proof (bound_latents_user qs k q Hb Hq) as Hu.
    exists q, nq, nv, na.
    split; [exact Hq|]. split; [exact Hnq|]. split; [exact Hnv|].
    split; [exact Hna|]. split; [|split].
    - apply (Hcommit q nq k Hinq).
      intros j' x' nx' [[H1 H2]|[[H1 H2]|[H1 H2]]] ->.
      + assert (j' = k) as ->
          by (destruct Hb; eapply NoDup_nth_error_eq; eauto).
        congruence.
      + apply nth_error_new_variables in H1. destruct H1 as [E _].
        rewrite E in Hu. discriminate.
      + apply nth_error_new_variables in H1. destruct H1 as [E _].
        rewrite E in Hu. discriminate.
    - apply (Hcommit (tf.vs_var k) nv k Hinv).
      intros j' x' nx' [[H1 H2]|[[H1 H2]|[H1 H2]]] ->.
      + pose proof (bound_latents_user qs j' _ Hb H1). discriminate.
      + apply nth_error_new_variables in H1. destruct H1 as [E _].
        inversion E; subst j'. congruence.
      + apply nth_error_new_variables in H1. destruct H1 as [E _].
        discriminate.
    - apply (Hcommit (tf.alphas_var k) na k Hina).
      intros j' x' nx' [[H1 H2]|[[H1 H2]|[H1 H2]]] ->.
      + pose proof (bound_latents_user qs j' _ Hb H1). discriminate.
      + apply nth_error_new_variables in H1. destruct H1 as [E _].
        discriminate.
      + apply nth_error_new_variables in H1. destruct H1 as [E _].
        inversion E; subst j'. congruence. }
  split.
  - intros k name new_q Hk. rewrite nth_error_combine in Hk.
    destruct (nth_error latent_k k) as [name'|] eqn:En; [|discriminate].
    destruct (nth_error new_qs k) as [nq|] eqn:Enq; [|discriminate].
    inversion Hk; subst name' nq. split; [reflexivity|].
    assert (k < length new_vs)%nat as Hlt
      by (rewrite <- Lq; apply nth_error_Some; congruence).
    destruct (Hrow k Hlt) as [q [nq [nv [na [Hq [Hnq [_ [_ [Hval _]]]]]]]]].
    exists q. split; [exact Hq|]. congruence.
  - intros k name info Hk. rewrite nth_error_combine in Hk.
    destruct (nth_error latent_k k) as [name'|] eqn:En; [|discriminate].
    rewrite nth_error_map, nth_error_combine in Hk.
    rewrite Emean, nth_error_map in Hk.
    destruct (nth_error new_vs k) as [nv|] eqn:Env; [|discriminate].
    destruct (nth_error new_alphas k) as [na|] eqn:Ena; [|discriminate].
    simpl in Hk. inversion Hk; subst name' info. split; [reflexivity|].
    assert (k < length new_vs)%nat as Hlt
      by (apply nth_error_Some; congruence).
    destruct (Hrow k Hlt) as [q [nq [nv' [na' [_ [_ [Hnv' [Hna' [_ [Hv Ha]]]]]]]]]].
    rewrite Hv, Ha. congruence.
Qed.

(** One iteration of the quadratic scenario satisfies the hypotheses of the
    theorem above. *)
Lemma SGNHT_sample_outputs_witness :
  exists sample_op new_samples sample_info sess',
    sample (SGNHT.mk 0.01 0 1 0 false true) [tf.user_var 0] ["q"%string]
      grad_quadratic None zero_draws
      (initialize (SGNHT.mk 0.01 0 1 0 false true) [tf.user_var 0]
         zero_draws quadratic_session)
    = Some (sample_op, new_samples, sample_info)
    /\ tf.Session_run sample_op
         (initialize (SGNHT.mk 0.01 0 1 0 false true) [tf.user_var 0]
            zero_draws quadratic_session) = Some sess'
    /\ forall k name new_q,
         nth_error new_samples k = Some (name, new_q) ->
         nth_error ["q"%string] k = Some name
         /\ exists q, nth_error [tf.user_var 0] k = Some q
                      /\ tf.sess_value sess' q = new_q.
Proof.
  assert (bound_latents [tf.user_var 0]) as Hb
    by (split; repeat constructor; intros []).
  destruct (SGNHT_iteration (SGNHT.mk 0.01 0 1 0 false true)
              (initialize (SGNHT.mk 0.01 0 1 0 false true) [tf.user_var 0]
                 zero_draws quadratic_session)
              zero_draws [tf.user_var 0] [tf.Dense [10]]
              [tf.Dense [0 * sqrt 0.01 + 0]] [tf.Dense [0 * 1]]
              [tf.Dense [- (10)]] ["q"%string] grad_quadratic Hb)
    as [sess' [Hrun _]].
  - reflexivity.
  - reflexivity.
  - reflexivity.
  - repeat constructor.
  - repeat constructor.
  - reflexivity.
  - repeat constructor.
  - unfold iteration in Hrun.
    destruct (sample (SGNHT.mk 0.01 0 1 0 false true) [tf.user_var 0]
                ["q"%string] grad_quadratic None zero_draws
                (initialize (SGNHT.mk 0.01 0 1 0 false true) [tf.user_var 0]
                   zero_draws quadratic_session))
      as [[[sample_op new_samples] sample_info]|] eqn:Es; [|discriminate].
    exists sample_op, new_samples, sample_info, sess'.
    split; [reflexivity|]. split; [exact Hrun|].
    exact (proj1 (SGNHT_sample_outputs _ _ _ _ _ _ _ _ _ _ _ Hb Es Hrun)).
Defined.

Section CommittedSGLD.
Import tf.

Lemma nth_error_rows {A B : Type} (f : nat * A -> B) (l : list A) k r :
  nth_error (map f (enumerate 0 l)) k = Some r ->
  exists a, nth_error l k = Some a /\ r = f (k, a).
Proof.
  rewrite nth_error_map, nth_error_enumerate.
  destruct (nth_error l k) as [a|]; [|discriminate].
  simpl. intro E. inversion E. eauto.
Qed.

Lemma SGLD_update_single_parts (self : SGLD.t) sess draw q grad :
  exists new_q,
    SGLD._update_single self sess draw q grad
    = ([Assign q (validate_shape (sess_value sess q) new_q) [] []],
       new_q, StringInfo "No info.").
Proof. unfold SGLD._update_single. cbv zeta. eauto. Qed.

Lemma PSGLD_update_single_parts (self : PSGLD.t) sess draw q grad aux :
  exists aux' new_q,
    PSGLD._update_single self sess draw q grad aux
    = ([Assign aux aux' [] [];
        Assign q (validate_shape (sess_value sess q) new_q) [] [aux]],
       new_q, StringInfo "No info.").
Proof.
  unfold PSGLD._update_single, PSGLD.RMSPreconditioner._get_preconditioner.
  cbv zeta. eauto.
Qed.
End CommittedSGLD.

(** X14. What [SGLD.sample] and [PSGLD.sample] return besides the operation: the
    new samples are, name by name, the values a completed run of the
    operation leaves in the latent variables, and the statistic of every
    latent variable is the string "No info.". *)
Theorem SGLD_sample_outputs :
  (forall (self : SGLD.t) draws sess sess' qs latent_k default grad_func
          sample_op new_samples sample_info,
      NoDup qs ->
      sample self qs latent_k default grad_func draws sess
      = Some (sample_op, new_samples, sample_info) ->
      tf.Session_run sample_op sess = Some sess' ->
      (forall k name new_q,
          nth_error new_samples k = Some (name, new_q) ->
          nth_error latent_k k = Some name
          /\ exists q, nth_error qs k = Some q
                       /\ tf.sess_value sess' q = new_q)
      /\ (forall k name info,
          nth_error sample_info k = Some (name, info) ->
          info = StringInfo "No info."))
  /\ (forall (self : PSGLD.t) draws sess sess' qs latent_k default grad_func
             sample_op new_samples sample_info,
      bound_latents qs ->
      sample self qs latent_k default grad_func draws sess
      = Some (sample_op, new_samples, sample_info) ->
      tf.Session_run sample_op sess = Some sess' ->
      (forall k name new_q,
          nth_error new_samples k = Some (name, new_q) ->
          nth_error latent_k k = Some name
          /\ exists q, nth_error qs k = Some q
                       /\ tf.sess_value sess' q = new_q)
      /\ (forall k name info,
          nth_error sample_info k = Some (name, info) ->
          info = StringInfo "No info.")).
Proof.
  split.
  - intros self draws sess sess' qs latent_k default grad_func
           sample_op new_samples sample_info Hd Hs Hrun.
    unfold sample in Hs. cbn [_update SGLD.SGLD_Subclass] in Hs.
    unfold SGLD._update in Hs.
    set (gf := match grad_func with Some f => f | None => default end) in *.
    set (grads := gf (map (tf.sess_value sess) qs)) in *.
    set (rows := map _ (enumerate 0 (combine qs grads))) in *.
    assert (sample_op = tf.AssignAdd_t 1
                          :: tf.group (map (fun r => fst (fst r)) rows)
            /\ new_samples = combine latent_k (map (fun r => snd (fst r)) rows)
            /\ sample_info = combine latent_k (map (fun r => snd r) rows))
      as [-> [-> ->]].
    { unfold unzip3 in Hs. destruct rows; [discriminate|].
      inversion Hs. auto. }
    clear Hs. split.
    + intros k name new_q Hk. rewrite nth_error_combine in Hk.
      destruct (nth_error latent_k k) as [name'|]; [|discriminate].
      rewrite nth_error_map in Hk.
      destruct (nth_error rows k) as [r|] eqn:Er; [|discriminate].
      simpl in Hk. inversion Hk; subst name' new_q. split; [reflexivity|].
      apply nth_error_rows in Er. destruct Er as [[q grad] [Ec ->]].
      rewrite nth_error_combine in Ec.
      destruct (nth_error qs k) as [q0|] eqn:Eq; [|discriminate].
      destruct (nth_error grads k) as [g0|] eqn:Eg; [|discriminate].
      inversion Ec; subst q0 g0. exists q. split; [reflexivity|].
      destruct (SGLD_update_single_parts self sess (draw_noise draws k) q grad)
        as [nq Enq].
      rewrite Enq. cbn [fst snd].
      assert (In (tf.Assign q (tf.validate_shape (tf.sess_value sess q) nq)
                    [] [])
                 (tf.group (map (fun r => fst (fst r)) rows))) as Hin.
      { apply (SGLD_node_of_row self draws sess qs gf k q grad Eq Eg).
        rewrite Enq. now left. }
      destruct (Session_run_evaluated _ _ _ _ _ _ _ Hrun Hin) as [a Ea].
      rewrite (committed_value _ _ _ _ _ _ _ Hrun Hin).
      * rewrite Ea. symmetry. now apply validate_shape_Some in Ea.
      * intros v' ctl' aft' Hin'.
        apply (SGLD_nodes self draws sess qs gf) in Hin'.
        destruct Hin' as [j [q' [grad' [Ej [Egj Hn]]]]].
        destruct (SGLD_update_single_parts self sess (draw_noise draws j)
                    q' grad') as [nq' Enq'].
        rewrite Enq' in Hn. destruct Hn as [E|[]]. inversion E; subst.
        assert (j = k) as -> by (eapply NoDup_nth_error_eq; eauto).
        assert (grad' = grad) as -> by (unfold grads in Eg; congruence).
        rewrite Enq in Enq'. now inversion Enq'.
    + intros k name info Hk. rewrite nth_error_combine in Hk.
      destruct (nth_error latent_k k) as [name'|]; [|discriminate].
      rewrite nth_error_map in Hk.
      destruct (nth_error rows k) as [r|] eqn:Er; [|discriminate].
      simpl in Hk. inversion Hk; subst name' info.
      apply nth_error_rows in Er. destruct Er as [[q grad] [Ec ->]].
      destruct (SGLD_update_single_parts self sess (draw_noise draws k) q grad)
        as [nq Enq].
      now rewrite Enq.
  - intros self draws sess sess' qs latent_k default grad_func
           sample_op new_samples sample_info Hb Hs Hrun.
    unfold sample in Hs. cbn [_update PSGLD.PSGLD_Subclass] in Hs.
    unfold PSGLD._update in Hs. cbv zeta in Hs.
    set (gf := match grad_func with Some f => f | None => default end) in *.
    set (grads := gf (map (tf.sess_value sess) qs)) in *.
    set (vs := new_variables tf.vs_var qs) in *.
    set (rows := map _ (enumerate 0 (combine qs (combine grads vs)))) in *.
    assert (sample_op = tf.AssignAdd_t 1
                          :: tf.group (map (fun r => fst (fst r)) rows)
            /\ new_samples = combine latent_k (map (fun r => snd (fst r)) rows)
            /\ sample_info = combine latent_k (map (fun r => snd r) rows))
      as [-> [-> ->]].
    { unfold unzip3 in Hs. destruct rows; [discriminate|].
      inversion Hs. auto. }
    clear Hs. split.
    + intros k name new_q Hk. rewrite nth_error_combine in Hk.
      destruct (nth_error latent_k k) as [name'|]; [|discriminate].
      rewrite nth_error_map in Hk.
      destruct (nth_error rows k) as [r|] eqn:Er; [|discriminate].
      simpl in Hk. inversion Hk; subst name' new_q. split; [reflexivity|].
      apply nth_error_rows in Er. destruct Er as [[q [grad aux]] [Ec ->]].
      rewrite !nth_error_combine in Ec.
      destruct (nth_error qs k) as [q0|] eqn:Eq; [|discriminate].
      destruct (nth_error grads k) as [g0|] eqn:Eg; [|discriminate].
      destruct (nth_error vs k) as [a0|] eqn:Ev; [|discriminate].
      inversion Ec; subst q0 g0 a0. exists q. split; [reflexivity|].
      apply nth_error_new_variables in Ev. destruct Ev as [-> Hlt].
      destruct (PSGLD_update_single_parts self sess (draw_noise draws k)
                  q grad (tf.vs_var k)) as [aux' [nq Enq]].
      rewrite Enq. cbn [fst snd].
      pose proof (bound_latents_user qs k q Hb Eq) as Hu.
      assert (In (tf.Assign q (tf.validate_shape (tf.sess_value sess q) nq)
                    [] [tf.vs_var k])
                 (tf.group (map (fun r => fst (fst r)) rows))) as Hin.
      { apply (PSGLD_node_of_row self draws sess qs gf k q grad Eq Eg).
        rewrite Enq. right. now left. }
      destruct (Session_run_evaluated _ _ _ _ _ _ _ Hrun Hin) as [a Ea].
      rewrite (committed_value _ _ _ _ _ _ _ Hrun Hin).
      * rewrite Ea. symmetry. now apply validate_shape_Some in Ea.
      * intros v' ctl' aft' Hin'.
        apply (PSGLD_nodes self draws sess qs gf) in Hin'.
        destruct Hin' as [j [q' [grad' [Ej [Egj Hn]]]]].
        destruct (PSGLD_update_single_parts self sess (draw_noise draws j)
                    q' grad' (tf.vs_var j)) as [aux'' [nq' Enq']].
        rewrite Enq' in Hn. destruct Hn as [E|[E|[]]]; inversion E; subst.
        { discriminate. }
        assert (j = k) as ->
          by (destruct Hb; eapply NoDup_nth_error_eq; eauto).
        assert (grad' = grad) as -> by (unfold grads in Eg; congruence).
        rewrite Enq in Enq'. now inversion Enq'.
    + intros k name info Hk. rewrite nth_error_combine in Hk.
      destruct (nth_error latent_k k) as [name'|]; [|discriminate].
      rewrite nth_error_map in Hk.
      destruct (nth_error rows k) as [r|] eqn:Er; [|discriminate].
      simpl in Hk. inversion Hk; subst name' info.
      apply nth_error_rows in Er. destruct Er as [[q [grad aux]] [Ec ->]].
      destruct (PSGLD_update_single_parts self sess (draw_noise draws k)
                  q grad aux) as [aux' [nq Enq]].
      now rewrite Enq.
Qed.

(** One SGLD iteration of the quadratic scenario satisfies the hypotheses
    of the first part of the theorem above. *)
Lemma SGLD_sample_outputs_witness :
  exists sample_op new_samples sample_info sess',
    sample (SGLD.__init__ 0.01 None) [tf.user_var 0] ["q"%string]
      grad_quadratic None zero_draws quadratic_session
    = Some (sample_op, new_samples, sample_info)
    /\ tf.Session_run sample_op quadratic_session = Some sess'
    /\ forall k name new_q,
         nth_error new_samples k = Some (name, new_q) ->
         nth_error ["q"%string] k = Some name
         /\ exists q, nth_error [tf.user_var 0] k = Some q
                      /\ tf.sess_value sess' q = new_q.
Proof.
  assert (NoDup [tf.user_var 0]) as Hd by (repeat constructor; intros []).
  destruct (SGLD_iteration (SGLD.__init__ 0.01 None) quadratic_session
              zero_draws [tf.user_var 0] [tf.Dense [10]] [tf.Dense [- (10)]]
              ["q"%string] grad_quadratic Hd)
    as [sess' [Hrun _]].
  - discriminate.
  - reflexivity.
  - reflexivity.
  - repeat constructor.
  - unfold iteration in Hrun.
    destruct (sample (SGLD.__init__ 0.01 None) [tf.user_var 0]
                ["q"%string] grad_quadratic None zero_draws quadratic_session)
      as [[[sample_op new_samples] sample_info]|] eqn:Es; [|discriminate].
    exists sample_op, new_samples, sample_info, sess'.
    split; [reflexivity|]. split; [exact Hrun|].
    exact (proj1 (proj1 SGLD_sample_outputs _ _ _ _ _ _ _ _ _ _ _
                    Hd Es Hrun)).
Defined.

(** *** A gradient list shorter than the list of latent variables *)

Section ShortGradients.
Import tf.

Lemma SGHMC_branch_short (self : SGHMC.t) draws sess qs grad_func m :
  (forall inputs, (length (grad_func inputs) <= m)%nat) ->
  let vs := new_variables vs_var qs in
  let OV := SGHMC.old_vs self draws sess vs in
  let GT := SGHMC.gaussian_terms self draws OV in
  let '(new_vs, new_qs) :=
    if negb (SGHMC.second_order self)
    then SGHMC.first_order_branch self sess qs OV GT grad_func
    else SGHMC.second_order_branch self sess qs OV GT grad_func in
  (length new_vs <= m)%nat /\ (length new_qs <= m)%nat.
Proof.
  intro Hm. cbv zeta.
  destruct (negb (SGHMC.second_order self)).
  - unfold SGHMC.first_order_branch. cbv zeta.
    pose proof (Hm (map (sess_value sess) qs)). split; lengths.
  - unfold SGHMC.second_order_branch. cbv zeta.
    set (q1s := map _ (combine qs _)).
    pose proof (Hm q1s). split; lengths.
Qed.

Lemma SGNHT_branch_short (self : SGNHT.t) draws sess qs grad_func m :
  (forall inputs, (length (grad_func inputs) <= m)%nat) ->
  let vs := new_variables vs_var qs in
  let alphas := new_variables alphas_var qs in
  let OV := SGNHT.old_vs self draws sess vs in
  let GT := SGNHT.gaussian_terms self draws OV in
  let '(new_vs, new_qs, _, new_alphas) :=
    if negb (SGNHT.second_order self)
    then SGNHT.first_order_branch self sess qs alphas OV GT grad_func
    else SGNHT.second_order_branch self sess qs alphas OV GT grad_func in
  (length new_vs <= m)%nat /\ (length new_qs <= m)%nat
  /\ (length new_alphas <= m)%nat.
Proof.
  intro Hm. cbv zeta.
  destruct (negb (SGNHT.second_order self)).
  - unfold SGNHT.first_order_branch. cbv zeta.
    pose proof (Hm (map (sess_value sess) qs)). repeat split; lengths.
  - unfold SGNHT.second_order_branch. cbv zeta.
    set (q1s := map _ (combine qs _)).
    pose proof (Hm q1s). repeat split; lengths.
Qed.

Lemma run_untouched op s o s' x :
  (forall n, In n op -> writes n x = false) ->
  run op s o -> o = Completed s' \/ o = Raised s' ->
  sess_value s' x = sess_value s x.
Proof.
  intros Hw Hrun Ho. eapply run_preserves; [|exact Hrun|exact Ho].
  intros n Hn Hx. rewrite (Hw n Hn) in Hx. discriminate.
Qed.
End ShortGradients.

(** X15. A gradient function that returns fewer gradients than there are latent
    variables is not detected: the latent variables beyond the end of the
    gradient list get no assignment, and no run of the sampling operation
    changes them.  With no gradient at all, [SGLD.sample] and [PSGLD.sample]
    raise when they unpack the empty result, and the operation of SGHMC and
    of SGNHT only advances the counter. *)
Theorem short_gradient_list :
  (forall (self : SGLD.t) draws sess qs latent_k grad_func,
      (grad_func (map (tf.sess_value sess) qs) = [] ->
       sample self qs latent_k grad_func None draws sess = None)
      /\ forall m k q sample_op new_samples sample_info o sess',
           (forall inputs, (length (grad_func inputs) <= m)%nat) ->
           NoDup qs -> nth_error qs k = Some q -> (m <= k)%nat ->
           sample self qs latent_k grad_func None draws sess
           = Some (sample_op, new_samples, sample_info) ->
           tf.run sample_op sess o ->
           o = tf.Completed sess' \/ o = tf.Raised sess' ->
           tf.sess_value sess' q = tf.sess_value sess q)
  /\ (forall (self : PSGLD.t) draws sess qs latent_k grad_func,
      (grad_func (map (tf.sess_value sess) qs) = [] ->
       sample self qs latent_k grad_func None draws sess = None)
      /\ forall m k q sample_op new_samples sample_info o sess',
           (forall inputs, (length (grad_func inputs) <= m)%nat) ->
           bound_latents qs -> nth_error qs k = Some q -> (m <= k)%nat ->
           sample self qs latent_k grad_func None draws sess
           = Some (sample_op, new_samples, sample_info) ->
           tf.run sample_op sess o ->
           o = tf.Completed sess' \/ o = tf.Raised sess' ->
           tf.sess_value sess' q = tf.sess_value sess q)
  /\ (forall (self : SGHMC.t) draws sess qs latent_k grad_func,
      ((forall inputs, grad_func inputs = []) ->
       sample self qs latent_k grad_func None draws sess
       = Some ([tf.AssignAdd_t 1], [], []))
      /\ forall m k q sample_op new_samples sample_info o sess',
           (forall inputs, (length (grad_func inputs) <= m)%nat) ->
           bound_latents qs -> nth_error qs k = Some q -> (m <= k)%nat ->
           sample self qs latent_k grad_func None draws sess
           = Some (sample_op, new_samples, sample_info) ->
           tf.run sample_op sess o ->
           o = tf.Completed sess' \/ o = tf.Raised sess' ->
           tf.sess_value sess' q = tf.sess_value sess q)
  /\ (forall (self : SGNHT.t) draws sess qs latent_k grad_func,
      ((forall inputs, grad_func inputs = []) ->
       sample self qs latent_k grad_func None draws sess
       = Some ([tf.AssignAdd_t 1], [], []))
      /\ forall m k q sample_op new_samples sample_info o sess',
           (forall inputs, (length (grad_func inputs) <= m)%nat) ->
           bound_latents qs -> nth_error qs k = Some q -> (m <= k)%nat ->
           sample self qs latent_k grad_func None draws sess
           = Some (sample_op, new_samples, sample_info) ->
           tf.run sample_op sess o ->
           o = tf.Completed sess' \/ o = tf.Raised sess' ->
           tf.sess_value sess' q = tf.sess_value sess q).
Proof.
  split; [|split; [|split]].
  - intros self draws sess qs latent_k grad_func. split.
    + intro Hg. unfold sample. cbn [_update SGLD.SGLD_Subclass].
      unfold SGLD._update. rewrite Hg.
      replace (combine qs (@nil (option tf.ndarray)))
        with (@nil (tf.Var * option tf.ndarray)) by now destruct qs.
      reflexivity.
    + intros m k q sample_op new_samples sample_info o sess'
             Hm Hd Hq Hk Hs Hrun Ho.
      eapply run_untouched; [|exact Hrun|exact Ho].
      unfold sample in Hs. cbn [_update SGLD.SGLD_Subclass] in Hs.
      unfold SGLD._update in Hs.
      set (rows := map _ (enumerate 0 (combine qs _))) in Hs.
      assert (sample_op = tf.AssignAdd_t 1
                            :: tf.group (map (fun r => fst (fst r)) rows))
        as ->.
      { unfold unzip3 in Hs. destruct rows; [discriminate|].
        now inversion Hs. }
      clear Hs.
      intros n [<-|Hn]; [reflexivity|].
      apply (SGLD_nodes self draws sess qs grad_func) in Hn.
      destruct Hn as [j [q' [grad [Ej [Eg Hin]]]]].
      destruct (SGLD_update_single_parts self sess (draw_noise draws j) q' grad)
        as [nq Enq].
      rewrite Enq in Hin. destruct Hin as [<-|[]]. cbn [tf.writes].
      apply Var_eqb_neq. intros ->.
      assert (j = k) as -> by (eapply NoDup_nth_error_eq; eauto).
      assert (k < length (grad_func (map (tf.sess_value sess) qs)))%nat
        by (apply nth_error_Some; congruence).
      specialize (Hm (map (tf.sess_value sess) qs)). lia.
  - intros self draws sess qs latent_k grad_func. split.
    + intro Hg. unfold sample. cbn [_update PSGLD.PSGLD_Subclass].
      unfold PSGLD._update. cbv zeta. rewrite Hg.
      replace (combine qs (combine (@nil (option tf.ndarray))
                             (new_variables tf.vs_var qs)))
        with (@nil (tf.Var * (option tf.ndarray * tf.Var)))
        by now destruct qs.
      reflexivity.
    + intros m k q sample_op new_samples sample_info o sess'
             Hm Hb Hq Hk Hs Hrun Ho.
      eapply run_untouched; [|exact Hrun|exact Ho].
      unfold sample in Hs. cbn [_update PSGLD.PSGLD_Subclass] in Hs.
      unfold PSGLD._update in Hs. cbv zeta in Hs.
      set (rows := map _ (enumerate 0 (combine qs _))) in Hs.
      assert (sample_op = tf.AssignAdd_t 1
                            :: tf.group (map (fun r => fst (fst r)) rows))
        as ->.
      { unfold unzip3 in Hs. destruct rows; [discriminate|].
        now inversion Hs. }
      clear Hs.
      intros n [<-|Hn]; [reflexivity|].
      apply (PSGLD_nodes self draws sess qs grad_func) in Hn.
      destruct Hn as [j [q' [grad [Ej [Eg Hin]]]]].
      destruct (PSGLD_update_single_parts self sess (draw_noise draws j)
                  q' grad (tf.vs_var j)) as [aux' [nq Enq]].
      pose proof (bound_latents_user qs k q Hb Hq) as Hu.
      rewrite Enq in Hin. destruct Hin as [<-|[<-|[]]]; cbn [tf.writes];
        apply Var_eqb_neq; intros E'.
      * rewrite <- E' in Hu. discriminate.
      * subst q'.
        assert (j = k) as ->
          by (destruct Hb; eapply NoDup_nth_error_eq; eauto).
        assert (k < length (grad_func (map (tf.sess_value sess) qs)))%nat
          by (apply nth_error_Some; congruence).
        specialize (Hm (map (tf.sess_value sess) qs)). lia.
  - intros self draws sess qs latent_k grad_func. split.
    + intro Hg. unfold sample. cbn [_update SGHMC.SGHMC_Subclass].
      unfold SGHMC._update. cbv zeta.
      destruct (negb (SGHMC.second_order self)).
      * unfold SGHMC.first_order_branch. cbv zeta. rewrite Hg.
        rewrite combine_nil.
        replace (combine (SGHMC.old_vs self draws sess
                            (new_variables tf.vs_var qs))
                         (@nil (option tf.ndarray * option tf.ndarray)))
          with (@nil (option tf.ndarray
                      * (option tf.ndarray * option tf.ndarray)))
          by now rewrite combine_nil.
        cbn [map]. rewrite !combine_nil. unfold SGHMC.update_ops.
        cbv zeta. rewrite !combine_nil. reflexivity.
      * unfold SGHMC.second_order_branch. cbv zeta. rewrite Hg.
        rewrite combine_nil.
        replace (combine (SGHMC.old_vs self draws sess
                            (new_variables tf.vs_var qs))
                         (@nil (option tf.ndarray * option tf.ndarray)))
          with (@nil (option tf.ndarray
                      * (option tf.ndarray * option tf.ndarray)))
          by now rewrite combine_nil.
        cbn [map]. rewrite !combine_nil. unfold SGHMC.update_ops.
        cbv zeta. rewrite !combine_nil. reflexivity.
    + intros m k q sample_op new_samples sample_info o sess'
             Hm Hb Hq Hk Hs Hrun Ho.
      eapply run_untouched; [|exact Hrun|exact Ho].
      unfold sample in Hs. cbn [_update SGHMC.SGHMC_Subclass] in Hs.
      unfold SGHMC._update in Hs. cbv zeta in Hs.
      pose proof (SGHMC_branch_short self draws sess qs grad_func m Hm)
        as Hlen. cbv zeta in Hlen.
      destruct (if negb (SGHMC.second_order self) then _ else _)
        as [new_vs new_qs].
      destruct Hlen as [Lv Lq].
      inversion Hs; subst sample_op new_samples sample_info. clear Hs.
      pose proof (bound_latents_user qs k q Hb Hq) as Hu.
      intros n [<-|Hn]; [reflexivity|].
      apply SGHMC_update_ops_nodes in Hn.
      destruct Hn as [[j [q' [nq [Hj [Hnj ->]]]]]
                     |[j [v [nv [Hj [Hnj ->]]]]]]; cbn [tf.writes];
        apply Var_eqb_neq; intros E'.
      * subst q'.
        assert (j = k) as ->
          by (destruct Hb; eapply NoDup_nth_error_eq; eauto).
        assert (k < length new_qs)%nat by (apply nth_error_Some; congruence).
        lia.
      * apply nth_error_new_variables in Hj. destruct Hj as [-> _].
        rewrite <- E' in Hu. discriminate.
  - intros self draws sess qs latent_k grad_func. split.
    + intro Hg. unfold sample. cbn [_update SGNHT.SGNHT_Subclass].
      unfold SGNHT._update. cbv zeta.
      destruct (negb (SGNHT.second_order self)).
      * unfold SGNHT.first_order_branch. cbv zeta. rewrite Hg.
        repeat (rewrite ?combine_nil; cbn [map combine]).
        unfold SGNHT.update_ops. cbv zeta.
        repeat (rewrite ?combine_nil; cbn [map combine]). reflexivity.
      * unfold SGNHT.second_order_branch. cbv zeta. rewrite Hg.
        repeat (rewrite ?combine_nil; cbn [map combine]).
        unfold SGNHT.update_ops. cbv zeta.
        repeat (rewrite ?combine_nil; cbn [map combine]). reflexivity.
    + intros m k q sample_op new_samples sample_info o sess'
             Hm Hb Hq Hk Hs Hrun Ho.
      eapply run_untouched; [|exact Hrun|exact Ho].
      unfold sample in Hs. cbn [_update SGNHT.SGNHT_Subclass] in Hs.
      unfold SGNHT._update in Hs. cbv zeta in Hs.
      pose proof (SGNHT_branch_short self draws sess qs grad_func m Hm)
        as Hlen. cbv zeta in Hlen.
      destruct (if negb (SGNHT.second_order self) then _ else _)
        as [[[new_vs new_qs] mean_ks] new_alphas].
      destruct Hlen as [Lv [Lq La]].
      inversion Hs; subst sample_op new_samples sample_info. clear Hs.
      pose proof (bound_latents_user qs k q Hb Hq) as Hu.
      intros n [<-|Hn]; [reflexivity|].
      apply SGNHT_update_ops_nodes in Hn.
      destruct Hn as [j [x [nx [-> Hcase]]]]. cbn [tf.writes].
      apply Var_eqb_neq. intros ->.
      destruct Hcase as [[H1 H2]|[[H1 H2]|[H1 H2]]].
      * assert (j = k) as ->
          by (destruct Hb; eapply NoDup_nth_error_eq; eauto).
        assert (k < length new_qs)%nat by (apply nth_error_Some; congruence).
        lia.
      * apply nth_error_new_variables in H1. destruct H1 as [E' _].
        rewrite E' in Hu. discriminate.
      * apply nth_error_new_variables in H1. destruct H1 as [E' _].
        rewrite E' in Hu. discriminate.
Qed.

(** SGHMC on two latent variables with a gradient function that returns
    the gradient of the first one only: the hypotheses of the third part of
    the theorem above hold, the run completes, and the second latent variable
    keeps its value. *)
Lemma short_gradient_list_witness :
  exists sample_op new_samples sample_info sess',
    sample (SGHMC.mk 0.01 0.25 0 0 false) [tf.user_var 0; tf.user_var 1]
      ["a"; "b"]%string (fun xs => firstn 1 (grad_quadratic xs)) None
      zero_draws two_latents_session
    = Some (sample_op, new_samples, sample_info)
    /\ tf.run sample_op two_latents_session (tf.Completed sess')
    /\ tf.sess_value sess' (tf.user_var 1)
       = tf.sess_value two_latents_session (tf.user_var 1).
Proof.
  eexists _, _, _, _.
  split; [unfold sample; cbn; reflexivity|].
  split; [apply tf.run_completed; reflexivity|].
  refine (proj2 (proj1 (proj2 (proj2 short_gradient_list))
                   (SGHMC.mk 0.01 0.25 0 0 false) zero_draws
                   two_latents_session [tf.user_var 0; tf.user_var 1]
                   ["a"; "b"]%string
                   (fun xs => firstn 1 (grad_quadratic xs)))
            1%nat 1%nat (tf.user_var 1) _ _ _ (tf.Completed _) _
            _ _ eq_refl (Nat.le_refl 1) eq_refl _ (or_introl eq_refl)).
  - intro inputs. apply firstn_le_length.
  - split; repeat constructor; [intros [E|[]]; discriminate|intros []].
  - apply tf.run_completed. reflexivity.
Defined.

(** *** The property [bn] and the state [make_grad_func] leaves *)

Section AttributesProperties.
Variables (M BayesianNet : Type).
Variable observe : M -> list (string * PyObject) -> BayesianNet.
Variable log_joint : BayesianNet -> option tf.ndarray.
Variable truth_value : M -> bool.
Variable merge_dicts :
  forall V : Type, list (string * V) -> list (string * V) -> list (string * V).
Variable gradients : (list (option tf.ndarray) -> option tf.ndarray) ->
                     list (option tf.ndarray) -> list (option tf.ndarray).

Let bn_of := bn M BayesianNet observe truth_value merge_dicts.
Let bind :=
  make_grad_func_method M BayesianNet observe log_joint merge_dicts gradients.

Lemma bind_keeps_bn self meta_bn observed latent :
  _bn M BayesianNet (fst (bind self meta_bn observed latent))
  = _bn M BayesianNet self.
Proof.
  unfold bind, make_grad_func_method. cbv zeta.
  destruct (make_grad_func _ _ _ _ _) as [e|[bound results]];
    destruct meta_bn; reflexivity.
Qed.

Lemma bind_sets_meta_bn self meta_bn observed latent :
  _meta_bn M BayesianNet (fst (bind self meta_bn observed latent))
  = Some (match meta_bn with
          | Callable _ _ => None
          | Instance _ m => Some m
          end).
Proof.
  unfold bind, make_grad_func_method. cbv zeta.
  destruct (make_grad_func _ _ _ _ _) as [e|[bound results]];
    destruct meta_bn; reflexivity.
Qed.

Lemma bn_returned self b :
  snd (bn_of self) = Some (Some b) ->
  _bn M BayesianNet (fst (bn_of self)) = Some b.
Proof.
  unfold bn_of, bn. destruct self as [mb lj ob la bd cache]. cbn.
  destruct mb as [[m|]|]; cbn; try discriminate.
  destruct (truth_value m); [|discriminate].
  destruct cache as [b'|]; cbn; [congruence|].
  destruct la; [destruct ob|]; cbn; congruence.
Qed.

(** X16. [bn] is [None] on an object that was never bound and after binding a
    log-joint function; it is computed at most once: asking again returns
    the same net and changes nothing; and once it has returned a net, binding
    the sampler to another MetaBayesianNet, whatever the observed values and
    the latent variables and whether or not the binding succeeds, leaves [bn]
    returning that same net. *)
Theorem bn_is_computed_once :
  snd (bn_of (new_object M BayesianNet)) = Some None
  /\ (forall self f observed latent,
         snd (bn_of (fst (bind self (Callable M f) observed latent)))
         = Some None)
  /\ (forall self, bn_of (fst (bn_of self)) = (fst (bn_of self), snd (bn_of self)))
  /\ (forall self b m observed latent,
         snd (bn_of self) = Some (Some b) ->
         truth_value m = true ->
         snd (bn_of (fst (bind (fst (bn_of self)) (Instance M m)
                            observed latent)))
         = Some (Some b)).
Proof.
  split; [reflexivity|]. split; [|split].
  - intros self f observed latent. unfold bn_of, bn.
    now rewrite (bind_sets_meta_bn self (Callable M f) observed latent).
  - intros [mb lj ob la bd cache]. unfold bn_of, bn. cbn.
    destruct mb as [[m|]|]; cbn; try reflexivity.
    destruct (truth_value m) eqn:Et; cbn; [|now rewrite Et].
    destruct cache as [b'|]; cbn; [now rewrite Et|].
    destruct la as [la|]; [destruct ob as [ob|]|]; cbn; now rewrite Et.
  - intros self b m observed latent Hb Hm.
    pose proof (bn_returned self b Hb) as Hcache.
    unfold bn_of at 1. unfold bn.
    rewrite (bind_sets_meta_bn (fst (bn_of self)) (Instance M m)
               observed latent), Hm.
    now rewrite (bind_keeps_bn (fst (bn_of self)) (Instance M m)
                   observed latent), Hcache.
Qed.

(** X17. A call of [make_grad_func] that raises TypeError has already replaced
    the model of the sampler: on an object without a cached net, [bn]
    afterwards observes the rejected latent mapping with the new
    MetaBayesianNet, while the attributes [sample] reads are those of the
    previous binding. *)
Theorem make_grad_func_not_atomic (self : Object M BayesianNet) (m : M)
    (observed : list (string * option tf.ndarray))
    (latent : list (string * PyObject)) :
  _bn M BayesianNet self = None ->
  truth_value m = true ->
  Exists (fun entry => isinstance_Variable (snd entry) = false) latent ->
  (exists msg, snd (bind self (Instance M m) observed latent)
               = inl (TypeError msg))
  /\ _bound M BayesianNet (fst (bind self (Instance M m) observed latent))
     = _bound M BayesianNet self
  /\ snd (bn_of (fst (bind self (Instance M m) observed latent)))
     = Some (Some (observe m (merge_dicts PyObject latent
                                (as_objects observed)))).
Proof.
  intros Hcache Hm Hex.
  destruct (make_grad_func_first_error (merge_dicts (option tf.ndarray))
              gradients (as_MetaBN M BayesianNet observe log_joint (Instance M m))
              observed latent Hex)
    as [i [name [v [_ [_ [_ E]]]]]].
  unfold bind, make_grad_func_method. cbv zeta. rewrite E. cbn [fst snd].
  split; [eauto|]. split; [reflexivity|].
  unfold bn_of, bn. cbn. rewrite Hm, Hcache. reflexivity.
Qed.
End AttributesProperties.

(** A MetaBayesianNet whose nets are the dictionaries they observe, bound
    to a latent mapping with an entry that is not a Variable: the hypotheses
    of the theorem above hold. *)
Lemma make_grad_func_not_atomic_witness :
  exists msg,
    snd (make_grad_func_method unit (list (string * PyObject))
           (fun _ d => d) (fun _ => None) (fun V d1 d2 => d1 ++ d2)
           (fun _ xs => xs)
           (new_object unit (list (string * PyObject))) (Instance unit tt)
           [] [("x"%string, TfTensor None)])
    = inl (TypeError msg).
Proof.
  refine (proj1 (make_grad_func_not_atomic unit (list (string * PyObject))
                   (fun _ d => d) (fun _ => None) (fun _ => true)
                   (fun V d1 d2 => d1 ++ d2) (fun _ xs => xs)
                   (new_object unit (list (string * PyObject))) tt
                   [] [("x"%string, TfTensor None)] eq_refl eq_refl _)).
  apply Exists_cons_hd. reflexivity.
Defined.

(** The same MetaBayesianNet, bound to one Variable: [bn] returns a net,
    which is a hypothesis of the last part of the theorem on [bn]; binding
    again leaves [bn] as it was. *)
Lemma bn_is_computed_once_witness :
  snd (bn unit (list (string * PyObject)) (fun _ d => d) (fun _ => true)
         (fun V d1 d2 => d1 ++ d2)
         (fst (make_grad_func_method unit (list (string * PyObject))
                 (fun _ d => d) (fun _ => None) (fun V d1 d2 => d1 ++ d2)
                 (fun _ xs => xs)
                 (fst (bn unit (list (string * PyObject)) (fun _ d => d)
                         (fun _ => true) (fun V d1 d2 => d1 ++ d2)
                         (fst (make_grad_func_method unit
                                 (list (string * PyObject))
                                 (fun _ d => d) (fun _ => None)
                                 (fun V d1 d2 => d1 ++ d2) (fun _ xs => xs)
                                 (new_object unit (list (string * PyObject)))
                                 (Instance unit tt) []
                                 [("w"%string, TfVariable (tf.user_var 0))]))))
                 (Instance unit tt) []
                 [("z"%string, TfVariable (tf.user_var 1))])))
  = Some (Some [("w"%string, TfVariable (tf.user_var 0))]).
Proof.
  refine (proj2 (proj2 (proj2
            (bn_is_computed_once unit (list (string * PyObject))
               (fun _ d => d) (fun _ => None) (fun _ => true)
               (fun V d1 d2 => d1 ++ d2) (fun _ xs => xs))))
            (fst (make_grad_func_method unit (list (string * PyObject))
                    (fun _ d => d) (fun _ => None) (fun V d1 d2 => d1 ++ d2)
                    (fun _ xs => xs)
                    (new_object unit (list (string * PyObject)))
                    (Instance unit tt) []
                    [("w"%string, TfVariable (tf.user_var 0))]))
            [("w"%string, TfVariable (tf.user_var 0))] tt []
            [("z"%string, TfVariable (tf.user_var 1))] eq_refl eq_refl).
Defined.

(** *** SGLD without noise on the quadratic log joint *)

Lemma item_map_ndarray f a i :
  (i < tf.numel (tf.shape_of a))%nat ->
  tf.item (tf.map_ndarray f a) i = f (tf.item a i).
Proof.
  destruct a as [x|xs]; simpl; intro Hi; [reflexivity|].
  rewrite (nth_indep _ 0 (f 0)) by now rewrite length_map.
  apply map_nth.
Qed.

Lemma shape_of_map_ndarray f a :
  tf.shape_of (tf.map_ndarray f a) = tf.shape_of a.
Proof. destruct a; simpl; [reflexivity|]. now rewrite length_map. Qed.

Lemma scaled_shape c q : tf.shape_of (scaled c q) = tf.shape_of q.
Proof. apply shape_of_pointwise. Qed.

Lemma scaled_one q : scaled 1 q = q.
Proof.
  unfold scaled. transitivity (tf.pointwise (tf.shape_of q) (tf.item q)).
  - apply pointwise_ext. intros i _. ring.
  - symmetry. apply as_pointwise.
Qed.

Lemma SGLD_quadratic_step (self : SGLD.t) draw c q :
  SGLD.add_noise self = false ->
  SGLD_new_q self draw (scaled c q)
    (tf.map_ndarray (fun x => - x) (scaled c q))
  = scaled ((1 - 0.5 * SGLD.lr self) * c) q.
Proof.
  intro Hn. unfold SGLD_new_q. rewrite Hn, scaled_shape.
  unfold scaled at 3.
  apply pointwise_ext. intros i Hi.
  rewrite item_map_ndarray by now rewrite scaled_shape.
  unfold scaled. rewrite item_pointwise by assumption. ring.
Qed.

(** X18. With noise disabled, SGLD on [log_joint(q) = -0.5*q^2] is gradient
    ascent with a fixed contraction: every iteration multiplies every
    element of every latent variable by [1 - 0.5*eta], so that [n]
    iterations multiply it by [(1 - 0.5*eta)^n]. *)
Theorem SGLD_quadratic_contraction (self : SGLD.t) (sess : tf.Session)
    (qs : list tf.Var) (qvs : list tf.ndarray) (latent_k : list string)
    (draws : nat -> Draws) (n : nat) :
  SGLD.add_noise self = false ->
  NoDup qs -> qs <> [] ->
  holds sess qs qvs ->
  exists sess',
    iterations self qs latent_k grad_quadratic draws n sess = Some sess'
    /\ holds sess' qs (map (scaled ((1 - 0.5 * SGLD.lr self) ^ n)) qvs).
Proof.
  intros Hn Hd Hne Hq. induction n as [|n IH].
  - exists sess. split; [reflexivity|].
    rewrite (map_ext _ (fun q => q)), map_id; [exact Hq|].
    intro q. apply scaled_one.
  - destruct IH as [s [Hrun Hs]].
    set (c := (1 - 0.5 * SGLD.lr self) ^ n) in *.
    destruct (SGLD_iteration self s (draws n) qs (map (scaled c) qvs)
                (map (tf.map_ndarray (fun x => - x)) (map (scaled c) qvs))
                latent_k grad_quadratic Hd Hne Hs)
      as [s' [Hrun' [_ [Hval _]]]].
    + unfold grad_quadratic. rewrite !map_map. reflexivity.
    + clear. induction qvs as [|q l IHl]; simpl; constructor; [|exact IHl].
      apply shape_of_map_ndarray.
    + exists s'. split; [cbn [iterations]; now rewrite Hrun|].
      pose proof (holds_length _ _ _ Hq) as Lq.
      apply holds_intro; [now rewrite length_map|].
      intros k x a Hx Ha. rewrite nth_error_map in Ha.
      destruct (nth_error qvs k) as [q|] eqn:Eq; [|discriminate].
      simpl in Ha. inversion Ha; subst a.
      rewrite (Hval k x (scaled c q)
                 (tf.map_ndarray (fun x => - x) (scaled c q)) Hx).
      * f_equal. rewrite SGLD_quadratic_step by assumption.
        unfold c. reflexivity.
      * now rewrite nth_error_map, Eq.
      * now rewrite !nth_error_map, Eq.
Qed.

(** The scenario of the specification: [q = 10], [learning_rate = 0.01],
    no noise; the hypotheses of the theorem above hold. *)
Lemma SGLD_quadratic_contraction_witness :
  exists sess',
    iterations (SGLD.__init__ 0.01 (Some false)) [tf.user_var 0]
      ["q"%string] grad_quadratic (fun _ => zero_draws) 2 quadratic_session
    = Some sess'
    /\ holds sess' [tf.user_var 0]
         (map (scaled ((1 - 0.5 * 0.01) ^ 2)) [tf.Dense [10]]).
Proof.
  apply (SGLD_quadratic_contraction (SGLD.__init__ 0.01 (Some false))
           quadratic_session [tf.user_var 0] [tf.Dense [10]] ["q"%string]
           (fun _ => zero_draws) 2).
  - reflexivity.
  - repeat constructor. intros [].
  - discriminate.
  - reflexivity.
Defined.

(** *** A zero learning rate *)











(** *** The Variables a sampler creates *)

(** X20. What [_define_variables] of SGHMC and of SGNHT leaves once the
    initialisers have run: the counter is 0; every latent variable still
    holds its value; the momentum of latent variable [k] has its shape and
    holds the standard-normal draws scaled by [sqrt eta]; in SGNHT its
    friction is [variance_extra], as a tensor of the shape of the latent
    variable in vector mode and as a scalar otherwise; and no Variable other
    than these momenta and frictions is touched. *)
Theorem momentum_and_friction_initialisation (hmc : SGHMC.t) (nht : SGNHT.t)
    (sess : tf.Session) (qs : list tf.Var) (qvs : list tf.ndarray)
    (draws0 : Draws) :
  bound_latents qs ->
  holds sess qs qvs ->
  (tf.sess_t (initialize hmc qs draws0 sess) = 0%Z
   /\ holds (initialize hmc qs draws0 sess) qs qvs
   /\ (forall k qv,
          nth_error qvs k = Some qv ->
          tf.sess_value (initialize hmc qs draws0 sess) (tf.vs_var k)
          = Some (tf.pointwise (tf.shape_of qv)
                    (fun i => draw_init draws0 k i * sqrt (SGHMC.lr hmc) + 0)))
   /\ (forall x,
          (forall k, (k < length qs)%nat -> x <> tf.vs_var k) ->
          tf.sess_value (initialize hmc qs draws0 sess) x
          = tf.sess_value sess x))
  /\ (tf.sess_t (initialize nht qs draws0 sess) = 0%Z
      /\ holds (initialize nht qs draws0 sess) qs qvs
      /\ (forall k qv,
             nth_error qvs k = Some qv ->
             tf.sess_value (initialize nht qs draws0 sess) (tf.vs_var k)
             = Some (tf.pointwise (tf.shape_of qv)
                       (fun i => draw_init draws0 k i * sqrt (SGNHT.lr nht) + 0))
             /\ tf.sess_value (initialize nht qs draws0 sess) (tf.alphas_var k)
                = Some (if SGNHT.use_vector_alpha nht
                        then tf.pointwise (tf.shape_of qv)
                               (fun _ => SGNHT.a nht * 1)
                        else tf.Scalar (SGNHT.a nht)))
      /\ (forall x,
             (forall k, (k < length qs)%nat -> x <> tf.vs_var k) ->
             (forall k, (k < length qs)%nat -> x <> tf.alphas_var k) ->
             tf.sess_value (initialize nht qs draws0 sess) x
             = tf.sess_value sess x)).
Proof.
  intros Hb Hq. split.
  - split; [apply SGHMC_initialize_t|].
    split; [now apply SGHMC_initialize_latents|]. split.
    + intros k qv Hqv. now apply (SGHMC_initialize_momentum hmc sess draws0 qs qvs).
    + intros x Hx. unfold initialize.
      cbn [_define_variables SGHMC.SGHMC_Subclass].
      unfold SGHMC._define_variables.
      rewrite (init_outside tf.vs_var
                 (fun k q => tf.random_normal
                               (tf.shape (tf.sess_value
                                            (tf.mkSession 0 (tf.sess_value sess)) q))
                               (tf.sqrt (tf.constant (SGHMC.lr hmc)))
                               (draw_init draws0 k))).
      * reflexivity.
      * intros j Hj. apply Hx. lia.
  - split; [apply SGNHT_initialize_t|].
    split; [now apply SGNHT_initialize_latents|]. split.
    + intros k qv Hqv. split.
      * now apply (SGNHT_initialize_momentum nht sess draws0 qs qvs).
      * now apply (SGNHT_initialize_friction nht sess draws0 qs qvs).
    + intros x Hv Ha. now apply SGNHT_initialize_other.
Qed.

(** The quadratic scenario satisfies the hypotheses of the theorem
    above. *)
Lemma momentum_and_friction_initialisation_witness :
  tf.sess_value
    (initialize (SGNHT.mk 0.01 0.5 1 0 true false) [tf.user_var 0]
       zero_draws quadratic_session) (tf.alphas_var 0)
  = Some (tf.Scalar 0.5).
Proof.
  destruct (momentum_and_friction_initialisation
              (SGHMC.mk 0.01 0.25 0 20 true)
              (SGNHT.mk 0.01 0.5 1 0 true false) quadratic_session
              [tf.user_var 0] [tf.Dense [10]] zero_draws)
    as [_ [_ [_ [H _]]]].
  - split; repeat constructor. intros [].
  - reflexivity.
  - exact (proj2 (H 0%nat (tf.Dense [10]) eq_refl)).
Defined.

(** *** Running the sampling operation on a latent variable without a value *)

Section Uninitialised.
Import tf.
Variables (draws : Draws) (sess : Session).
Variables (qs : list Var) (grad_func : grad_fn) (k : nat) (q : Var).
Hypothesis Hq : nth_error qs k = Some q.
Hypothesis Hlen :
  forall inputs, length inputs = length qs ->
                 length (grad_func inputs) = length qs.
Hypothesis Hnone : sess_value sess q = None.





End Uninitialised.


